(** * ffnn.ts: a random feed-forward network rendered as an RGBA image

    A shallow embedding of [src/ffnn.ts] and the properties of its
    specification.

    Numbers.  The values the network computes with (weights, activations,
    coordinates, colour channels) are IEEE-754 binary64 numbers, modelled by
    the primitive [float]: every [+], [*], [/] and comparison below rounds
    and treats NaN and the infinities exactly as the JavaScript operator
    does.  Numbers that are used as counts and dimensions ([n], [d], loop
    counters, [config.input], ...) are modelled by [index]: a mathematical
    integer or NaN, the one non-integer value the source itself tests for
    ([isNaN]).  On counts the arithmetic of the source is exact where it
    matters: a typed array has fewer than 2^53 elements, so a length or an
    offset into a buffer that a loop reaches is an integer below 2^53, and
    a product that leaves this range is refused as a length whether it is
    rounded or not.  The arguments [row] and [col] of [get] and [set] are
    numbers the caller chooses, so they are [float]s and the flat index is
    rounded as the source rounds it; [zeros_num] is [zeros] on a number
    that need not be a count.

    Engine.  The largest typed array that can be allocated is
    implementation-defined: the embedding is parametric in an [Engine] that
    gives the largest length of a [Float64Array] and of a
    [Uint8ClampedArray]; a longer array, like a negative length, is a
    RangeError.

    Host.  [Math.tanh], [Math.exp], [Math.log], [Math.sqrt] are
    implementation-approximated in ECMA-262 and [Math.random] is an oracle:
    the embedding is parametric in a [Host] that supplies them. *)

From Stdlib Require Import ZArith Floats Lia Bool Ascii.
From stdpp Require Import base list strings gmap pretty.

Local Open Scope Z_scope.

(* Decimal literals denote the nearest binary64 value, as in JavaScript. *)
#[local] Set Warnings "-inexact-float".

(** ** Exceptions and the two monads of the embedding *)

Inductive exn : Type :=
| DimensionsMisaligned   (* Error('Matrix dimensions misaligned') *)
| IndexOutOfBounds       (* Error('index out of bounds') *)
| RangeError             (* new Float64Array(len) with an invalid length *)
| TypeError              (* reading a property of undefined *)
| FuelExhausted.         (* the bound of the model on the rejection loop *)

Inductive result (A : Type) : Type :=
| Ok (a : A)
| Throw (e : exn).
Arguments Ok {A} a.
Arguments Throw {A} e.

Definition rbind {A B} (r : result A) (k : A -> result B) : result B :=
  match r with
  | Ok a => k a
  | Throw e => Throw e
  end.

(** A computation that may call [Math.random]: the state is the number of
    values drawn so far. *)
Definition M (A : Type) : Type := nat -> result (A * nat).

Definition ret {A} (a : A) : M A := fun c => Ok (a, c).
Definition bind {A B} (m : M A) (k : A -> M B) : M B :=
  fun c => match m c with
           | Ok (a, c') => k a c'
           | Throw e => Throw e
           end.
Definition lift {A} (r : result A) : M A :=
  fun c => match r with
           | Ok a => Ok (a, c)
           | Throw e => Throw e
           end.

Declare Scope js_scope.
Delimit Scope js_scope with js.
Notation "'let!' x := r 'in' k" := (rbind r (fun x => k))
  (at level 10, x pattern, r at level 100, k at level 200) : js_scope.
Notation "'do!' x := m 'in' k" := (bind m (fun x => k))
  (at level 10, x pattern, m at level 100, k at level 200) : js_scope.
Local Open Scope js_scope.

(** ** Counts and indices *)

Inductive index : Type :=
| iNaN
| Int (z : Z).

Definition imul (a b : index) : index :=
  match a, b with
  | Int x, Int y => Int (x * y)
  | _, _ => iNaN
  end.

Definition iadd (a b : index) : index :=
  match a, b with
  | Int x, Int y => Int (x + y)
  | _, _ => iNaN
  end.

(** [a === b]: false as soon as one side is NaN. *)
Definition ieqb (a b : index) : bool :=
  match a, b with
  | Int x, Int y => x =? y
  | _, _ => false
  end.

Definition isNaN (a : index) : bool :=
  match a with
  | iNaN => true
  | Int _ => false
  end.

(** The values [i] takes in [for (let i = 0; i < n; i++)]. *)
Definition upto (n : index) : list Z :=
  match n with
  | Int z => seqZ 0 z
  | iNaN => []
  end.

(** ** Typed arrays *)

(** The engine: the largest length of a [Float64Array] and of a
    [Uint8ClampedArray] that it allocates.  ECMA-262 bounds the byte length
    of a buffer by 2^53 - 1 (ToIndex, CreateByteDataBlock) and leaves the
    rest to the implementation, which throws a RangeError when it cannot
    allocate; an engine is taken to allocate at least the three numbers of
    the input vector of the forward pass. *)
Class Engine : Type := mkEngine {
  max_Float64Array : Z;
  max_Uint8ClampedArray : Z;
  Float64Array_min : 3 <= max_Float64Array;
  Float64Array_max : 8 * max_Float64Array <= 2 ^ 53 - 1;
  Uint8ClampedArray_min : 0 <= max_Uint8ClampedArray;
  Uint8ClampedArray_max : max_Uint8ClampedArray <= 2 ^ 53 - 1
}.

(** [new Float64Array(len)]: ToIndex sends NaN to 0; a negative length and
    a length the engine does not allocate are a RangeError; the buffer is
    zero-filled. *)
Definition Float64Array_new {eng : Engine} (len : index) : result (list float) :=
  match len with
  | iNaN => Ok []
  | Int z => if (z <? 0) || (max_Float64Array <? z) then Throw RangeError
             else Ok (replicate (Z.to_nat z) 0%float)
  end.

(** [a[ix]]: [None] is [undefined], the value of a read outside the
    buffer. *)
Definition rd {A} (a : list A) (ix : index) : option A :=
  match ix with
  | Int z => if z <? 0 then None else a !! Z.to_nat z
  | iNaN => None
  end.

(** [a[ix] = v]: a typed array ignores a write outside the buffer. *)
Definition wr {A} (a : list A) (ix : index) (v : A) : list A :=
  match ix with
  | Int z => if z <? 0 then a else <[Z.to_nat z := v]> a
  | iNaN => a
  end.

Arguments rd : simpl never.
Arguments wr : simpl never.

(** ToNumber where the source does arithmetic on the result of a read:
    [undefined] becomes NaN. *)
Definition ToNumber (v : option float) : float :=
  match v with
  | Some x => x
  | None => nan
  end.

Definition length_of {A} (a : list A) : index := Int (Z.of_nat (length a)).

(** The number an integer-valued count denotes, correctly rounded (exact
    below 2^53). *)
Definition Z2F (z : Z) : float := SF2Prim (binary_normalize prec emax z 0 false).

Definition to_float (a : index) : float :=
  match a with
  | Int z => Z2F z
  | iNaN => nan
  end.

(** The integer a number denotes, if it denotes one: the integer index that
    the property key of the number stands for (the key of -0 is "0"). *)
Definition float_to_Z (x : float) : option Z :=
  match Prim2SF x with
  | S754_zero _ => Some 0
  | S754_finite s m e =>
      if 0 <=? e then Some (cond_Zopp s (Z.pos m * 2 ^ e))
      else if Z.pos m mod 2 ^ (- e) =? 0
           then Some (cond_Zopp s (Z.pos m / 2 ^ (- e)))
           else None
  | _ => None
  end.

(** ToIntegerOrInfinity of a number: the integer part of a finite number
    (truncation toward zero); [None] for NaN and the infinities. *)
Definition float_trunc (x : float) : option Z :=
  match Prim2SF x with
  | S754_zero _ => Some 0
  | S754_finite s m e =>
      Some (cond_Zopp s (if 0 <=? e then Z.pos m * 2 ^ e
                         else Z.pos m / 2 ^ (- e)))
  | _ => None
  end.

(** [a[ix]] and [a[ix] = v] for a number [ix] that the source computes
    with [*] and [+]: a number that is not an integer index of the buffer
    reads as [undefined], and a write there is ignored. *)
Definition rd_num {A} (a : list A) (ix : float) : option A :=
  match float_to_Z ix with
  | Some z => rd a (Int z)
  | None => None
  end.

Definition wr_num {A} (a : list A) (ix : float) (v : A) : list A :=
  match float_to_Z ix with
  | Some z => wr a (Int z) v
  | None => a
  end.

(** ** Matrices *)

Definition zeros {eng : Engine} (num : index) : result (list float) :=
  if isNaN num then Ok [] else Float64Array_new num.

(** [zeros(num)] for any number [num], not only a count: ToIndex takes the
    integer part, and an infinite length is a RangeError.  On a count it is
    [zeros] (lemma [zeros_num_count]). *)
Definition zeros_num {eng : Engine} (num : float) : result (list float) :=
  if is_nan num then Ok []
  else match float_trunc num with
       | Some z => Float64Array_new (Int z)
       | None => Throw RangeError
       end.

Record Matrix : Type := mkMatrix { n : index; d : index; w : list float }.

(** A model is a JavaScript object: its members by name. *)
Abbreviation Model := (gmap string Matrix).

(** [new Matrix(n, d)] *)
Definition Matrix_new {eng : Engine} (n0 d0 : index) : result Matrix :=
  let! buf := zeros (imul n0 d0) in
  Ok {| n := n0; d := d0; w := buf |}.

(** [m.w[ix] = v] *)
Definition wset (m : Matrix) (ix : index) (v : float) : Matrix :=
  {| n := n m; d := d m; w := wr (w m) ix v |}.

(** [m.w[ix] = v] for a number [ix] *)
Definition wset_num (m : Matrix) (ix : float) (v : float) : Matrix :=
  {| n := n m; d := d m; w := wr_num (w m) ix v |}.

(** [get] and [set]: [this.d * row + col] is binary64 arithmetic on the
    numbers the caller passes. *)
Definition get (m : Matrix) (row col : float) : result (option float) :=
  let ix := (to_float (d m) * row + col)%float in
  if (0 <=? ix)%float && (to_float (length_of (w m)) <? ix)%float
  then Throw IndexOutOfBounds
  else Ok (rd_num (w m) ix).

Definition set (m : Matrix) (row col : float) (value : float) : result Matrix :=
  let ix := (to_float (d m) * row + col)%float in
  if (0 <=? ix)%float && (to_float (length_of (w m)) <? ix)%float
  then Throw IndexOutOfBounds
  else Ok (wset_num m ix value).

(** ** The host: [Math] *)

Record Host : Type := mkHost {
  Math_tanh : float -> float;
  Math_exp : float -> float;
  Math_log : float -> float;
  Math_sqrt : float -> float;
  (** the successive values returned by [Math.random()] *)
  Math_random : nat -> float
}.

(** [Math.max(a, b)] and [Math.min(a, b)]: NaN if either argument is NaN,
    and +0 is larger than -0. *)
Definition Math_max (a b : float) : float :=
  if is_nan a || is_nan b then nan
  else if (a <? b)%float then b
  else if (b <? a)%float then a
  else if get_sign a then b else a.

Definition Math_min (a b : float) : float :=
  if is_nan a || is_nan b then nan
  else if (a <? b)%float then a
  else if (b <? a)%float then b
  else if get_sign a then a else b.

(** ToBoolean on a number, as [||] applies it: 0, -0 and NaN are falsy. *)
Definition falsy (x : float) : bool := (x =? 0)%float || is_nan x.

(** [x || dflt] *)
Definition or_default (x dflt : float) : float := if falsy x then dflt else x.

(** Monadic folds: the loop bodies of the source in the two monads. *)
Fixpoint foldR {S A} (f : S -> A -> result S) (l : list A) (s : S) : result S :=
  match l with
  | [] => Ok s
  | a :: l' => let! s' := f s a in foldR f l' s'
  end.

Fixpoint foldM {S A} (f : S -> A -> M S) (l : list A) (s : S) : M S :=
  match l with
  | [] => ret s
  | a :: l' => do! s' := f s a in foldM f l' s'
  end.

Section Program.

Context {eng : Engine}.
Variable E : Host.
(** Bound on the rounds of the rejection loop of one Gaussian sample. *)
Variable fuel : nat.

(** ** Activation functions *)

Definition tanh (matrix : Matrix) : result Matrix :=
  let! out := Matrix_new (n matrix) (d matrix) in
  Ok (fold_left
        (fun out i => wset out (Int i) (Math_tanh E (ToNumber (rd (w matrix) (Int i)))))
        (upto (length_of (w matrix))) out).

Definition sig (x : float) : float := (1 / (1 + Math_exp E (- x)))%float.

Definition sigmoid (matrix : Matrix) : result Matrix :=
  let! out := Matrix_new (n matrix) (d matrix) in
  Ok (fold_left
        (fun out i => wset out (Int i) (sig (ToNumber (rd (w matrix) (Int i)))))
        (upto (length_of (w matrix))) out).

(** ** Matrix product *)

(** The innermost loop: [dot += m1.w[m1d * i + k] * m2.w[m2d * k + j]]. *)
Definition dot_loop (m1 m2 : Matrix) (i j : Z) : float :=
  fold_left
    (fun dot k =>
       (dot + ToNumber (rd (w m1) (iadd (imul (d m1) (Int i)) (Int k)))
              * ToNumber (rd (w m2) (iadd (imul (d m2) (Int k)) (Int j))))%float)
    (upto (d m1)) 0%float.

Definition matrixMul (m1 m2 : Matrix) : result Matrix :=
  if negb (ieqb (d m1) (n m2)) then Throw DimensionsMisaligned
  else
    let! out := Matrix_new (n m1) (d m2) in
    Ok (fold_left
          (fun out i =>
             fold_left
               (fun out j =>
                  wset out (iadd (imul (d m2) (Int i)) (Int j)) (dot_loop m1 m2 i j))
               (upto (d m2)) out)
          (upto (n m1)) out).

(** ** Random weights *)

Definition random : M float := fun c => Ok (Math_random E c, S c).

(** The do-while loop of the polar method, at most [k] rounds. *)
Fixpoint gaussian_loop (k : nat) : M float :=
  match k with
  | O => fun _ => Throw FuelExhausted
  | S k' =>
      do! r1 := random in
      let u := (2 * r1 - 1)%float in
      do! r2 := random in
      let v := (2 * r2 - 1)%float in
      let r := (u * u + v * v)%float in
      if (r =? 0)%float || (1 <? r)%float then gaussian_loop k'
      else
        let c := Math_sqrt E ((-2 * Math_log E r) / r)%float in
        ret (u * c)%float
  end.

Definition generateGaussianRandom : M float := gaussian_loop fuel.

Definition generateRandomNormal (mean standardDeviation : float) : M float :=
  do! g := generateGaussianRandom in
  ret (mean + g * standardDeviation)%float.

Definition fillRandn (matrix : Matrix) (mean standardDeviation : float) : M Matrix :=
  foldM
    (fun matrix i =>
       do! x := generateRandomNormal mean standardDeviation in
       ret (wset matrix (Int i) x))
    (upto (length_of (w matrix))) matrix.

Definition RandMat (rows columns : index) (mean standardDeviation : float) : M Matrix :=
  do! matrix := lift (Matrix_new rows columns) in
  fillRandn matrix (or_default mean 0) (or_default standardDeviation 0.08).

(** ** The model *)

Record Config : Type := mkConfig {
  width : index;
  height : index;
  input : index;
  hidden : index;
  maxR : float;
  maxG : float;
  maxB : float
}.

(** The member name [`w_${layerIndex}`]. *)
Definition layer_key (layerIndex : Z) : string := "w_" +:+ pretty layerIndex.

Definition weightInitRange : float := 0.8%float.

Definition createModel (config : Config) : M Model :=
  do! w_in := RandMat (input config) (Int 3) 0 weightInitRange in
  do! w_out := RandMat (Int 3) (input config) 0 weightInitRange in
  let model : Model := <["w_out" := w_out]> (<["w_in" := w_in]> ∅) in
  foldM
    (fun (model : Model) layerIndex =>
       do! m := RandMat (input config) (input config) 0 weightInitRange in
       ret (<[layer_key layerIndex := m]> model))
    (upto (hidden config)) model.

(** ** The forward pass *)

(** Reading a member to pass it to [matrixMul]: a missing member is
    [undefined], and [matrixMul] throws a TypeError on reading its [d]. *)
Definition member (model : Model) (key : string) : result Matrix :=
  match model !! key with
  | Some m => Ok m
  | None => Throw TypeError
  end.

Definition forwardNetwork (config : Config) (model : Model) (x_ y_ : float)
  : result Matrix :=
  let! x := Matrix_new (Int 3) (Int 1) in
  let! x := set x 0 0 x_ in
  let! x := set x 1 0 y_ in
  let! x := set x 2 0 1%float in
  let! w_in := member model "w_in" in
  let! h := matrixMul w_in x in
  let! out := tanh h in
  let! out :=
    foldR (fun out i =>
             let! w_i := member model (layer_key i) in
             let! h := matrixMul w_i out in
             tanh h)
          (upto (hidden config)) out in
  let! w_out := member model "w_out" in
  let! h := matrixMul w_out out in
  sigmoid h.

(** ** Colours and the image *)

Definition noiseRange : float := 0.03%float.

Definition noise : M float :=
  do! r := random in ret ((r * 2 - 1) * noiseRange)%float.

Definition getColorAt (config : Config) (model : Model) (x y : float)
  : M (list float) :=
  do! out := lift (forwardNetwork config model x y) in
  do! n0 := noise in
  let r := ((ToNumber (rd (w out) (Int 0)) + n0) * maxR config)%float in
  do! n1 := noise in
  let g := ((ToNumber (rd (w out) (Int 1)) + n1) * maxG config)%float in
  do! n2 := noise in
  let b := ((ToNumber (rd (w out) (Int 2)) + n2) * maxB config)%float in
  let a := 255%float in
  ret [Math_min 255 (Math_max 0 r);
       Math_min 255 (Math_max 0 g);
       Math_min 255 (Math_max 0 b);
       a].

(** [new Uint8ClampedArray(len)] *)
Definition Uint8ClampedArray_new (len : index) : result (list Z) :=
  match len with
  | iNaN => Ok []
  | Int z => if (z <? 0) || (max_Uint8ClampedArray <? z) then Throw RangeError
             else Ok (replicate (Z.to_nat z) 0)
  end.

(** The largest integer in [0, k] that is at most [x], for [0 <= x]. *)
Fixpoint floor_from (k : nat) (x : float) : Z :=
  match k with
  | O => 0
  | S k' => if (Z2F (Z.of_nat k) <=? x)%float then Z.of_nat k
            else floor_from k' x
  end.

(** ToUint8Clamp, the conversion of a store into a Uint8ClampedArray:
    NaN and [undefined] become 0, the value is clamped to [0, 255] and
    rounded to the nearest integer, ties to even. *)
Definition ToUint8Clamp (v : option float) : Z :=
  let x := ToNumber v in
  if is_nan x then 0
  else if (x <=? 0)%float then 0
  else if (255 <=? x)%float then 255
  else
    let f := floor_from 255 x in
    let half := (Z2F f + 0.5)%float in
    if (x <? half)%float then f
    else if (half <? x)%float then f + 1
    else if Z.even f then f else f + 1.

Definition getImageData (config : Config) : M (list Z) :=
  do! model := createModel config in
  do! pixels :=
    lift (Uint8ClampedArray_new
            (imul (imul (width config) (height config)) (Int 4))) in
  foldM
    (fun pixels y =>
       foldM
         (fun pixels x =>
            do! rgba :=
              getColorAt config model
                (to_float (Int x) / to_float (width config))%float
                (to_float (Int y) / to_float (height config))%float in
            let idx := imul (iadd (imul (Int y) (width config)) (Int x)) (Int 4) in
            let pixels := wr pixels idx (ToUint8Clamp (rd rgba (Int 0))) in
            let pixels := wr pixels (iadd idx (Int 1)) (ToUint8Clamp (rd rgba (Int 1))) in
            let pixels := wr pixels (iadd idx (Int 2)) (ToUint8Clamp (rd rgba (Int 2))) in
            let pixels := wr pixels (iadd idx (Int 3)) (ToUint8Clamp (rd rgba (Int 3))) in
            ret pixels)
         (upto (width config)) pixels)
    (upto (height config)) pixels.

End Program.

(** ** A reference host

    One concrete [Math], used to run the program on concrete inputs:
    [exp] by argument reduction and a Taylor polynomial, [tanh] from [exp],
    [log] from the exponent and the series of [atanh], each evaluated in
    binary64.  The special values are the ones ECMA-262 prescribes. *)
Module RefHost.

Definition horner (coeffs : list float) (y : float) : float :=
  fold_right (fun c acc => (c + y * acc)%float) 0%float coeffs.

(** 1/k! for k = 0 .. 14 *)
Definition exp_coeffs : list float :=
  (fix go (k : nat) (i : Z) (c : float) : list float :=
     match k with
     | O => []
     | S k' => c :: go k' (i + 1) (c / Z2F (i + 1))%float
     end) 15%nat 0 1%float.

Fixpoint squarings (k : nat) (y : float) : float :=
  match k with
  | O => y
  | S k' => squarings k' (y * y)%float
  end.

Definition exp (x : float) : float :=
  if is_nan x then nan
  else if (x <? -746)%float then 0%float
  else if (710 <? x)%float then infinity
  else squarings 10 (horner exp_coeffs (x / 1024)%float).

Definition tanh (x : float) : float :=
  if is_nan x then nan
  else if (x =? 0)%float then x
  else if (20 <? x)%float then 1%float
  else if (x <? -20)%float then (-1)%float
  else let e := exp (2 * x)%float in ((e - 1) / (e + 1))%float.

(** 1/(2k+1) for k = 0 .. 13 *)
Definition atanh_coeffs : list float :=
  map (fun k => (1 / Z2F (2 * k + 1))%float) (seqZ 0 14).

Definition ln2 : float := 0x1.62e42fefa39efp-1%float.

Definition log (x : float) : float :=
  if is_nan x || (x <? 0)%float then nan
  else if (x =? 0)%float then neg_infinity
  else if (x =? infinity)%float then infinity
  else
    let '(m, e) := Z.frexp x in
    let '(m, e) := if (m <? 0x1.6a09e667f3bcdp-1)%float
                   then ((2 * m)%float, e - 1) else (m, e) in
    let z := ((m - 1) / (m + 1))%float in
    (2 * (z * horner atanh_coeffs (z * z)) + Z2F e * ln2)%float.

(** A host whose [Math.random] returns the values of [draws] in turn,
    over and over. *)
Definition cycle (draws : list float) (k : nat) : float :=
  default 0.5%float (draws !! (k mod length draws)%nat).

Definition host (draws : list float) : Host :=
  {| Math_tanh := tanh; Math_exp := exp; Math_log := log;
     Math_sqrt := sqrt; Math_random := cycle draws |}.

(** An engine whose typed arrays hold at most 2^32 - 1 elements. *)
Definition engine : Engine :=
  {| max_Float64Array := 2 ^ 32 - 1;
     max_Uint8ClampedArray := 2 ^ 32 - 1;
     Float64Array_min := ltac:(lia);
     Float64Array_max := ltac:(lia);
     Uint8ClampedArray_min := ltac:(lia);
     Uint8ClampedArray_max := ltac:(lia) |}.

End RefHost.

(** ** Specification-side notions *)

(** The flat index [d * row + col] of [get] and [set], as the source
    computes it. *)
Definition flat_index (m : Matrix) (row col : float) : float :=
  (to_float (d m) * row + col)%float.

(** The number of elements of [new Matrix(a, b)] when it is constructed. *)
Definition cells (a b : index) : nat :=
  match imul a b with
  | Int z => Z.to_nat z
  | iNaN => 0%nat
  end.

(** A matrix of [r] rows and [c] columns: non-negative integer dimensions
    and a buffer of [r * c] elements. *)
Definition shaped (m : Matrix) (r c : Z) : Prop :=
  0 <= r /\ 0 <= c /\ n m = Int r /\ d m = Int c
  /\ Z.of_nat (length (w m)) = r * c.

(** Row [i] and column [j] of a matrix stored in row-major order, and the
    dot product accumulated from 0.0 in the order of the elements. *)
Definition row (m : Matrix) (i : Z) : list float :=
  match d m with
  | Int c => take (Z.to_nat c) (drop (Z.to_nat (c * i)) (w m))
  | iNaN => []
  end.

Definition col (m : Matrix) (j : Z) : list float :=
  match n m with
  | Int r => (fun i => ToNumber (row m i !! Z.to_nat j)) <$> seqZ 0 r
  | iNaN => []
  end.

Definition dot (xs ys : list float) : float :=
  fold_left (fun acc p => (acc + p.1 * p.2)%float) (zip xs ys) 0%float.

(** The buffer after the writes [b[ix x] = v x], for [x] in [l] in order. *)
Definition writes {X A} (ix : X -> Z) (v : X -> A) (l : list X)
    (b : list A) : list A :=
  fold_left (fun b x => wr b (Int (ix x)) (v x)) l b.

(** The product of a matrix and a column vector, one dot product per row,
    and a layer of the network: the product followed by the activation. *)
Definition mat_vec (m : Matrix) (v : list float) : list float :=
  (fun i => dot (row m i) v) <$> upto (n m).

Definition layer (act : float -> float) (m : Matrix) (v : list float)
  : list float :=
  act <$> mat_vec m v.

(** The column vector with the elements [v]. *)
Definition column (v : list float) : Matrix :=
  {| n := length_of v; d := Int 1; w := v |}.

(** The forward pass in the words of the specification: the input layer on
    the augmented vector (x, y, 1), the hidden layers in order, each with
    tanh, then the output layer with the sigmoid. *)
Definition forward_layers (E : Host) (w_in : Matrix) (hiddens : list Matrix)
    (w_out : Matrix) (x y : float) : list float :=
  layer (sig E) w_out
    (fold_left (fun h w_i => layer (Math_tanh E) w_i h) hiddens
       (layer (Math_tanh E) w_in [x; y; 1%float])).

(** The clamp of [getColorAt] and the noise it adds at the [k]-th draw. *)
Definition clamp (v : float) : float := Math_min 255 (Math_max 0 v).

Definition noise_at (E : Host) (k : nat) : float :=
  ((Math_random E k * 2 - 1) * noiseRange)%float.

(** The colour [getColorAt] gives pixel [(x, y)] of a [W] by [H] image when
    [k] random numbers have been drawn, and the four stores of
    [getImageData] for the pixel of flat position [q]. *)
Definition colour_at {eng : Engine} (E : Host) (config : Config) (model : Model)
    (W H : Z)
    (p : Z * Z) (k : nat) : list float :=
  match getColorAt E config model (Z2F p.2 / Z2F W)%float (Z2F p.1 / Z2F H)%float k with
  | Ok (rgba, _) => rgba
  | Throw _ => []
  end.

Definition pixel_stores (pixels : list Z) (q : Z) (rgba : list float) : list Z :=
  let idx := Int (q * 4) in
  let pixels := wr pixels idx (ToUint8Clamp (rd rgba (Int 0))) in
  let pixels := wr pixels (iadd idx (Int 1)) (ToUint8Clamp (rd rgba (Int 1))) in
  let pixels := wr pixels (iadd idx (Int 2)) (ToUint8Clamp (rd rgba (Int 2))) in
  wr pixels (iadd idx (Int 3)) (ToUint8Clamp (rd rgba (Int 3))).

(** [k] successive results of [generateRandomNormal(mean, sd)]. *)
Fixpoint samples (E : Host) (fuel : nat) (mean sd : float) (k : nat)
  : M (list float) :=
  match k with
  | O => ret []
  | S k' =>
      do! x := generateRandomNormal E fuel mean sd in
      do! xs := samples E fuel mean sd k' in
      ret (x :: xs)
  end.

(** The buffer of [m] holds successive samples of mean 0 and standard
    deviation [sd]. *)
Definition weights_of (E : Host) (fuel : nat) (sd : float) (m : Matrix) : Prop :=
  exists c1 c2, samples E fuel 0 sd (length (w m)) c1 = Ok (w m, c2).

(** The rejection loop of the Gaussian sampler comes to an end within the
    bound of the model, whatever the number of values drawn before. *)
Definition sampler_returns (E : Host) (fuel : nat) : Prop :=
  forall c, exists g c', generateGaussianRandom E fuel c = Ok (g, c').

(** The quantities of one round of the polar method that starts when [c]
    numbers have been drawn: [u] (and [v], the [u] of the next draw),
    [r = u*u + v*v], the test of the do-while loop, and the value returned
    when the round is accepted. *)
Definition polar_u (E : Host) (c : nat) : float := (2 * Math_random E c - 1)%float.

Definition polar_r (E : Host) (c : nat) : float :=
  (polar_u E c * polar_u E c + polar_u E (S c) * polar_u E (S c))%float.

Definition rejected (E : Host) (c : nat) : bool :=
  (polar_r E c =? 0)%float || (1 <? polar_r E c)%float.

Definition polar_value (E : Host) (c : nat) : float :=
  (polar_u E c * Math_sqrt E ((-2 * Math_log E (polar_r E c)) / polar_r E c))%float.

(** ** Binary64 numbers of the specification

    The format of [float] is that of [SpecFloat] at [prec] 53 and [emax]
    1024.  [rounded s mr E1] is the number [binary_round_aux] returns once
    the mantissa is at the exponent [E1] of the format and rounded there to
    [mr]; [val_le m1 e1 m2 e2] is [m1 * 2^e1 <= m2 * 2^e2], on integers;
    [with_sign] gives a number a sign. *)

Abbreviation fexp := (SpecFloat.fexp prec emax).

Definition rounded (s : bool) (mr E1 : Z) : spec_float :=
  if mr =? 0 then S754_zero s
  else if mr <? 2 ^ 53 then
    if E1 <=? emax - prec then S754_finite s (Z.to_pos mr) E1
    else S754_infinity s
  else if E1 + 1 <=? emax - prec then S754_finite s (Z.to_pos (2 ^ 52)) (E1 + 1)
  else S754_infinity s.

Definition val_le (m1 e1 m2 e2 : Z) : Prop :=
  m1 * 2 ^ (e1 - Z.min e1 e2) <= m2 * 2 ^ (e2 - Z.min e1 e2).

Definition with_sign (s : bool) (x : spec_float) : spec_float :=
  match x with
  | S754_zero _ => S754_zero s
  | S754_infinity _ => S754_infinity s
  | S754_nan => S754_nan
  | S754_finite _ m e => S754_finite s m e
  end.

(** The numbers the ranges of the specification are measured against: 1.0,
    the largest number below it, [1 - 2^-52], 2.0 and the largest number
    below it; [SFnoise] is the mantissa of [noiseRange], which is
    [SFnoise * 2^-58]. *)
Definition SFone : spec_float := S754_finite false (Z.to_pos (2 ^ 52)) (-52).

Definition SFpred_one : spec_float := S754_finite false (Z.to_pos (2 ^ 53 - 1)) (-53).

Definition SFone_minus_ulp : spec_float :=
  S754_finite false (Z.to_pos (2 ^ 53 - 2)) (-53).

Definition SFtwo : spec_float := S754_finite false (Z.to_pos (2 ^ 52)) (-51).

Definition SFpred_two : spec_float := S754_finite false (Z.to_pos (2 ^ 53 - 1)) (-52).

Definition SFnoise : positive := 8646911284551352.

(** ** Concrete runs

    A network of 32 units without hidden layers, on the reference host with
    every draw of [Math.random] equal to 0.55: every weight is
    0.8 * 1.9778... = 1.5823..., the output dot products are about 50, and
    [exp(-50)] is far below the rounding unit of 1.0. *)
Definition wide_config : Config :=
  {| width := Int 1; height := Int 1; input := Int 32; hidden := Int 0;
     maxR := 255; maxG := 255; maxB := 255 |}.

(** The end-to-end scenario of the specification, with one hidden layer
    added. *)
Definition small_config : Config :=
  {| width := Int 2; height := Int 1; input := Int 4; hidden := Int 1;
     maxR := 255; maxG := 255; maxB := 255 |}.

Definition small_host : Host := RefHost.host [0.55; 0.7; 0.3; 0.9; 0.2]%float.

(** The model [createModel] returns for [small_config] on [small_host]. *)
Definition small_model : Model :=
  match createModel (eng := RefHost.engine) small_host 10 small_config 0%nat with
  | Ok (model, _) => model
  | Throw _ => ∅
  end.

(** [small_config] with a NaN maximum for the red channel, with a negative
    [input], and with [input] 0. *)
Definition nan_max_config : Config :=
  {| width := Int 2; height := Int 1; input := Int 4; hidden := Int 1;
     maxR := nan; maxG := 255; maxB := 255 |}.

Definition negative_input_config : Config :=
  {| width := Int 2; height := Int 1; input := Int (-1); hidden := Int 1;
     maxR := 255; maxG := 255; maxB := 255 |}.

Definition zero_input_config : Config :=
  {| width := Int 2; height := Int 1; input := Int 0; hidden := Int 3;
     maxR := 255; maxG := 255; maxB := 255 |}.

(** * Properties *)

(** ** The monads *)

Lemma rbind_Ok {A B} (r : result A) (k : A -> result B) (b : B) :
  rbind r k = Ok b <-> exists a, r = Ok a /\ k a = Ok b.
Proof.
  destruct r as [a|e]; simpl; split.
  - intros H; exists a; auto.
  - intros (a' & Ha & Hk); congruence.
  - discriminate.
  - intros (a' & Ha & _); discriminate.
Qed.

Lemma bind_Ok {A B} (m : M A) (k : A -> M B) (c c' : nat) (b : B) :
  bind m k c = Ok (b, c') <->
  exists a c1, m c = Ok (a, c1) /\ k a c1 = Ok (b, c').
Proof.
  unfold bind. destruct (m c) as [[a c1]|e]; split.
  - intros H; exists a, c1; auto.
  - intros (a' & c1' & Ha & Hk); congruence.
  - discriminate.
  - intros (a' & c1' & Ha & _); discriminate.
Qed.

(** ** Typed-array reads and writes *)

Lemma rd_Int {A} (a : list A) (z : Z) :
  0 <= z -> rd a (Int z) = a !! Z.to_nat z.
Proof. intros Hz. unfold rd. destruct (Z.ltb_spec z 0); [lia | reflexivity]. Qed.

Lemma rd_negative {A} (a : list A) (z : Z) : z < 0 -> rd a (Int z) = None.
Proof. intros Hz. unfold rd. destruct (Z.ltb_spec z 0); [reflexivity | lia]. Qed.

Lemma wr_Int {A} (a : list A) (z : Z) (v : A) :
  0 <= z -> wr a (Int z) v = <[Z.to_nat z := v]> a.
Proof. intros Hz. unfold wr. destruct (Z.ltb_spec z 0); [lia | reflexivity]. Qed.

Lemma wr_negative {A} (a : list A) (z : Z) (v : A) : z < 0 -> wr a (Int z) v = a.
Proof. intros Hz. unfold wr. destruct (Z.ltb_spec z 0); [reflexivity | lia]. Qed.

Lemma length_wr {A} (a : list A) (ix : index) (v : A) :
  length (wr a ix v) = length a.
Proof.
  destruct ix as [|z]; unfold wr; [reflexivity|].
  destruct (z <? 0); [reflexivity | apply length_insert].
Qed.

(** ** Comparisons of binary64 numbers *)

Lemma SFcompare_refl (x : spec_float) :
  x <> S754_nan -> SFcompare x x = Some Eq.
Proof.
  destruct x as [s|s| |s m e]; intros H; simpl; try congruence.
  - destruct s; reflexivity.
  - rewrite Z.compare_refl, Pos.compare_cont_refl. destruct s; reflexivity.
Qed.

Lemma SFcompare_antisym (x y : spec_float) :
  SFcompare y x = option_map CompOpp (SFcompare x y).
Proof.
  destruct x as [sx|sx| |sx mx ex], y as [sy|sy| |sy my ey]; simpl;
    try reflexivity; try (destruct sx; reflexivity);
    try (destruct sy; reflexivity); try (destruct sx, sy; reflexivity).
  assert (Hm : Pos.compare_cont Eq my mx = CompOpp (Pos.compare_cont Eq mx my))
    by (rewrite (Pos.compare_cont_antisym mx my Eq); reflexivity).
  rewrite (Z.compare_antisym ex ey), Hm.
  destruct sx, sy, (ex ?= ey); simpl; try reflexivity;
    destruct (Pos.compare_cont Eq mx my); reflexivity.
Qed.

Lemma SFcompare_None (x y : spec_float) :
  SFcompare x y = None <-> x = S754_nan \/ y = S754_nan.
Proof.
  destruct x as [sx|sx| |sx mx ex], y as [sy|sy| |sy my ey]; simpl;
    split; intros H; try discriminate; auto;
    destruct H as [H|H]; discriminate.
Qed.

Lemma is_nan_spec (a : float) : is_nan a = true <-> Prim2SF a = S754_nan.
Proof.
  unfold is_nan. rewrite FloatAxioms.eqb_spec. unfold SFeqb. split.
  - intros H. destruct (SFcompare (Prim2SF a) (Prim2SF a)) as [[]|] eqn:Hc;
      try discriminate;
      [ destruct (Prim2SF a); try reflexivity; simpl in Hc;
        rewrite ?Z.compare_refl, ?Pos.compare_cont_refl in Hc;
        destruct s; discriminate ..
      | apply SFcompare_None in Hc; tauto ].
  - intros ->. reflexivity.
Qed.

Lemma is_nan_false (a : float) : is_nan a = false <-> Prim2SF a <> S754_nan.
Proof.
  rewrite <- is_nan_spec. destruct (is_nan a); split; congruence.
Qed.

Lemma ltb_leb (a b : float) : (a <? b)%float = true -> (a <=? b)%float = true.
Proof.
  rewrite FloatAxioms.ltb_spec, FloatAxioms.leb_spec. unfold SFltb, SFleb.
  destruct (SFcompare (Prim2SF a) (Prim2SF b)) as [[]|]; congruence.
Qed.

Lemma not_ltb_leb (a b : float) :
  is_nan a = false -> is_nan b = false ->
  (a <? b)%float = false -> (b <=? a)%float = true.
Proof.
  rewrite !is_nan_false, FloatAxioms.ltb_spec, FloatAxioms.leb_spec. unfold SFltb, SFleb.
  intros Ha Hb. rewrite (SFcompare_antisym (Prim2SF a) (Prim2SF b)).
  destruct (SFcompare (Prim2SF a) (Prim2SF b)) as [[]|] eqn:Hc; simpl;
    try congruence.
  apply SFcompare_None in Hc. tauto.
Qed.

(** ** Rounding in binary64 *)

Lemma digits2_pos_size (p : positive) : digits2_pos p = Pos.size p.
Proof. induction p as [p IH|p IH|]; simpl; congruence. Qed.

Lemma Zdigits2_bounds (m : Z) :
  0 < m -> 2 ^ (Zdigits2 m - 1) <= m < 2 ^ Zdigits2 m.
Proof.
  destruct m as [|p|p]; try lia. intros _. simpl Zdigits2.
  rewrite digits2_pos_size.
  pose proof (Pos.size_gt p) as Hgt. pose proof (Pos.size_le p) as Hle.
  assert (H2 : Z.pos (2 ^ Pos.size p) = 2 ^ Z.pos (Pos.size p))
    by (rewrite Pos2Z.inj_pow; reflexivity).
  split.
  - assert (2 ^ Z.pos (Pos.size p) <= 2 * Z.pos p) by (rewrite <- H2; lia).
    replace (Z.pos (Pos.size p)) with (Z.pos (Pos.size p) - 1 + 1) in H by lia.
    rewrite Z.pow_add_r in H by lia. lia.
  - rewrite <- H2. lia.
Qed.

Lemma Zdigits2_nonneg (m : Z) : 0 <= Zdigits2 m.
Proof. destruct m; simpl; lia. Qed.

Lemma Zdigits2_unique (m k : Z) :
  2 ^ (k - 1) <= m < 2 ^ k -> 0 < m -> Zdigits2 m = k.
Proof.
  intros [Hlo Hhi] Hm. pose proof (Zdigits2_bounds m Hm) as [Dlo Dhi].
  pose proof (Zdigits2_nonneg m) as Hd.
  assert (Hk : 0 <= k).
  { destruct (Z.lt_ge_cases k 0) as [Hneg|]; [|assumption].
    rewrite (Z.pow_neg_r 2 k) in Hhi by assumption. lia. }
  destruct (Z.lt_trichotomy (Zdigits2 m) k) as [Hlt|[Heq|Hgt]]; [|assumption|].
  - assert (2 ^ Zdigits2 m <= 2 ^ (k - 1)) by (apply Z.pow_le_mono_r; lia). lia.
  - assert (2 ^ k <= 2 ^ (Zdigits2 m - 1)) by (apply Z.pow_le_mono_r; lia). lia.
Qed.

Lemma Zdigits2_le (a b : Z) : 0 < a -> a <= b -> Zdigits2 a <= Zdigits2 b.
Proof.
  intros Ha Hab. pose proof (Zdigits2_bounds a Ha) as [Alo _].
  pose proof (Zdigits2_bounds b ltac:(lia)) as [_ Bhi].
  destruct (Z.le_gt_cases (Zdigits2 a) (Zdigits2 b)) as [|Hgt]; [assumption|].
  assert (2 ^ Zdigits2 b <= 2 ^ (Zdigits2 a - 1)).
  { apply Z.pow_le_mono_r; [lia|]. lia. }
  lia.
Qed.

(** [shr]: [n] shifts to the right divide the mantissa by [2 ^ n]; the two
    flags stay clear when nothing is lost. *)
Lemma iter_pos_nat {A} (f : A -> A) (p : positive) (x : A) :
  SpecFloat.iter_pos f p x = Nat.iter (Pos.to_nat p) f x.
Proof.
  revert x. induction p as [p IH|p IH|]; intros x; cbn [SpecFloat.iter_pos].
  - rewrite !IH, Pos2Nat.inj_xI, Nat.iter_succ_r, <- Nat.iter_add.
    f_equal. lia.
  - rewrite !IH, Pos2Nat.inj_xO, <- Nat.iter_add. f_equal. lia.
  - reflexivity.
Qed.

Lemma shr_1_m (mrs : shr_record) :
  0 <= shr_m mrs -> shr_m (shr_1 mrs) = shr_m mrs / 2.
Proof.
  destruct mrs as [m r s]. simpl. intros Hm.
  destruct m as [|[p|p|]|p]; simpl; try lia; try reflexivity.
  - rewrite Pos2Z.inj_xI. apply Z.div_unique with 1; lia.
  - rewrite Pos2Z.inj_xO. apply Z.div_unique with 0; lia.
Qed.

Lemma shr_1_exact (mrs : shr_record) :
  0 <= shr_m mrs -> shr_m mrs mod 2 = 0 ->
  shr_r mrs = false -> shr_s mrs = false ->
  shr_r (shr_1 mrs) = false /\ shr_s (shr_1 mrs) = false.
Proof.
  destruct mrs as [m r s]. simpl. intros Hm Hmod -> ->.
  destruct m as [|[p|p|]|p]; simpl; try lia; auto.
  - rewrite Pos2Z.inj_xI in Hmod. exfalso.
    rewrite Z.add_comm, Z.mul_comm, Z.mod_add in Hmod by lia. discriminate.
  - discriminate.
Qed.

Lemma shr_iter_m (k : nat) (mrs : shr_record) :
  0 <= shr_m mrs ->
  shr_m (Nat.iter k shr_1 mrs) = shr_m mrs / 2 ^ Z.of_nat k.
Proof.
  intros Hm. induction k as [|k IH].
  - simpl. rewrite Z.div_1_r. reflexivity.
  - rewrite Nat.iter_succ. rewrite shr_1_m.
    + rewrite IH. rewrite Nat2Z.inj_succ, Z.pow_succ_r by lia.
      rewrite Z.div_div by lia. f_equal. lia.
    + rewrite IH. apply Z.div_pos; lia.
Qed.

Lemma shr_iter_exact (k : nat) (mrs : shr_record) :
  0 <= shr_m mrs -> shr_m mrs mod 2 ^ Z.of_nat k = 0 ->
  shr_r mrs = false -> shr_s mrs = false ->
  shr_r (Nat.iter k shr_1 mrs) = false /\ shr_s (Nat.iter k shr_1 mrs) = false.
Proof.
  intros Hm. induction k as [|k IH]; intros Hmod Hr Hs.
  - simpl. auto.
  - rewrite Nat2Z.inj_succ, Z.pow_succ_r in Hmod by lia.
    assert (Hmod' : shr_m mrs mod 2 ^ Z.of_nat k = 0).
    { apply Z.mod_divide in Hmod; [|lia]. apply Z.mod_divide; [lia|].
      destruct Hmod as [q Hq]. exists (q * 2). lia. }
    destruct (IH Hmod' Hr Hs) as [Hr' Hs'].
    rewrite Nat.iter_succ. apply shr_1_exact; try assumption.
    + rewrite shr_iter_m by assumption. apply Z.div_pos; lia.
    + rewrite shr_iter_m by assumption.
      apply Z.mod_divide in Hmod; [|lia]. destruct Hmod as [q Hq].
      rewrite Hq. replace (q * (2 * 2 ^ Z.of_nat k)) with (q * 2 * 2 ^ Z.of_nat k) by lia.
      rewrite Z.div_mul by lia. rewrite Z.mul_comm, Z.mul_comm.
      apply Z.mod_mul. lia.
Qed.

Ltac fexp_lia :=
  unfold SpecFloat.fexp, SpecFloat.emin, prec, emax in *; lia.

Lemma shr_record_of_loc_m (m : Z) (l : location) :
  shr_m (shr_record_of_loc m l) = m.
Proof. destruct l as [|[]]; reflexivity. Qed.

Lemma shr_spec (m : Z) (l : location) (e k : Z) :
  0 <= m -> 0 <= k ->
  exists mrs,
    shr (shr_record_of_loc m l) e k = (mrs, e + k)
    /\ shr_m mrs = m / 2 ^ k
    /\ (l = loc_Exact -> m mod 2 ^ k = 0 -> loc_of_shr_record mrs = loc_Exact).
Proof.
  intros Hm Hk. destruct k as [|p|p]; [| |lia].
  - exists (shr_record_of_loc m l). simpl shr. rewrite Z.add_0_r.
    split; [reflexivity|]. rewrite shr_record_of_loc_m, Z.div_1_r.
    split; [reflexivity|]. intros -> _. reflexivity.
  - exists (SpecFloat.iter_pos shr_1 p (shr_record_of_loc m l)). simpl shr.
    split; [reflexivity|]. rewrite iter_pos_nat.
    rewrite shr_iter_m by (rewrite shr_record_of_loc_m; assumption).
    rewrite shr_record_of_loc_m, positive_nat_Z.
    split; [reflexivity|]. intros -> Hmod.
    assert (Hrs : shr_r (Nat.iter (Pos.to_nat p) shr_1 (shr_record_of_loc m loc_Exact))
                  = false
                  /\ shr_s (Nat.iter (Pos.to_nat p) shr_1
                              (shr_record_of_loc m loc_Exact)) = false).
    { apply shr_iter_exact; try reflexivity.
      - rewrite shr_record_of_loc_m. assumption.
      - rewrite shr_record_of_loc_m, positive_nat_Z. assumption. }
    destruct (Nat.iter (Pos.to_nat p) shr_1 (shr_record_of_loc m loc_Exact))
      as [m' r' s'].
    cbn [shr_r shr_s] in Hrs. destruct Hrs as [-> ->]. reflexivity.
Qed.

Lemma shr_nonpos (mrs : shr_record) (e k : Z) : k <= 0 -> shr mrs e k = (mrs, e).
Proof. destruct k; simpl; intros; [reflexivity | lia | reflexivity]. Qed.

Lemma round_nearest_even_bounds (m : Z) (l : location) :
  m <= round_nearest_even m l <= m + 1
  /\ (l = loc_Exact -> round_nearest_even m l = m).
Proof.
  destruct l as [|[]]; simpl; try destruct (Z.even m); split; try lia;
    try reflexivity; try discriminate; auto.
Qed.

Lemma binary_round_aux_spec (s : bool) (mx ex : Z) (lx : location) :
  0 < mx -> ex <= fexp (Zdigits2 mx + ex) ->
  exists mr,
    mx / 2 ^ (fexp (Zdigits2 mx + ex) - ex) <= mr
    /\ mr <= mx / 2 ^ (fexp (Zdigits2 mx + ex) - ex) + 1
    /\ (lx = loc_Exact -> mx mod 2 ^ (fexp (Zdigits2 mx + ex) - ex) = 0 ->
        mr = mx / 2 ^ (fexp (Zdigits2 mx + ex) - ex))
    /\ mr <= 2 ^ 53
    /\ binary_round_aux prec emax s mx ex lx
       = rounded s mr (fexp (Zdigits2 mx + ex)).
Proof.
  intros Hmx Hfine.
  set (E1 := fexp (Zdigits2 mx + ex)) in *.
  destruct (shr_spec mx lx ex (E1 - ex)) as (mrs & Hshr & Hm & Hexact);
    [lia | lia |].
  pose proof (round_nearest_even_bounds (shr_m mrs) (loc_of_shr_record mrs))
    as [[Hlo Hhi] Hrne].
  set (mr := round_nearest_even (shr_m mrs) (loc_of_shr_record mrs)) in *.
  assert (Hq : 0 <= mx / 2 ^ (E1 - ex) < 2 ^ 53).
  { pose proof (Zdigits2_bounds mx Hmx) as [_ Dhi].
    assert (HE : Zdigits2 mx + ex - 53 <= E1) by (unfold E1; fexp_lia).
    split; [apply Z.div_pos; lia|].
    apply Z.div_lt_upper_bound; [lia|]. rewrite <- Z.pow_add_r by lia.
    eapply Z.lt_le_trans; [exact Dhi|]. apply Z.pow_le_mono_r; lia. }
  exists mr. rewrite <- Hm.
  split; [assumption|]. split; [assumption|].
  split; [intros Hl Hmod; apply Hrne, Hexact; assumption|].
  split; [lia|].
  unfold binary_round_aux, shr_fexp. fold E1.
  replace (ex + (E1 - ex)) with E1 in Hshr by lia. rewrite Hshr. fold mr.
  assert (Hemin : SpecFloat.emin prec emax <= E1)
    by (unfold E1; fexp_lia).
  unfold rounded.
  destruct (Z.eqb_spec mr 0) as [H0|H0].
  - rewrite H0. simpl Zdigits2. rewrite shr_nonpos by fexp_lia.
    reflexivity.
  - destruct (Z.ltb_spec mr (2 ^ 53)) as [Hlt|Hge].
    + pose proof (Zdigits2_bounds mr ltac:(lia)) as [Dlo _].
      assert (Hd : Zdigits2 mr <= 53).
      { destruct (Z.le_gt_cases (Zdigits2 mr) 53) as [|Hgt]; [assumption|].
        assert (2 ^ 53 <= 2 ^ (Zdigits2 mr - 1)) by (apply Z.pow_le_mono_r; lia).
        lia. }
      rewrite shr_nonpos by fexp_lia.
      rewrite shr_record_of_loc_m.
      destruct mr as [|p|p]; try lia. reflexivity.
    + assert (Hmr : mr = 2 ^ 53) by lia. rewrite Hmr.
      change (Zdigits2 (2 ^ 53)) with 54.
      replace (SpecFloat.fexp prec emax (54 + E1) - E1) with 1
        by fexp_lia.
      reflexivity.
Qed.

(** The order of positive finite numbers. *)
Lemma SFleb_finite (m1 m2 : positive) (e1 e2 : Z) :
  SFleb (S754_finite false m1 e1) (S754_finite false m2 e2) = true
  <-> e1 < e2 \/ (e1 = e2 /\ Z.pos m1 <= Z.pos m2).
Proof.
  unfold SFleb, SFcompare.
  change (Pos.compare_cont Eq m1 m2) with (Pos.compare m1 m2).
  destruct (Z.compare_spec e1 e2) as [He|He|He];
    [destruct (Pos.compare_spec m1 m2) as [Hm|Hm|Hm]| |];
    split; intros H; try reflexivity; try discriminate; try lia.
Qed.

Lemma SFltb_finite (m1 m2 : positive) (e1 e2 : Z) :
  SFltb (S754_finite false m1 e1) (S754_finite false m2 e2) = true
  <-> e1 < e2 \/ (e1 = e2 /\ Z.pos m1 < Z.pos m2).
Proof.
  unfold SFltb, SFcompare.
  change (Pos.compare_cont Eq m1 m2) with (Pos.compare m1 m2).
  destruct (Z.compare_spec e1 e2) as [He|He|He];
    [destruct (Pos.compare_spec m1 m2) as [Hm|Hm|Hm]| |];
    split; intros H; try reflexivity; try discriminate; try lia.
Qed.

Lemma bounded_spec (m : positive) (e : Z) :
  bounded prec emax m e = true ->
  fexp (Zdigits2 (Z.pos m) + e) = e /\ e <= emax - prec
  /\ Z.pos m < 2 ^ 53 /\ SpecFloat.emin prec emax <= e.
Proof.
  unfold bounded, canonical_mantissa. intros H.
  apply andb_true_iff in H as [Hc He]. apply Z.eqb_eq in Hc. apply Z.leb_le in He.
  change (Z.pos (digits2_pos m)) with (Zdigits2 (Z.pos m)) in Hc.
  split; [assumption|]. split; [assumption|].
  pose proof (Zdigits2_bounds (Z.pos m) ltac:(lia)) as [_ Dhi].
  assert (Hd : Zdigits2 (Z.pos m) <= 53) by fexp_lia.
  split; [|fexp_lia].
  eapply Z.lt_le_trans; [exact Dhi|]. apply Z.pow_le_mono_r; lia.
Qed.

Lemma Zdigits2_shift (m k : Z) :
  0 < m -> 0 <= k -> Zdigits2 (m * 2 ^ k) = Zdigits2 m + k.
Proof.
  intros Hm Hk. pose proof (Zdigits2_bounds m Hm) as [Dlo Dhi].
  pose proof (Zdigits2_nonneg m) as Hd.
  assert (Hd1 : 1 <= Zdigits2 m).
  { destruct (Z.le_gt_cases 1 (Zdigits2 m)) as [|Hlt]; [assumption|].
    replace (Zdigits2 m) with 0 in Dhi by lia. simpl in Dhi. lia. }
  apply Zdigits2_unique; [|nia].
  replace (Zdigits2 m + k - 1) with (Zdigits2 m - 1 + k) by lia.
  rewrite !Z.pow_add_r by lia.
  assert (0 < 2 ^ k) by (apply Z.pow_pos_nonneg; lia). nia.
Qed.

Lemma rounded_le (mr E1 : Z) (mF : positive) (eF : Z) :
  0 <= mr <= 2 ^ 53 -> bounded prec emax mF eF = true ->
  E1 <= eF -> mr <= Z.pos mF * 2 ^ (eF - E1) ->
  SFleb (rounded false mr E1) (S754_finite false mF eF) = true.
Proof.
  intros Hmr HF HE Hle. apply bounded_spec in HF as (_ & Hmax & HmF & _).
  unfold rounded.
  destruct (Z.eqb_spec mr 0) as [H0|H0]; [reflexivity|].
  destruct (Z.ltb_spec mr (2 ^ 53)) as [Hlt|Hge].
  - destruct (Z.leb_spec E1 (emax - prec)) as [|Hbig]; [|lia].
    apply SFleb_finite. rewrite Z2Pos.id by lia.
    destruct (Z.eq_dec E1 eF) as [->|Hne]; [|lia].
    right. rewrite Z.sub_diag, Z.pow_0_r in Hle. lia.
  - assert (Hmr' : mr = 2 ^ 53) by lia. subst mr.
    assert (HE' : E1 + 1 <= eF).
    { destruct (Z.eq_dec E1 eF) as [->|Hne]; [|lia].
      rewrite Z.sub_diag, Z.pow_0_r in Hle. lia. }
    destruct (Z.leb_spec (E1 + 1) (emax - prec)) as [|Hbig]; [|lia].
    apply SFleb_finite. rewrite Z2Pos.id by lia.
    destruct (Z.eq_dec (E1 + 1) eF) as [Heq|Hne]; [|lia].
    right. split; [assumption|].
    replace (eF - E1) with 1 in Hle by lia. lia.
Qed.

Lemma rounded_ge (mr E1 : Z) (mF : positive) (eF : Z) :
  0 < mr <= 2 ^ 53 -> 
  eF < E1 \/ (eF = E1 /\ Z.pos mF <= mr) ->
  Z.pos mF < 2 ^ 53 ->
  SFleb (S754_finite false mF eF) (rounded false mr E1) = true.
Proof.
  intros Hmr Hle HmF. unfold rounded.
  destruct (Z.eqb_spec mr 0) as [H0|H0]; [lia|].
  destruct (Z.ltb_spec mr (2 ^ 53)) as [Hlt|Hge].
  - destruct (Z.leb_spec E1 (emax - prec)) as [|Hbig]; [|reflexivity].
    apply SFleb_finite. rewrite Z2Pos.id by lia. lia.
  - destruct (Z.leb_spec (E1 + 1) (emax - prec)) as [|Hbig]; [|reflexivity].
    apply SFleb_finite. rewrite Z2Pos.id by lia. lia.
Qed.

(** Rounding does not cross a number of the format: from above ... *)
Lemma binary_round_aux_le (mx ex : Z) (lx : location) (mF : positive) (eF : Z) :
  0 < mx -> ex <= fexp (Zdigits2 mx + ex) ->
  bounded prec emax mF eF = true -> ex <= eF ->
  mx + (if lx is loc_Exact then 0 else 1) <= Z.pos mF * 2 ^ (eF - ex) ->
  SFleb (binary_round_aux prec emax false mx ex lx) (S754_finite false mF eF) = true.
Proof.
  intros Hmx Hfine HF HeF Hle.
  destruct (binary_round_aux_spec false mx ex lx Hmx Hfine)
    as (mr & Hlo & Hhi & Hexact & H53 & ->).
  pose proof (bounded_spec mF eF HF) as (Hcan & _ & HmF & _).
  set (E1 := fexp (Zdigits2 mx + ex)) in *.
  assert (HE : E1 <= eF).
  { rewrite <- Hcan. unfold E1.
    assert (Zdigits2 mx + ex <= Zdigits2 (Z.pos mF) + eF); [|fexp_lia].
    assert (Hd : Zdigits2 mx <= Zdigits2 (Z.pos mF * 2 ^ (eF - ex))).
    { apply Zdigits2_le; [assumption|]. destruct lx; lia. }
    rewrite Zdigits2_shift in Hd by lia. lia. }
  assert (Hpow : 0 < 2 ^ (E1 - ex)) by (apply Z.pow_pos_nonneg; lia).
  assert (Hsplit : Z.pos mF * 2 ^ (eF - ex)
                   = Z.pos mF * 2 ^ (eF - E1) * 2 ^ (E1 - ex)).
  { rewrite <- Z.mul_assoc, <- Z.pow_add_r by lia. do 2 f_equal. lia. }
  pose proof (Z.div_mod mx (2 ^ (E1 - ex)) ltac:(lia)) as Hdm.
  pose proof (Z.mod_pos_bound mx (2 ^ (E1 - ex)) Hpow) as Hmod.
  apply rounded_le; try assumption.
  - split; [|assumption]. 
    assert (0 <= mx / 2 ^ (E1 - ex)) by (apply Z.div_pos; lia). lia.
  - rewrite Hsplit in Hle.
    destruct (Z.eq_dec (mx mod 2 ^ (E1 - ex)) 0) as [Hm0|Hm0].
    + destruct lx as [|c].
      * rewrite Hexact by auto. rewrite Hm0 in Hdm. nia.
      * nia.
    + assert (mx / 2 ^ (E1 - ex) < Z.pos mF * 2 ^ (eF - E1)); [|lia].
      assert (Hx : mx <= Z.pos mF * 2 ^ (eF - E1) * 2 ^ (E1 - ex))
        by (destruct lx; lia).
      nia.
Qed.

(** ... and from below. *)
Lemma binary_round_aux_ge (mx ex : Z) (lx : location) (mF : positive) (eF : Z) :
  0 < mx -> ex <= fexp (Zdigits2 mx + ex) ->
  bounded prec emax mF eF = true -> ex <= eF ->
  Z.pos mF * 2 ^ (eF - ex) <= mx ->
  SFleb (S754_finite false mF eF) (binary_round_aux prec emax false mx ex lx) = true.
Proof.
  intros Hmx Hfine HF HeF Hle.
  destruct (binary_round_aux_spec false mx ex lx Hmx Hfine)
    as (mr & Hlo & Hhi & Hexact & H53 & ->).
  pose proof (bounded_spec mF eF HF) as (Hcan & _ & HmF & Hemin).
  set (E1 := fexp (Zdigits2 mx + ex)) in *.
  assert (HE : eF <= E1).
  { rewrite <- Hcan. unfold E1.
    assert (Zdigits2 (Z.pos mF) + eF <= Zdigits2 mx + ex); [|fexp_lia].
    assert (Hd : Zdigits2 (Z.pos mF * 2 ^ (eF - ex)) <= Zdigits2 mx).
    { apply Zdigits2_le; [|assumption].
      assert (0 < 2 ^ (eF - ex)) by (apply Z.pow_pos_nonneg; lia). nia. }
    rewrite Zdigits2_shift in Hd by lia. lia. }
  assert (Hpow : 0 < 2 ^ (E1 - ex)) by (apply Z.pow_pos_nonneg; lia).
  assert (Hq : 0 < mx / 2 ^ (E1 - ex) /\ (eF = E1 -> Z.pos mF <= mx / 2 ^ (E1 - ex))).
  { split.
    - destruct (Z.eq_dec E1 eF) as [Heq|Hne].
      + apply Z.div_str_pos. split; [assumption|]. rewrite Heq.
        assert (0 < 2 ^ (eF - ex)) by (apply Z.pow_pos_nonneg; lia). nia.
      + assert (HEn : E1 = Zdigits2 mx + ex - 53) by (unfold E1 in *; fexp_lia).
        pose proof (Zdigits2_bounds mx Hmx) as [Dlo _].
        apply Z.div_str_pos. split; [assumption|].
        eapply Z.le_trans; [|exact Dlo]. apply Z.pow_le_mono_r; lia.
    - intros Heq. rewrite <- Heq. apply Z.div_le_lower_bound; [rewrite Heq; lia|].
      rewrite Heq in *. lia. }
  apply rounded_ge; try assumption; lia.
Qed.

(** ** Values at a common scale *)

Lemma val_le_at (e0 m1 e1 m2 e2 : Z) :
  e0 <= e1 -> e0 <= e2 ->
  (val_le m1 e1 m2 e2 <-> m1 * 2 ^ (e1 - e0) <= m2 * 2 ^ (e2 - e0)).
Proof.
  intros H1 H2. unfold val_le.
  set (c := Z.min e1 e2).
  assert (Hc : e0 <= c) by (unfold c; lia).
  assert (Hp : 0 < 2 ^ (c - e0)) by (apply Z.pow_pos_nonneg; lia).
  replace (e1 - e0) with ((e1 - c) + (c - e0)) by lia.
  replace (e2 - e0) with ((e2 - c) + (c - e0)) by lia.
  rewrite !Z.pow_add_r by (unfold c; lia).
  rewrite !Z.mul_assoc. split; intros H; nia.
Qed.

Lemma val_le_digits (m1 e1 m2 e2 : Z) :
  0 < m1 -> val_le m1 e1 m2 e2 ->
  Zdigits2 m1 + e1 <= Zdigits2 m2 + e2.
Proof.
  unfold val_le. intros Hm H.
  set (c := Z.min e1 e2) in *.
  assert (Hp1 : 0 < 2 ^ (e1 - c)) by (apply Z.pow_pos_nonneg; unfold c; lia).
  assert (Hp2 : 0 < 2 ^ (e2 - c)) by (apply Z.pow_pos_nonneg; unfold c; lia).
  assert (Hl : 0 < m1 * 2 ^ (e1 - c)) by (apply Z.mul_pos_pos; assumption).
  assert (Hm2 : 0 < m2).
  { destruct (Z.le_gt_cases m2 0) as [Hneg|]; [|assumption].
    pose proof (Z.mul_nonpos_nonneg m2 (2 ^ (e2 - c)) Hneg ltac:(lia)). lia. }
  pose proof (Zdigits2_le _ _ Hl H) as Hd.
  rewrite !Zdigits2_shift in Hd by (unfold c; lia). lia.
Qed.

Lemma fexp_le (a b : Z) : a <= b -> fexp a <= fexp b.
Proof. intros H. fexp_lia. Qed.

Lemma pos_iter_xO (m d : positive) :
  Z.pos (Pos.iter xO m d) = Z.pos m * 2 ^ Z.pos d.
Proof.
  rewrite Pos2Nat.inj_iter.
  replace (Z.pos d) with (Z.of_nat (Pos.to_nat d)) by apply positive_nat_Z.
  induction (Pos.to_nat d) as [|k IH].
  - simpl. lia.
  - rewrite Nat2Z.inj_succ, Z.pow_succ_r by lia. simpl nat_rect.
    rewrite Pos2Z.inj_xO, IH. lia.
Qed.

Lemma shl_align_spec (m : positive) (e e' : Z) :
  snd (shl_align m e e') = Z.min e e'
  /\ Z.pos (fst (shl_align m e e')) = Z.pos m * 2 ^ (e - Z.min e e').
Proof.
  unfold shl_align. destruct (e' - e) as [|d|d] eqn:Hd; cbn [fst snd].
  - replace (Z.min e e') with e by lia. rewrite Z.sub_diag, Z.pow_0_r. lia.
  - replace (Z.min e e') with e by lia. rewrite Z.sub_diag, Z.pow_0_r. lia.
  - replace (Z.min e e') with e' by lia. split; [reflexivity|].
    rewrite pos_iter_xO. do 2 f_equal. lia.
Qed.

(** [binary_round] first aligns the mantissa on the exponent of the format,
    then rounds it: the bounds of [binary_round_aux] carry over. *)
Lemma binary_round_aligned (s : bool) (m : positive) (e : Z) :
  exists mz ez,
    binary_round prec emax s m e = binary_round_aux prec emax s (Z.pos mz) ez loc_Exact
    /\ ez = Z.min e (fexp (Zdigits2 (Z.pos m) + e))
    /\ Z.pos mz = Z.pos m * 2 ^ (e - ez)
    /\ ez <= fexp (Zdigits2 (Z.pos mz) + ez).
Proof.
  unfold binary_round.
  change (Z.pos (digits2_pos m)) with (Zdigits2 (Z.pos m)).
  pose proof (shl_align_spec m e (fexp (Zdigits2 (Z.pos m) + e))) as [He Hm].
  destruct (shl_align m e (fexp (Zdigits2 (Z.pos m) + e))) as [mz ez].
  cbn [fst snd] in He, Hm. exists mz, ez. subst ez.
  split; [reflexivity|]. split; [reflexivity|]. split; [assumption|].
  rewrite Hm, Zdigits2_shift by lia.
  replace (Zdigits2 (Z.pos m) + (e - Z.min e (fexp (Zdigits2 (Z.pos m) + e)))
           + Z.min e (fexp (Zdigits2 (Z.pos m) + e)))
    with (Zdigits2 (Z.pos m) + e) by lia.
  lia.
Qed.

Lemma binary_round_le (m : positive) (e : Z) (mF : positive) (eF : Z) :
  bounded prec emax mF eF = true ->
  val_le (Z.pos m) e (Z.pos mF) eF ->
  SFleb (binary_round prec emax false m e) (S754_finite false mF eF) = true.
Proof.
  intros HF Hval.
  destruct (binary_round_aligned false m e) as (mz & ez & -> & Hez & Hmz & Hfine).
  pose proof (bounded_spec mF eF HF) as (Hcan & _).
  pose proof (val_le_digits (Z.pos m) e (Z.pos mF) eF ltac:(lia) Hval) as Hd.
  pose proof (fexp_le _ _ Hd) as Hf. rewrite Hcan in Hf.
  assert (HezF : ez <= eF) by lia.
  apply binary_round_aux_le; try assumption; try lia.
  rewrite Z.add_0_r, Hmz.
  apply (val_le_at ez) in Hval; [|lia|lia]. exact Hval.
Qed.

Lemma binary_round_ge (m : positive) (e : Z) (mF : positive) (eF : Z) :
  bounded prec emax mF eF = true -> e <= eF ->
  val_le (Z.pos mF) eF (Z.pos m) e ->
  SFleb (S754_finite false mF eF) (binary_round prec emax false m e) = true.
Proof.
  intros HF He Hval.
  destruct (binary_round_aligned false m e) as (mz & ez & -> & Hez & Hmz & Hfine).
  apply binary_round_aux_ge; [lia | assumption | assumption | lia |].
  rewrite Hmz.
  apply (val_le_at ez) in Hval; [|lia|lia]. exact Hval.
Qed.

Lemma binary_round_aux_sign (s : bool) (mx ex : Z) (lx : location) :
  binary_round_aux prec emax s mx ex lx
  = with_sign s (binary_round_aux prec emax false mx ex lx).
Proof.
  unfold binary_round_aux.
  destruct (shr_fexp prec emax mx ex lx) as [mrs' e'].
  destruct (shr_fexp prec emax _ e' loc_Exact) as [mrs'' e''].
  destruct (shr_m mrs''); try reflexivity.
  destruct (e'' <=? emax - prec); reflexivity.
Qed.

Lemma binary_round_sign (s : bool) (m : positive) (e : Z) :
  binary_round prec emax s m e = with_sign s (binary_round prec emax false m e).
Proof.
  unfold binary_round. destruct (shl_align m e _) as [mz ez].
  apply binary_round_aux_sign.
Qed.

Lemma rounded_cases (s : bool) (mr E1 : Z) :
  rounded s mr E1 = S754_zero s \/ rounded s mr E1 = S754_infinity s
  \/ exists m e, rounded s mr E1 = S754_finite s m e.
Proof.
  unfold rounded.
  destruct (mr =? 0); [left; reflexivity|].
  destruct (mr <? 2 ^ 53).
  - destruct (E1 <=? emax - prec); [right; right; eauto | right; left; reflexivity].
  - destruct (E1 + 1 <=? emax - prec); [right; right; eauto | right; left; reflexivity].
Qed.

Lemma binary_round_aux_cases (s : bool) (mx ex : Z) (lx : location) :
  0 < mx -> ex <= fexp (Zdigits2 mx + ex) ->
  binary_round_aux prec emax s mx ex lx = S754_zero s
  \/ binary_round_aux prec emax s mx ex lx = S754_infinity s
  \/ exists m e, binary_round_aux prec emax s mx ex lx = S754_finite s m e.
Proof.
  intros Hm He.
  destruct (binary_round_aux_spec s mx ex lx Hm He) as (mr & _ & _ & _ & _ & ->).
  apply rounded_cases.
Qed.

Lemma binary_round_cases (s : bool) (m : positive) (e : Z) :
  binary_round prec emax s m e = S754_zero s
  \/ binary_round prec emax s m e = S754_infinity s
  \/ exists m' e', binary_round prec emax s m e = S754_finite s m' e'.
Proof.
  destruct (binary_round_aligned s m e) as (mz & ez & -> & _ & _ & Hfine).
  apply binary_round_aux_cases; [lia | assumption].
Qed.

(** ** Division of normal numbers *)

Lemma new_location_exact (nb_steps k : Z) :
  new_location nb_steps k = loc_Exact <-> k = 0.
Proof.
  unfold new_location, new_location_even, new_location_odd.
  destruct (Z.even nb_steps), (Z.eqb_spec k 0); split; intros H;
    try reflexivity; try assumption; try discriminate; try contradiction.
Qed.

Lemma SFdiv_core_spec (mx my : positive) (ex ey : Z) :
  Zdigits2 (Z.pos mx) = 53 -> Zdigits2 (Z.pos my) = 53 ->
  SpecFloat.emin prec emax < ex - ey ->
  exists q r e',
    SFdiv_core_binary prec emax (Z.pos mx) ex (Z.pos my) ey
    = (q, e', new_location (Z.pos my) r)
    /\ e' = Z.max (ex - ey - 53) (SpecFloat.emin prec emax)
    /\ 0 < q /\ 0 <= r < Z.pos my
    /\ Z.pos mx * 2 ^ (ex - ey - e') = Z.pos my * q + r
    /\ e' <= fexp (Zdigits2 q + e').
Proof.
  intros Hdx Hdy Hdeep.
  pose proof (Zdigits2_bounds (Z.pos mx) ltac:(lia)) as [Xlo Xhi].
  pose proof (Zdigits2_bounds (Z.pos my) ltac:(lia)) as [Ylo Yhi].
  rewrite Hdx in Xlo, Xhi. rewrite Hdy in Ylo, Yhi.
  change (2 ^ (53 - 1)) with (2 ^ 52) in Xlo, Ylo.
  unfold SFdiv_core_binary. rewrite Hdx, Hdy.
  set (e' := Z.min (fexp (53 + ex - (53 + ey))) (ex - ey)).
  set (s := ex - ey - e').
  assert (He' : e' = Z.max (ex - ey - 53) (SpecFloat.emin prec emax))
    by (unfold e'; fexp_lia).
  assert (Hs : 0 < s) by (unfold s; fexp_lia).
  assert (Hm' : match s with
                | 0 => Z.pos mx
                | Z.pos _ => Z.shiftl (Z.pos mx) s
                | Z.neg _ => 0
                end = Z.pos mx * 2 ^ s).
  { destruct s as [|p|p] eqn:Hsp; try lia. apply Z.shiftl_mul_pow2. lia. }
  rewrite Hm'. clear Hm'.
  assert (Hps : 0 < 2 ^ s) by (apply Z.pow_pos_nonneg; lia).
  pose proof (Z.div_mod (Z.pos mx * 2 ^ s) (Z.pos my) ltac:(lia)) as Hdm.
  pose proof (Z.mod_pos_bound (Z.pos mx * 2 ^ s) (Z.pos my) ltac:(lia)) as Hmod.
  unfold Z.div, Z.modulo in Hdm, Hmod.
  destruct (Z.div_eucl (Z.pos mx * 2 ^ s) (Z.pos my)) as [q r].
  assert (Hq : 0 < q).
  { assert (2 ^ s >= 2) by (change 2 with (2 ^ 1) at 2; apply Z.le_ge;
                            apply Z.pow_le_mono_r; lia).
    nia. }
  exists q, r, e'. repeat split; try assumption; try lia.
  (* the quotient is at least as fine as the format *)
  destruct (Z.le_gt_cases (ex - ey - 53) (SpecFloat.emin prec emax)) as [Hu|Hn].
  - replace e' with (SpecFloat.emin prec emax) by lia. fexp_lia.
  - assert (Hs53 : s = 53) by (unfold s; lia).
    assert (H52 : 2 ^ 52 <= q).
    { rewrite Hs53 in Hdm.
      assert (2 ^ 52 * Z.pos my < Z.pos my * (q + 1)); [|nia].
      change (2 ^ 53) with (2 * 2 ^ 52) in *. nia. }
    assert (Hd : 53 <= Zdigits2 q).
    { pose proof (Zdigits2_bounds q Hq) as [_ Dhi].
      destruct (Z.le_gt_cases 53 (Zdigits2 q)) as [|Hlt]; [assumption|].
      assert (2 ^ Zdigits2 q <= 2 ^ 52)
        by (apply Z.pow_le_mono_r; lia). lia. }
    fexp_lia.
Qed.

Lemma SFdiv_cases (mx my : positive) (ex ey : Z) :
  Zdigits2 (Z.pos mx) = 53 -> Zdigits2 (Z.pos my) = 53 ->
  SpecFloat.emin prec emax < ex - ey ->
  SFleb (S754_zero false)
        (SFdiv prec emax (S754_finite false mx ex) (S754_finite false my ey)) = true.
Proof.
  intros Hdx Hdy Hdeep.
  destruct (SFdiv_core_spec mx my ex ey Hdx Hdy Hdeep)
    as (q & r & e' & Hcore & He' & Hq & Hr & Hdm & Hfine).
  unfold SFdiv. rewrite Hcore. cbn [xorb].
  destruct (binary_round_aux_cases false q e' (new_location (Z.pos my) r) Hq Hfine)
    as [->|[->|(m' & e'' & ->)]]; reflexivity.
Qed.

Lemma SFdiv_le (mx my mF : positive) (ex ey eF : Z) :
  Zdigits2 (Z.pos mx) = 53 -> Zdigits2 (Z.pos my) = 53 ->
  bounded prec emax mF eF = true ->
  SpecFloat.emin prec emax < ex - ey -> ex - ey - 53 <= eF ->
  Z.pos mx * 2 ^ Z.max (ex - ey - eF) 0
  <= Z.pos mF * Z.pos my * 2 ^ Z.max (- (ex - ey - eF)) 0 ->
  SFleb (SFdiv prec emax (S754_finite false mx ex) (S754_finite false my ey))
        (S754_finite false mF eF) = true.
Proof.
  intros Hdx Hdy HF Hdeep HeF Hval.
  pose proof (bounded_spec mF eF HF) as (_ & _ & _ & HeminF).
  destruct (SFdiv_core_spec mx my ex ey Hdx Hdy Hdeep)
    as (q & r & e' & Hcore & He' & Hq & Hr & Hdm & Hfine).
  unfold SFdiv. rewrite Hcore. cbn [xorb].
  set (s := ex - ey - e') in *.
  assert (Hs : 0 <= s) by (unfold s; fexp_lia).
  assert (Hps : 0 < 2 ^ s) by (apply Z.pow_pos_nonneg; lia).
  (* the bound, with the number of the format at the scale of the quotient *)
  assert (Hscale : Z.pos mx * 2 ^ s <= Z.pos mF * 2 ^ (eF - e') * Z.pos my).
  { assert (HeF' : e' <= eF) by lia.
    replace (eF - e') with (s - (ex - ey - eF)) by (unfold s; lia).
    destruct (Z.le_gt_cases 0 (ex - ey - eF)) as [Hk|Hk].
    - rewrite Z.max_l in Hval by lia. rewrite (Z.max_r _ 0) in Hval by lia.
      rewrite Z.pow_0_r, Z.mul_1_r in Hval.
      replace s with ((ex - ey - eF) + (s - (ex - ey - eF))) at 1 by lia.
      rewrite Z.pow_add_r by (unfold s; lia).
      assert (0 < 2 ^ (s - (ex - ey - eF)))
        by (apply Z.pow_pos_nonneg; unfold s; lia).
      nia.
    - rewrite Z.max_r in Hval by lia. rewrite (Z.max_l _ 0) in Hval by lia.
      rewrite Z.pow_0_r, Z.mul_1_r in Hval.
      replace (s - (ex - ey - eF)) with (- (ex - ey - eF) + s) by lia.
      rewrite Z.pow_add_r by lia. nia. }
  apply binary_round_aux_le; try assumption; try lia.
  destruct (new_location (Z.pos my) r) eqn:Hloc.
  - apply new_location_exact in Hloc. subst r. nia.
  - assert (r <> 0).
    { intros ->.
      assert (new_location (Z.pos my) 0 = loc_Exact)
        by (apply new_location_exact; reflexivity). congruence. }
    assert (q < Z.pos mF * 2 ^ (eF - e')); [nia | lia].
Qed.

(** ** The logistic function stays in the closed unit interval *)

Lemma SFleb_zero_cases (X : spec_float) :
  SFleb (S754_zero false) X = true ->
  (exists s, X = S754_zero s) \/ X = S754_infinity false
  \/ exists m e, X = S754_finite false m e.
Proof.
  destruct X as [s|[]| |[] m e]; cbn; intros H; try discriminate; eauto.
Qed.

Lemma SFadd_one_ge (X : spec_float) :
  SFleb (S754_zero false) X = true -> SFleb SFone (SFadd prec emax SFone X) = true.
Proof.
  intros H.
  destruct (SFleb_zero_cases X H) as [[s ->]|[->|(m & e & ->)]];
    [reflexivity | reflexivity |].
  unfold SFone, SFadd. cbn [cond_Zopp].
  pose proof (shl_align_spec (Z.to_pos (2 ^ 52)) (-52) (Z.min (-52) e)) as [_ Ha].
  pose proof (shl_align_spec m e (Z.min (-52) e)) as [_ Hb].
  set (a := fst (shl_align (Z.to_pos (2 ^ 52)) (-52) (Z.min (-52) e))) in *.
  set (b := fst (shl_align m e (Z.min (-52) e))) in *.
  change (Z.pos a + Z.pos b) with (Z.pos (a + b)).
  unfold binary_normalize.
  apply binary_round_ge; [reflexivity | lia |].
  apply (val_le_at (Z.min (-52) e)); [lia | lia |].
  rewrite Z.sub_diag, Z.pow_0_r, Z.mul_1_r.
  rewrite Pos2Z.inj_add.
  replace (Z.min (-52) (Z.min (-52) e)) with (Z.min (-52) e) in Ha by lia.
  rewrite Ha. lia.
Qed.

Lemma SFleb_one_cases (T : spec_float) :
  SFleb SFone T = true ->
  T = S754_infinity false
  \/ exists m e, T = S754_finite false m e
       /\ (-52 < e \/ (e = -52 /\ 2 ^ 52 <= Z.pos m)).
Proof.
  destruct T as [s|[]| |[] m e]; try (cbn; discriminate).
  - left; reflexivity.
  - intros H. right. exists m, e. split; [reflexivity|].
    apply SFleb_finite in H. 
    change (Z.pos (Z.to_pos (2 ^ 52))) with (2 ^ 52) in H. lia.
Qed.

Lemma normal_digits (m : positive) (e : Z) :
  bounded prec emax m e = true -> SpecFloat.emin prec emax < e ->
  Zdigits2 (Z.pos m) = 53.
Proof.
  intros Hb He. destruct (bounded_spec m e Hb) as (Hc & _). fexp_lia.
Qed.

Lemma SFdiv_one_range (T : spec_float) :
  valid_binary T = true -> SFleb SFone T = true ->
  SFleb (S754_zero false) (SFdiv prec emax SFone T) = true
  /\ SFleb (SFdiv prec emax SFone T) SFone = true.
Proof.
  intros Hv H.
  destruct (SFleb_one_cases T H) as [->|(m & e & -> & Hge)];
    [split; reflexivity|].
  cbn [valid_binary] in Hv.
  pose proof (bounded_spec m e Hv) as (_ & Hemax & _ & _).
  assert (Hdm : Zdigits2 (Z.pos m) = 53)
    by (apply (normal_digits m e Hv); unfold SpecFloat.emin, prec, emax; lia).
  pose proof (Zdigits2_bounds (Z.pos m) ltac:(lia)) as [Mlo Mhi].
  rewrite Hdm in Mlo, Mhi. change (2 ^ (53 - 1)) with (2 ^ 52) in Mlo.
  assert (Hle : SFleb (SFdiv prec emax SFone (S754_finite false m e)) SFone = true).
  { unfold SFone. apply SFdiv_le; try reflexivity; try assumption.
    - unfold SpecFloat.emin, prec, emax in *. lia.
    - lia.
    - change (Z.pos (Z.to_pos (2 ^ 52))) with (2 ^ 52).
      replace (-52 - e - -52) with (- e) by lia.
      replace (- - e) with e by lia.
      destruct Hge as [Hgt|[-> Hm]].
      + destruct (Z.le_gt_cases 0 e) as [Hpos|Hneg].
        * rewrite Z.max_r by lia. rewrite Z.max_l by lia.
          rewrite Z.pow_0_r, Z.mul_1_r.
          assert (0 < 2 ^ e) by (apply Z.pow_pos_nonneg; lia). nia.
        * rewrite Z.max_l by lia. rewrite Z.max_r by lia.
          rewrite Z.pow_0_r, Z.mul_1_r.
          assert (2 ^ (- e) <= 2 ^ 51) by (apply Z.pow_le_mono_r; lia).
          change (2 ^ 52) with (2 * 2 ^ 51) in *. nia.
      + change (Z.max (- -52) 0) with 52. change (Z.max (-52) 0) with 0.
        rewrite Z.pow_0_r, Z.mul_1_r. nia. }
  split; [|exact Hle].
  apply SFdiv_cases; [reflexivity | assumption |].
  unfold SpecFloat.emin, prec, emax in *. lia.
Qed.

Lemma Prim2SF_one : Prim2SF 1 = SFone.
Proof. reflexivity. Qed.

Lemma Prim2SF_zero : Prim2SF 0 = S754_zero false.
Proof. reflexivity. Qed.

Lemma sig_range (e : float) :
  (0 <=? e)%float = true ->
  (0 <=? 1 / (1 + e))%float = true /\ (1 / (1 + e) <=? 1)%float = true.
Proof.
  intros He. rewrite FloatAxioms.leb_spec, Prim2SF_zero in He.
  rewrite !FloatAxioms.leb_spec, div_spec, Prim2SF_zero, Prim2SF_one.
  apply SFdiv_one_range.
  - apply Prim2SF_valid.
  - rewrite add_spec, Prim2SF_one. apply SFadd_one_ge. exact He.
Qed.

(** ** Integers as floats, and quotients below one *)

Lemma bounded_intro (m : positive) (e : Z) :
  fexp (Zdigits2 (Z.pos m) + e) = e -> e <= emax - prec ->
  bounded prec emax m e = true.
Proof.
  intros Hc He. unfold bounded, canonical_mantissa.
  change (Z.pos (digits2_pos m)) with (Zdigits2 (Z.pos m)).
  apply andb_true_iff. split; [apply Z.eqb_eq; assumption | apply Z.leb_le; assumption].
Qed.

Lemma Zdigits2_small (x : Z) : 0 < x < 2 ^ 53 -> 1 <= Zdigits2 x <= 53.
Proof.
  intros Hx. pose proof (Zdigits2_bounds x ltac:(lia)) as [Dlo Dhi].
  pose proof (Zdigits2_nonneg x) as Hd. split.
  - destruct (Z.le_gt_cases 1 (Zdigits2 x)) as [|Hlt]; [assumption|].
    replace (Zdigits2 x) with 0 in Dhi by lia. simpl in Dhi. lia.
  - destruct (Z.le_gt_cases (Zdigits2 x) 53) as [|Hgt]; [assumption|].
    assert (2 ^ 53 <= 2 ^ (Zdigits2 x - 1)) by (apply Z.pow_le_mono_r; lia). lia.
Qed.

Lemma binary_normalize_int (x : Z) :
  0 < x < 2 ^ 53 ->
  binary_normalize prec emax x 0 false
  = S754_finite false (Z.to_pos (x * 2 ^ (53 - Zdigits2 x))) (Zdigits2 x - 53)
  /\ Zdigits2 (x * 2 ^ (53 - Zdigits2 x)) = 53.
Proof.
  intros Hx. pose proof (Zdigits2_small x Hx) as Hd.
  assert (Hdig : Zdigits2 (x * 2 ^ (53 - Zdigits2 x)) = 53)
    by (rewrite Zdigits2_shift by lia; lia).
  split; [|exact Hdig].
  destruct x as [|p|p]; try lia. unfold binary_normalize.
  destruct (binary_round_aligned false p 0) as (mz & ez & -> & Hez & Hmz & Hfine).
  assert (Hez' : ez = Zdigits2 (Z.pos p) - 53) by fexp_lia.
  assert (Hmz' : Z.pos mz = Z.pos p * 2 ^ (53 - Zdigits2 (Z.pos p)))
    by (rewrite Hmz; f_equal; f_equal; lia).
  rewrite <- Hmz' in Hdig |- *. rewrite <- Hez'.
  destruct (binary_round_aux_spec false (Z.pos mz) ez loc_Exact ltac:(lia) Hfine)
    as (mr & _ & _ & Hexact & _ & ->).
  assert (HE : fexp (Zdigits2 (Z.pos mz) + ez) = ez) by fexp_lia.
  rewrite HE in *. rewrite Z.sub_diag, Z.pow_0_r in Hexact.
  rewrite Z.mod_1_r, Z.div_1_r in Hexact. specialize (Hexact eq_refl eq_refl).
  subst mr. unfold rounded.
  pose proof (Zdigits2_bounds (Z.pos mz) ltac:(lia)) as [_ Mhi]. rewrite Hdig in Mhi.
  destruct (Z.eqb_spec (Z.pos mz) 0); [lia|].
  destruct (Z.ltb_spec (Z.pos mz) (2 ^ 53)); [|lia].
  destruct (Z.leb_spec ez (emax - prec)); [reflexivity | fexp_lia].
Qed.

Lemma Z2F_spec (x : Z) :
  0 < x < 2 ^ 53 ->
  Prim2SF (Z2F x)
  = S754_finite false (Z.to_pos (x * 2 ^ (53 - Zdigits2 x))) (Zdigits2 x - 53).
Proof.
  intros Hx. unfold Z2F.
  destruct (binary_normalize_int x Hx) as [-> Hdig].
  pose proof (Zdigits2_small x Hx) as Hd.
  assert (Hpos : 0 < x * 2 ^ (53 - Zdigits2 x)).
  { apply Z.mul_pos_pos; [lia | apply Z.pow_pos_nonneg; lia]. }
  apply Prim2SF_SF2Prim. cbn [SpecFloat.valid_binary].
  apply bounded_intro; rewrite ?Z2Pos.id by lia; [rewrite Hdig|]; fexp_lia.
Qed.

Lemma below_one (X : spec_float) :
  SFleb (S754_zero false) X = true -> SFleb X SFpred_one = true ->
  SFltb X SFone = true.
Proof.
  intros H0 H1.
  destruct (SFleb_zero_cases X H0) as [[s ->]|[->|(m & e & ->)]].
  - reflexivity.
  - discriminate.
  - apply SFleb_finite in H1. apply SFltb_finite. lia.
Qed.

Lemma coord_range (x W : Z) :
  0 <= x < W -> W < 2 ^ 53 ->
  (0 <=? Z2F x / Z2F W)%float = true /\ (Z2F x / Z2F W <? 1)%float = true.
Proof.
  intros Hx HW.
  rewrite FloatAxioms.leb_spec, FloatAxioms.ltb_spec, div_spec.
  rewrite Prim2SF_zero, Prim2SF_one, (Z2F_spec W) by lia.
  pose proof (Zdigits2_small W ltac:(lia)) as HdW.
  destruct (binary_normalize_int W ltac:(lia)) as [_ HdigW].
  assert (HposW : 0 < W * 2 ^ (53 - Zdigits2 W)).
  { apply Z.mul_pos_pos; [lia | apply Z.pow_pos_nonneg; lia]. }
  destruct (Z.eq_dec x 0) as [->|Hnz].
  - change (Prim2SF (Z2F 0)) with (S754_zero false). split; reflexivity.
  - rewrite (Z2F_spec x) by lia.
    pose proof (Zdigits2_small x ltac:(lia)) as Hdx.
    destruct (binary_normalize_int x ltac:(lia)) as [_ Hdigx].
    assert (Hposx : 0 < x * 2 ^ (53 - Zdigits2 x)).
    { apply Z.mul_pos_pos; [lia | apply Z.pow_pos_nonneg; lia]. }
    assert (Hmono : Zdigits2 x <= Zdigits2 W) by (apply Zdigits2_le; lia).
    assert (H0 : SFleb (S754_zero false)
                   (SF64div (S754_finite false (Z.to_pos (x * 2 ^ (53 - Zdigits2 x)))
                                         (Zdigits2 x - 53))
                            (S754_finite false (Z.to_pos (W * 2 ^ (53 - Zdigits2 W)))
                                         (Zdigits2 W - 53))) = true).
    { apply SFdiv_cases; rewrite ?Z2Pos.id by lia; try assumption.
      unfold SpecFloat.emin, prec, emax. lia. }
    split; [exact H0|].
    apply below_one; [exact H0|].
    apply SFdiv_le; rewrite ?Z2Pos.id by lia; try assumption; try reflexivity.
    + unfold SpecFloat.emin, prec, emax. lia.
    + lia.
    + change (Z.pos (Z.to_pos (2 ^ 53 - 1))) with (2 ^ 53 - 1).
      replace (Zdigits2 x - 53 - (Zdigits2 W - 53) - -53)
        with (Zdigits2 x - Zdigits2 W + 53) by lia.
      rewrite Z.max_l by lia. rewrite Z.max_r by lia.
      rewrite Z.pow_0_r, Z.mul_1_r.
      rewrite <- Z.mul_assoc, <- Z.pow_add_r by lia.
      replace (53 - Zdigits2 x + (Zdigits2 x - Zdigits2 W + 53))
        with (53 + (53 - Zdigits2 W)) by lia.
      rewrite Z.pow_add_r by lia.
      assert (0 < 2 ^ (53 - Zdigits2 W)) by (apply Z.pow_pos_nonneg; lia).
      assert (x * 2 ^ 53 <= (2 ^ 53 - 1) * W) by nia.
      nia.
Qed.

(** ** Products and differences: the noise of a channel *)

Lemma Zdigits2_small_pos (x : Z) : 0 < x -> 1 <= Zdigits2 x.
Proof.
  intros Hx. pose proof (Zdigits2_bounds x Hx) as [_ Dhi].
  pose proof (Zdigits2_nonneg x) as Hd.
  destruct (Z.le_gt_cases 1 (Zdigits2 x)) as [|Hlt]; [assumption|].
  replace (Zdigits2 x) with 0 in Dhi by lia. simpl in Dhi. lia.
Qed.

Lemma Zdigits2_mul (a b : Z) :
  0 < a -> 0 < b -> Zdigits2 a + Zdigits2 b - 1 <= Zdigits2 (a * b).
Proof.
  intros Ha Hb.
  pose proof (Zdigits2_bounds a Ha) as [Alo _].
  pose proof (Zdigits2_bounds b Hb) as [Blo _].
  pose proof (Zdigits2_small_pos a Ha) as Hda.
  pose proof (Zdigits2_small_pos b Hb) as Hdb.
  assert (Hp : 2 ^ (Zdigits2 a - 1 + (Zdigits2 b - 1)) <= a * b).
  { rewrite Z.pow_add_r by lia.
    assert (0 < 2 ^ (Zdigits2 a - 1)) by (apply Z.pow_pos_nonneg; lia).
    assert (0 < 2 ^ (Zdigits2 b - 1)) by (apply Z.pow_pos_nonneg; lia).
    nia. }
  assert (Hd : Zdigits2 (2 ^ (Zdigits2 a - 1 + (Zdigits2 b - 1)))
               = Zdigits2 a + Zdigits2 b - 1).
  { apply Zdigits2_unique; [|apply Z.pow_pos_nonneg; lia].
    replace (Zdigits2 a + Zdigits2 b - 1 - 1)
      with (Zdigits2 a - 1 + (Zdigits2 b - 1)) by lia.
    split; [lia|]. apply Z.pow_lt_mono_r; lia. }
  rewrite <- Hd. apply Zdigits2_le; [apply Z.pow_pos_nonneg; lia | assumption].
Qed.

Lemma SFmul_fine (mx my : positive) (ex ey : Z) :
  bounded prec emax mx ex = true -> bounded prec emax my ey = true ->
  ex + ey <= fexp (Zdigits2 (Z.pos mx * Z.pos my) + (ex + ey)).
Proof.
  intros Hx Hy.
  pose proof (bounded_spec mx ex Hx) as (Hcx & _ & _ & Hminx).
  pose proof (bounded_spec my ey Hy) as (Hcy & _ & _ & Hminy).
  pose proof (Zdigits2_mul (Z.pos mx) (Z.pos my) ltac:(lia) ltac:(lia)) as Hd.
  pose proof (Zdigits2_small_pos (Z.pos mx) ltac:(lia)) as Hdx.
  pose proof (Zdigits2_small_pos (Z.pos my) ltac:(lia)) as Hdy.
  fexp_lia.
Qed.

Lemma SFmul_sign (sx sy : bool) (mx my : positive) (ex ey : Z) :
  SFmul prec emax (S754_finite sx mx ex) (S754_finite sy my ey)
  = with_sign (xorb sx sy)
      (SFmul prec emax (S754_finite false mx ex) (S754_finite false my ey)).
Proof. unfold SFmul. cbn [xorb]. apply binary_round_aux_sign. Qed.

Lemma SFmul_nonneg (mx my : positive) (ex ey : Z) :
  bounded prec emax mx ex = true -> bounded prec emax my ey = true ->
  SFleb (S754_zero false)
        (SFmul prec emax (S754_finite false mx ex) (S754_finite false my ey)) = true.
Proof.
  intros Hx Hy. unfold SFmul. cbn [xorb].
  change (Z.pos (mx * my)) with (Z.pos mx * Z.pos my).
  destruct (binary_round_aux_cases false (Z.pos mx * Z.pos my) (ex + ey) loc_Exact
              ltac:(lia) (SFmul_fine mx my ex ey Hx Hy))
    as [->|[->|(m' & e'' & ->)]]; reflexivity.
Qed.

Lemma SFmul_le (mx my mF : positive) (ex ey eF : Z) :
  bounded prec emax mx ex = true -> bounded prec emax my ey = true ->
  bounded prec emax mF eF = true -> ex + ey <= eF ->
  Z.pos mx * Z.pos my <= Z.pos mF * 2 ^ (eF - (ex + ey)) ->
  SFleb (SFmul prec emax (S754_finite false mx ex) (S754_finite false my ey))
        (S754_finite false mF eF) = true.
Proof.
  intros Hx Hy HF He Hval. unfold SFmul. cbn [xorb].
  change (Z.pos (mx * my)) with (Z.pos mx * Z.pos my).
  apply binary_round_aux_le; try assumption; try lia.
  apply SFmul_fine; assumption.
Qed.

Lemma SFleb_finite_neg (m1 m2 : positive) (e1 e2 : Z) :
  SFleb (S754_finite true m1 e1) (S754_finite true m2 e2)
  = SFleb (S754_finite false m2 e2) (S754_finite false m1 e1).
Proof.
  unfold SFleb, SFcompare. rewrite (Z.compare_antisym e1 e2).
  destruct (e1 ?= e2); cbn [CompOpp]; try reflexivity.
  rewrite (Pos.compare_cont_antisym m1 m2 Eq). cbn [CompOpp].
  destruct (Pos.compare_cont Eq m1 m2); reflexivity.
Qed.

Lemma SFleb_with_sign_true (X : spec_float) (m : positive) (e : Z) :
  SFleb (S754_zero false) X = true -> SFleb X (S754_finite false m e) = true ->
  SFleb (S754_finite true m e) (with_sign true X) = true
  /\ SFltb (with_sign true X) (S754_finite false m e) = true.
Proof.
  intros H0 H1.
  destruct (SFleb_zero_cases X H0) as [[s ->]|[->|(m' & e' & ->)]].
  - split; reflexivity.
  - discriminate.
  - cbn [with_sign]. rewrite SFleb_finite_neg. split; [assumption | reflexivity].
Qed.

Lemma below_one_exponent (m : positive) (e : Z) :
  bounded prec emax m e = true ->
  SFltb (S754_finite false m e) SFone = true -> e <= -53.
Proof.
  intros Hb Hlt. apply SFltb_finite in Hlt.
  change (Z.pos (Z.to_pos (2 ^ 52))) with (2 ^ 52) in Hlt.
  destruct Hlt as [Hlt|[-> Hm]]; [lia|].
  pose proof (normal_digits m (-52) Hb ltac:(unfold SpecFloat.emin, prec, emax; lia)) as Hd.
  pose proof (Zdigits2_bounds (Z.pos m) ltac:(lia)) as [Dlo _].
  rewrite Hd in Dlo. change (2 ^ (53 - 1)) with (2 ^ 52) in Dlo. lia.
Qed.

Lemma SFmul_two_range (R : spec_float) :
  valid_binary R = true ->
  SFleb (S754_zero false) R = true -> SFltb R SFone = true ->
  SFleb (S754_zero false) (SFmul prec emax R SFtwo) = true
  /\ SFleb (SFmul prec emax R SFtwo) SFpred_two = true.
Proof.
  intros Hv H0 H1.
  destruct (SFleb_zero_cases R H0) as [[s ->]|[->|(m & e & ->)]].
  - destruct s; split; reflexivity.
  - discriminate.
  - cbn [SpecFloat.valid_binary] in Hv.
    pose proof (below_one_exponent m e Hv H1) as He.
    pose proof (bounded_spec m e Hv) as (_ & _ & Hm & _).
    unfold SFtwo, SFpred_two. split.
    + apply SFmul_nonneg; [assumption | reflexivity].
    + apply SFmul_le; [assumption | reflexivity | reflexivity | lia |].
      change (Z.pos (Z.to_pos (2 ^ 52))) with (2 ^ 52).
      change (Z.pos (Z.to_pos (2 ^ 53 - 1))) with (2 ^ 53 - 1).
      assert (2 ^ 52 <= 2 ^ (-52 - (e + -51))) by (apply Z.pow_le_mono_r; lia).
      nia.
Qed.

Lemma SFsub_one_range (X : spec_float) :
  valid_binary X = true ->
  SFleb (S754_zero false) X = true -> SFleb X SFpred_two = true ->
  (exists s, SFsub prec emax X SFone = S754_zero s)
  \/ (exists m e, SFsub prec emax X SFone = S754_finite false m e
        /\ SFleb (S754_finite false m e) SFone_minus_ulp = true)
  \/ (exists m e, SFsub prec emax X SFone = S754_finite true m e
        /\ SFleb (S754_finite false m e) SFone = true).
Proof.
  intros Hv H0 H1.
  destruct (SFleb_zero_cases X H0) as [[s ->]|[->|(m & e & ->)]].
  - right. right. do 2 eexists. split; reflexivity.
  - discriminate.
  - cbn [SpecFloat.valid_binary] in Hv.
    pose proof (bounded_spec m e Hv) as (_ & _ & Hm & _).
    unfold SFone at 1 2 3, SFsub. cbn [cond_Zopp].
    pose proof (shl_align_spec (Z.to_pos (2 ^ 52)) (-52) (Z.min e (-52))) as [_ Hb].
    pose proof (shl_align_spec m e (Z.min e (-52))) as [_ Ha].
    set (ez := Z.min e (-52)) in *.
    set (a := fst (shl_align m e ez)) in *.
    set (b := fst (shl_align (Z.to_pos (2 ^ 52)) (-52) ez)) in *.
    replace (Z.min e ez) with ez in Ha by (unfold ez; lia).
    replace (Z.min (-52) ez) with ez in Hb by (unfold ez; lia).
    change (Z.pos (Z.to_pos (2 ^ 52))) with (2 ^ 52) in Hb.
    apply SFleb_finite in H1.
    change (Z.pos (Z.to_pos (2 ^ 53 - 1))) with (2 ^ 53 - 1) in H1.
    assert (Hpe : 0 < 2 ^ (e - ez)) by (apply Z.pow_pos_nonneg; unfold ez; lia).
    assert (Hpb : 0 < 2 ^ (-52 - ez)) by (apply Z.pow_pos_nonneg; unfold ez; lia).
    (* the minuend at the common scale is below two *)
    assert (Hale : Z.pos a <= (2 ^ 53 - 1) * 2 ^ (-52 - ez)).
    { rewrite Ha. destruct H1 as [Hlt|[-> Hm']].
      - assert (Hez : ez = e) by (unfold ez; lia).
        replace (e - ez) with 0 by lia. rewrite Z.pow_0_r, Z.mul_1_r.
        assert (2 ^ 1 <= 2 ^ (-52 - ez)) by (apply Z.pow_le_mono_r; lia).
        change (2 ^ 1) with 2 in *. nia.
      - nia. }
    destruct (Z.pos a - Z.pos b) as [|D|D] eqn:HD.
    + left. eexists. reflexivity.
    + unfold binary_normalize.
      assert (Hle : SFleb (binary_round prec emax false D ez) SFone_minus_ulp = true).
      { apply binary_round_le; [reflexivity|].
        change (Z.pos (Z.to_pos (2 ^ 53 - 2))) with (2 ^ 53 - 2).
        destruct (Z.eq_dec ez (-52)) as [Hez|Hez].
        - apply (val_le_at (-53)); [lia | lia |].
          rewrite Hez in *. change (2 ^ (-52 - -53)) with 2.
          change (2 ^ (-53 - -53)) with 1. change (2 ^ (-52 - -52)) with 1 in *.
          lia.
        - assert (ez <= -53) by (unfold ez in *; lia).
          apply (val_le_at ez); [lia | lia |].
          rewrite Z.sub_diag, Z.pow_0_r, Z.mul_1_r.
          replace (-52 - ez) with (1 + (-53 - ez)) in * by lia.
          rewrite Z.pow_add_r in * by lia. change (2 ^ 1) with 2 in *.
          assert (0 < 2 ^ (-53 - ez)) by (apply Z.pow_pos_nonneg; lia).
          nia. }
      destruct (binary_round_cases false D ez) as [Hz|[Hi|(m' & e' & Hf)]].
      * left. eexists. exact Hz.
      * rewrite Hi in Hle. discriminate.
      * right. left. exists m', e'. rewrite Hf in Hle |- *.
        split; [reflexivity | assumption].
    + unfold binary_normalize. rewrite binary_round_sign.
      assert (Hle : SFleb (binary_round prec emax false D ez)
                      (S754_finite false (Z.to_pos (2 ^ 52)) (-52)) = true).
      { apply binary_round_le; [reflexivity|].
        change (Z.pos (Z.to_pos (2 ^ 52))) with (2 ^ 52).
        apply (val_le_at ez); [lia | unfold ez; lia |].
        rewrite Z.sub_diag, Z.pow_0_r, Z.mul_1_r. lia. }
      destruct (binary_round_cases false D ez) as [Hz|[Hi|(m' & e' & Hf)]].
      * left. rewrite Hz. eexists. reflexivity.
      * rewrite Hi in Hle. discriminate.
      * right. right. exists m', e'. rewrite Hf in Hle |- *.
        split; [reflexivity | assumption].
Qed.

Lemma Prim2SF_noiseRange : Prim2SF noiseRange = S754_finite false SFnoise (-58).
Proof. reflexivity. Qed.

Lemma Prim2SF_opp_noiseRange :
  Prim2SF (- noiseRange) = S754_finite true SFnoise (-58).
Proof. reflexivity. Qed.

Lemma Prim2SF_two : Prim2SF 2 = SFtwo.
Proof. reflexivity. Qed.

Lemma SFmul_noise_range (U : spec_float) :
  valid_binary U = true ->
  (exists s, U = S754_zero s)
  \/ (exists m e, U = S754_finite false m e
        /\ SFleb (S754_finite false m e) SFone_minus_ulp = true)
  \/ (exists m e, U = S754_finite true m e
        /\ SFleb (S754_finite false m e) SFone = true) ->
  SFleb (S754_finite true SFnoise (-58))
        (SFmul prec emax U (S754_finite false SFnoise (-58))) = true
  /\ SFltb (SFmul prec emax U (S754_finite false SFnoise (-58)))
           (S754_finite false SFnoise (-58)) = true.
Proof.
  intros Hv [[s ->]|[(m & e & -> & Hle)|(m & e & -> & Hle)]].
  - destruct s; split; reflexivity.
  - cbn [SpecFloat.valid_binary] in Hv.
    pose proof (bounded_spec m e Hv) as (_ & _ & Hm & _).
    apply SFleb_finite in Hle.
    change (Z.pos (Z.to_pos (2 ^ 53 - 2))) with (2 ^ 53 - 2) in Hle.
    pose proof (SFmul_nonneg m SFnoise e (-58) Hv eq_refl) as H0.
    assert (H1 : SFleb (SFmul prec emax (S754_finite false m e)
                                        (S754_finite false SFnoise (-58)))
                       (S754_finite false (SFnoise - 1) (-58)) = true).
    { apply SFmul_le; [assumption | reflexivity | reflexivity | lia |].
      replace (-58 - (e + -58)) with (- e) by lia.
      change (Z.pos (SFnoise - 1)) with (Z.pos SFnoise - 1).
      assert (Hc : 2 ^ 52 <= Z.pos SFnoise) by (vm_compute; discriminate).
      destruct Hle as [Hlt|[-> Hm']].
      - assert (2 ^ 54 <= 2 ^ (- e)) by (apply Z.pow_le_mono_r; lia).
        change (2 ^ 54) with (2 * 2 ^ 53) in *. nia.
      - change (2 ^ (- -53)) with (2 ^ 53).
        change (2 ^ 53) with (2 * 2 ^ 52) in *. nia. }
    destruct (SFleb_zero_cases _ H0) as [[s Hr]|[Hr|(m' & e' & Hr)]];
      rewrite Hr in H1 |- *.
    + destruct s; split; reflexivity.
    + discriminate.
    + split; [reflexivity|].
      apply SFleb_finite in H1. apply SFltb_finite.
      change (Z.pos (SFnoise - 1)) with (Z.pos SFnoise - 1) in H1. lia.
  - cbn [SpecFloat.valid_binary] in Hv.
    pose proof (bounded_spec m e Hv) as (_ & _ & Hm & _).
    apply SFleb_finite in Hle.
    change (Z.pos (Z.to_pos (2 ^ 52))) with (2 ^ 52) in Hle.
    rewrite (SFmul_sign true false). cbn [xorb].
    apply SFleb_with_sign_true.
    + apply SFmul_nonneg; [assumption | reflexivity].
    + apply SFmul_le; [assumption | reflexivity | reflexivity | lia |].
      replace (-58 - (e + -58)) with (- e) by lia.
      destruct Hle as [Hlt|[-> Hm']].
      * assert (2 ^ 53 <= 2 ^ (- e)) by (apply Z.pow_le_mono_r; lia). nia.
      * change (2 ^ (- -52)) with (2 ^ 52). nia.
Qed.

Lemma noise_range (r : float) :
  (0 <=? r)%float = true -> (r <? 1)%float = true ->
  (- noiseRange <=? (r * 2 - 1) * noiseRange)%float = true
  /\ ((r * 2 - 1) * noiseRange <? noiseRange)%float = true.
Proof.
  intros H0 H1.
  rewrite FloatAxioms.leb_spec, Prim2SF_zero in H0.
  rewrite FloatAxioms.ltb_spec, Prim2SF_one in H1.
  rewrite FloatAxioms.leb_spec, FloatAxioms.ltb_spec, mul_spec.
  rewrite Prim2SF_noiseRange, Prim2SF_opp_noiseRange.
  apply SFmul_noise_range; [apply Prim2SF_valid|].
  rewrite sub_spec, Prim2SF_one.
  destruct (SFmul_two_range (Prim2SF r) (Prim2SF_valid r) H0 H1) as [Ha Hb].
  apply SFsub_one_range.
  - apply Prim2SF_valid.
  - rewrite mul_spec, Prim2SF_two. exact Ha.
  - rewrite mul_spec, Prim2SF_two. exact Hb.
Qed.

(** ** Integer arithmetic in binary64 *)

(** A positive integer below 2^53 is a number of the format, and rounding
    it returns it. *)
Lemma binary_round_aux_exact (mx ex v : Z) :
  0 < v < 2 ^ 53 -> ex <= Zdigits2 v - 53 -> mx = v * 2 ^ (- ex) ->
  binary_round_aux prec emax false mx ex loc_Exact
  = S754_finite false (Z.to_pos (v * 2 ^ (53 - Zdigits2 v))) (Zdigits2 v - 53).
Proof.
  intros Hv Hex Hmx. pose proof (Zdigits2_small v Hv) as Hd.
  assert (Hpos : 0 < mx).
  { rewrite Hmx. apply Z.mul_pos_pos; [lia | apply Z.pow_pos_nonneg; lia]. }
  assert (Hdig : Zdigits2 mx = Zdigits2 v + - ex)
    by (rewrite Hmx; apply Zdigits2_shift; lia).
  assert (HE : fexp (Zdigits2 mx + ex) = Zdigits2 v - 53) by fexp_lia.
  destruct (binary_round_aux_spec false mx ex loc_Exact Hpos ltac:(lia))
    as (mr & _ & _ & Hexact & _ & ->).
  rewrite HE in *.
  assert (Hsplit : mx = v * 2 ^ (53 - Zdigits2 v) * 2 ^ (Zdigits2 v - 53 - ex)).
  { rewrite Hmx, <- Z.mul_assoc, <- Z.pow_add_r by lia. do 2 f_equal. lia. }
  assert (Hp : 0 < 2 ^ (Zdigits2 v - 53 - ex)) by (apply Z.pow_pos_nonneg; lia).
  rewrite Hsplit in Hexact at 1 2.
  rewrite Z.mod_mul, Z.div_mul in Hexact by lia.
  specialize (Hexact eq_refl eq_refl). subst mr.
  destruct (binary_normalize_int v Hv) as [_ H53].
  pose proof (Zdigits2_bounds (v * 2 ^ (53 - Zdigits2 v))) as Hb.
  assert (Hvpos : 0 < v * 2 ^ (53 - Zdigits2 v)).
  { apply Z.mul_pos_pos; [lia | apply Z.pow_pos_nonneg; lia]. }
  specialize (Hb Hvpos). rewrite H53 in Hb.
  unfold rounded.
  destruct (Z.eqb_spec (v * 2 ^ (53 - Zdigits2 v)) 0); [lia|].
  destruct (Z.ltb_spec (v * 2 ^ (53 - Zdigits2 v)) (2 ^ 53)); [|lia].
  destruct (Z.leb_spec (Zdigits2 v - 53) (emax - prec)); [reflexivity | fexp_lia].
Qed.

Lemma Z2F_zero : Z2F 0 = 0%float.
Proof. reflexivity. Qed.

Lemma Z2F_mul (x y : Z) :
  0 <= x < 2 ^ 53 -> 0 <= y < 2 ^ 53 -> x * y < 2 ^ 53 ->
  (Z2F x * Z2F y)%float = Z2F (x * y).
Proof.
  intros Hx Hy Hxy. apply Prim2SF_inj. rewrite mul_spec.
  destruct (Z.eq_dec x 0) as [->|Hx0].
  { rewrite Z.mul_0_l, Z2F_zero, Prim2SF_zero.
    destruct (Z.eq_dec y 0) as [->|Hy0]; [reflexivity|].
    rewrite (Z2F_spec y) by lia. reflexivity. }
  destruct (Z.eq_dec y 0) as [->|Hy0].
  { rewrite Z.mul_0_r, Z2F_zero, Prim2SF_zero, (Z2F_spec x) by lia. reflexivity. }
  assert (Hx53 : 0 < x < 2 ^ 53) by lia. assert (Hy53 : 0 < y < 2 ^ 53) by lia.
  rewrite (Z2F_spec x Hx53), (Z2F_spec y Hy53), (Z2F_spec (x * y)) by nia.
  pose proof (Zdigits2_small x Hx53) as Hdx. pose proof (Zdigits2_small y Hy53) as Hdy.
  pose proof (Zdigits2_mul x y ltac:(lia) ltac:(lia)) as Hdxy.
  assert (Hpx : 0 < x * 2 ^ (53 - Zdigits2 x))
    by (apply Z.mul_pos_pos; [lia | apply Z.pow_pos_nonneg; lia]).
  assert (Hpy : 0 < y * 2 ^ (53 - Zdigits2 y))
    by (apply Z.mul_pos_pos; [lia | apply Z.pow_pos_nonneg; lia]).
  unfold SF64mul, SFmul. cbn [xorb].
  rewrite Pos2Z.inj_mul, !Z2Pos.id by lia.
  apply binary_round_aux_exact; [nia | lia |].
  replace (- (Zdigits2 x - 53 + (Zdigits2 y - 53)))
    with ((53 - Zdigits2 x) + (53 - Zdigits2 y)) by lia.
  rewrite Z.pow_add_r by lia. ring.
Qed.

Lemma Z2F_add (x y : Z) :
  0 <= x -> 0 <= y -> x + y < 2 ^ 53 -> (Z2F x + Z2F y)%float = Z2F (x + y).
Proof.
  intros Hx Hy Hxy. apply Prim2SF_inj. rewrite add_spec.
  destruct (Z.eq_dec x 0) as [->|Hx0].
  { rewrite Z.add_0_l, Z2F_zero, Prim2SF_zero.
    destruct (Z.eq_dec y 0) as [->|Hy0]; [reflexivity|].
    rewrite (Z2F_spec y) by lia. reflexivity. }
  destruct (Z.eq_dec y 0) as [->|Hy0].
  { rewrite Z.add_0_r, Z2F_zero, Prim2SF_zero, (Z2F_spec x) by lia. reflexivity. }
  assert (Hx53 : 0 < x < 2 ^ 53) by lia. assert (Hy53 : 0 < y < 2 ^ 53) by lia.
  rewrite (Z2F_spec x Hx53), (Z2F_spec y Hy53), (Z2F_spec (x + y)) by lia.
  pose proof (Zdigits2_small x Hx53) as Hdx. pose proof (Zdigits2_small y Hy53) as Hdy.
  pose proof (Zdigits2_small (x + y) ltac:(lia)) as Hdxy.
  assert (Hpx : 0 < x * 2 ^ (53 - Zdigits2 x))
    by (apply Z.mul_pos_pos; [lia | apply Z.pow_pos_nonneg; lia]).
  assert (Hpy : 0 < y * 2 ^ (53 - Zdigits2 y))
    by (apply Z.mul_pos_pos; [lia | apply Z.pow_pos_nonneg; lia]).
  unfold SF64add, SFadd. cbn [cond_Zopp].
  set (ez := Z.min (Zdigits2 x - 53) (Zdigits2 y - 53)).
  pose proof (shl_align_spec (Z.to_pos (x * 2 ^ (53 - Zdigits2 x)))
                (Zdigits2 x - 53) ez) as [_ HA].
  pose proof (shl_align_spec (Z.to_pos (y * 2 ^ (53 - Zdigits2 y)))
                (Zdigits2 y - 53) ez) as [_ HB].
  rewrite Z2Pos.id in HA, HB by lia.
  replace (Z.min (Zdigits2 x - 53) ez) with ez in HA by (unfold ez; lia).
  replace (Z.min (Zdigits2 y - 53) ez) with ez in HB by (unfold ez; lia).
  set (a := fst (shl_align _ (Zdigits2 x - 53) ez)) in *.
  set (b := fst (shl_align _ (Zdigits2 y - 53) ez)) in *.
  assert (Ha : Z.pos a = x * 2 ^ (- ez)).
  { rewrite HA, <- Z.mul_assoc, <- Z.pow_add_r by (unfold ez; lia).
    do 2 f_equal. lia. }
  assert (Hb : Z.pos b = y * 2 ^ (- ez)).
  { rewrite HB, <- Z.mul_assoc, <- Z.pow_add_r by (unfold ez; lia).
    do 2 f_equal. lia. }
  change (Z.pos a + Z.pos b) with (Z.pos (a + b)). unfold binary_normalize.
  destruct (binary_round_aligned false (a + b) ez) as (mz & e' & -> & He' & Hmz & _).
  assert (Hsum : Z.pos (a + b) = (x + y) * 2 ^ (- ez))
    by (rewrite Pos2Z.inj_add, Ha, Hb; ring).
  assert (Hdig : Zdigits2 (Z.pos (a + b)) = Zdigits2 (x + y) + - ez)
    by (rewrite Hsum; apply Zdigits2_shift; unfold ez; lia).
  assert (He'' : e' = Z.min ez (Zdigits2 (x + y) - 53)).
  { rewrite He', Hdig. unfold ez in *. fexp_lia. }
  apply binary_round_aux_exact; [lia | lia |].
  rewrite Hmz, Hsum, <- Z.mul_assoc, <- Z.pow_add_r by (unfold ez in *; lia).
  do 2 f_equal. lia.
Qed.

Lemma float_to_Z_Z2F (z : Z) : 0 <= z < 2 ^ 53 -> float_to_Z (Z2F z) = Some z.
Proof.
  intros Hz. unfold float_to_Z. destruct (Z.eq_dec z 0) as [->|Hz0]; [reflexivity|].
  rewrite (Z2F_spec z) by lia. pose proof (Zdigits2_small z ltac:(lia)) as Hd.
  assert (Hp : 0 < z * 2 ^ (53 - Zdigits2 z))
    by (apply Z.mul_pos_pos; [lia | apply Z.pow_pos_nonneg; lia]).
  rewrite Z2Pos.id by lia. cbn [cond_Zopp].
  destruct (Z.leb_spec 0 (Zdigits2 z - 53)) as [He|He].
  - replace (Zdigits2 z - 53) with 0 by lia. replace (53 - Zdigits2 z) with 0 by lia.
    rewrite Z.pow_0_r, !Z.mul_1_r. reflexivity.
  - replace (- (Zdigits2 z - 53)) with (53 - Zdigits2 z) by lia.
    assert (0 < 2 ^ (53 - Zdigits2 z)) by (apply Z.pow_pos_nonneg; lia).
    rewrite Z.mod_mul, Z.div_mul by lia. reflexivity.
Qed.

(** The flat index of a cell, for non-negative integers below 2^53. *)
Lemma flat_index_exact (dz r c : Z) :
  0 <= dz < 2 ^ 53 -> 0 <= r < 2 ^ 53 -> 0 <= c -> dz * r + c < 2 ^ 53 ->
  (Z2F dz * Z2F r + Z2F c)%float = Z2F (dz * r + c).
Proof.
  intros Hd Hr Hc Hlt. rewrite Z2F_mul by nia. apply Z2F_add; nia.
Qed.

Lemma float_to_Z_negative (x : float) (z : Z) :
  (x <? 0)%float = true -> float_to_Z x = Some z -> z < 0.
Proof.
  rewrite FloatAxioms.ltb_spec, Prim2SF_zero. unfold float_to_Z, SFltb.
  destruct (Prim2SF x) as [s|s| |s m e]; cbn [SFcompare]; try discriminate.
  destruct s; [|discriminate]. intros _. cbn [cond_Zopp].
  destruct (0 <=? e) eqn:He.
  - intros H. injection H as <-. apply Z.leb_le in He.
    assert (0 < 2 ^ e) by (apply Z.pow_pos_nonneg; lia). nia.
  - apply Z.leb_gt in He. destruct (Z.eqb_spec (Z.pos m mod 2 ^ (- e)) 0) as [Hm|];
      [|discriminate].
    intros H. injection H as <-.
    assert (Hp : 0 < 2 ^ (- e)) by (apply Z.pow_pos_nonneg; lia).
    pose proof (Z.div_mod (Z.pos m) (2 ^ (- e)) ltac:(lia)) as Hdm.
    rewrite Hm in Hdm. assert (0 < Z.pos m / 2 ^ (- e)) by nia. lia.
Qed.

Lemma float_to_Z_eqb (x : float) (z : Z) :
  0 <= z < 2 ^ 53 -> (x =? Z2F z)%float = true -> float_to_Z x = Some z.
Proof.
  intros Hz. rewrite FloatAxioms.eqb_spec. unfold SFeqb.
  rewrite <- (float_to_Z_Z2F z Hz). unfold float_to_Z.
  destruct (Z.eq_dec z 0) as [->|Hz0].
  - rewrite Z2F_zero, Prim2SF_zero.
    destruct (Prim2SF x) as [s|s| |s m e]; cbn [SFcompare]; try reflexivity;
      try discriminate; destruct s; discriminate.
  - rewrite (Z2F_spec z) by lia.
    destruct (Prim2SF x) as [s|s| |s m e]; cbn [SFcompare]; try discriminate;
      try (destruct s; discriminate).
    destruct s; [discriminate|].
    destruct (Z.compare_spec e (Zdigits2 z - 53)) as [->| |]; try discriminate.
    destruct (Pos.compare_cont Eq m (Z.to_pos (z * 2 ^ (53 - Zdigits2 z)))) eqn:Hc;
      try discriminate.
    apply (Pos.compare_eq m) in Hc. subst m. reflexivity.
Qed.

Lemma Z2F_nonneg (a : Z) : 0 <= a < 2 ^ 53 -> (0 <=? Z2F a)%float = true.
Proof.
  intros Ha. rewrite FloatAxioms.leb_spec, Prim2SF_zero.
  destruct (Z.eq_dec a 0) as [->|Ha0]; [reflexivity|].
  rewrite (Z2F_spec a) by lia. reflexivity.
Qed.

Lemma Z2F_ltb (a b : Z) :
  0 <= a < 2 ^ 53 -> 0 <= b < 2 ^ 53 -> (Z2F a <? Z2F b)%float = (a <? b).
Proof.
  intros Ha Hb. rewrite FloatAxioms.ltb_spec.
  destruct (Z.eq_dec a 0) as [->|Ha0]; destruct (Z.eq_dec b 0) as [->|Hb0].
  - reflexivity.
  - rewrite Z2F_zero, Prim2SF_zero, (Z2F_spec b) by lia.
    destruct (Z.ltb_spec 0 b); [reflexivity | lia].
  - rewrite Z2F_zero, Prim2SF_zero, (Z2F_spec a) by lia.
    destruct (Z.ltb_spec a 0); [lia | reflexivity].
  - rewrite (Z2F_spec a), (Z2F_spec b) by lia.
    pose proof (Zdigits2_small a ltac:(lia)) as Hda.
    pose proof (Zdigits2_small b ltac:(lia)) as Hdb.
    pose proof (Zdigits2_bounds a ltac:(lia)) as [Alo Ahi].
    pose proof (Zdigits2_bounds b ltac:(lia)) as [Blo Bhi].
    assert (Hpa : 0 < 2 ^ (53 - Zdigits2 a)) by (apply Z.pow_pos_nonneg; lia).
    assert (Hpb : 0 < 2 ^ (53 - Zdigits2 b)) by (apply Z.pow_pos_nonneg; lia).
    assert (Hiff : SFltb (S754_finite false (Z.to_pos (a * 2 ^ (53 - Zdigits2 a)))
                                      (Zdigits2 a - 53))
                         (S754_finite false (Z.to_pos (b * 2 ^ (53 - Zdigits2 b)))
                                      (Zdigits2 b - 53)) = true <-> a < b).
    { rewrite SFltb_finite, !Z2Pos.id by nia. split.
      - intros [Hlt|[Heq Hm]].
        + assert (2 ^ Zdigits2 a <= 2 ^ (Zdigits2 b - 1))
            by (apply Z.pow_le_mono_r; lia). lia.
        + replace (Zdigits2 b) with (Zdigits2 a) in * by lia. nia.
      - intros Hlt. pose proof (Zdigits2_le a b ltac:(lia) ltac:(lia)) as Hle.
        destruct (Z.eq_dec (Zdigits2 a) (Zdigits2 b)) as [Heq|Hne]; [|left; lia].
        right. split; [lia|]. rewrite Heq. nia. }
    destruct (Z.ltb_spec a b) as [Hlt|Hge].
    + apply Hiff. exact Hlt.
    + apply not_true_is_false. intros Hs. apply Hiff in Hs. lia.
Qed.

Lemma ltb_leb_false (x y : float) :
  (x <? y)%float = true -> (y <=? x)%float = false.
Proof.
  rewrite FloatAxioms.ltb_spec, FloatAxioms.leb_spec. unfold SFltb, SFleb.
  rewrite (SFcompare_antisym (Prim2SF x) (Prim2SF y)).
  destruct (SFcompare (Prim2SF x) (Prim2SF y)) as [[]|]; cbn; congruence.
Qed.

Lemma eqb_ltb_false (x y : float) :
  (x =? y)%float = true -> (y <? x)%float = false.
Proof.
  rewrite FloatAxioms.eqb_spec, FloatAxioms.ltb_spec. unfold SFeqb, SFltb.
  rewrite (SFcompare_antisym (Prim2SF x) (Prim2SF y)).
  destruct (SFcompare (Prim2SF x) (Prim2SF y)) as [[]|]; cbn; congruence.
Qed.

(** ** get and set *)

(** On non-negative integers below 2^53 the flat index is the integer
    [d * row + col], and a cell inside the buffer is read and written
    there. *)
Lemma get_set_in_range (m : Matrix) (dz r c : Z) (v : float) :
  d m = Int dz -> 0 <= dz < 2 ^ 53 -> 0 <= r < 2 ^ 53 -> 0 <= c ->
  dz * r + c <= Z.of_nat (length (w m)) -> Z.of_nat (length (w m)) < 2 ^ 53 ->
  get m (Z2F r) (Z2F c) = Ok (rd (w m) (Int (dz * r + c)))
  /\ set m (Z2F r) (Z2F c) v = Ok (wset m (Int (dz * r + c)) v).
Proof.
  intros Hd Hdz Hr Hc Hix Hlen. unfold get, set, wset_num, wset, rd_num, wr_num.
  rewrite Hd. cbn [to_float length_of].
  rewrite flat_index_exact by lia.
  rewrite Z2F_nonneg, Z2F_ltb, float_to_Z_Z2F by nia.
  destruct (Z.ltb_spec (Z.of_nat (length (w m))) (dz * r + c)); [lia|].
  split; reflexivity.
Qed.

(** C3. For all numbers [row] and [col], [get] and [set] compute the flat
    index [ix = d * row + col], in the binary64 arithmetic of the source,
    and throw the out-of-bounds error exactly when [ix >= 0] and [ix] is
    strictly greater than the length of the buffer; otherwise [get] returns
    the element read at [ix] and [set] stores at [ix].  In particular a
    negative [ix] and an [ix] equal to the length are not rejected: there
    [get] returns [undefined] and [set] leaves the matrix as it is.  For
    non-negative integers [d], [row] and [col] with [d * row + col] below
    2^53 the flat index is that integer, and the error is thrown exactly
    when it is above the length. *)
Theorem get_set_bounds_check (m : Matrix) (row col : float) (v : float) :
  (get m row col = Throw IndexOutOfBounds <->
   (0 <=? flat_index m row col)%float = true
   /\ (to_float (length_of (w m)) <? flat_index m row col)%float = true)
  /\ (set m row col v = Throw IndexOutOfBounds <->
      (0 <=? flat_index m row col)%float = true
      /\ (to_float (length_of (w m)) <? flat_index m row col)%float = true)
  /\ (get m row col = Throw IndexOutOfBounds \/
      get m row col = Ok (rd_num (w m) (flat_index m row col)))
  /\ (set m row col v = Throw IndexOutOfBounds \/
      set m row col v = Ok (wset_num m (flat_index m row col) v))
  /\ ((flat_index m row col <? 0)%float = true ->
      get m row col = Ok None /\ set m row col v = Ok m)
  /\ (Z.of_nat (length (w m)) < 2 ^ 53 ->
      (flat_index m row col =? to_float (length_of (w m)))%float = true ->
      get m row col = Ok None /\ set m row col v = Ok m)
  /\ (forall dz r c,
        d m = Int dz -> row = Z2F r -> col = Z2F c ->
        0 <= dz < 2 ^ 53 -> 0 <= r < 2 ^ 53 -> 0 <= c -> dz * r + c < 2 ^ 53 ->
        Z.of_nat (length (w m)) < 2 ^ 53 ->
        flat_index m row col = Z2F (dz * r + c)
        /\ (get m row col = Throw IndexOutOfBounds <->
            Z.of_nat (length (w m)) < dz * r + c)
        /\ (set m row col v = Throw IndexOutOfBounds <->
            Z.of_nat (length (w m)) < dz * r + c)).
Proof.
  assert (Hcheck :
    (get m row col = Throw IndexOutOfBounds <->
     (0 <=? flat_index m row col)%float = true
     /\ (to_float (length_of (w m)) <? flat_index m row col)%float = true)
    /\ (set m row col v = Throw IndexOutOfBounds <->
        (0 <=? flat_index m row col)%float = true
        /\ (to_float (length_of (w m)) <? flat_index m row col)%float = true)
    /\ (get m row col = Throw IndexOutOfBounds \/
        get m row col = Ok (rd_num (w m) (flat_index m row col)))
    /\ (set m row col v = Throw IndexOutOfBounds \/
        set m row col v = Ok (wset_num m (flat_index m row col) v))).
  { unfold get, set. fold (flat_index m row col).
    rewrite <- andb_true_iff.
    destruct ((0 <=? flat_index m row col)%float
              && (to_float (length_of (w m)) <? flat_index m row col)%float).
    - repeat split; auto.
    - repeat split; auto; discriminate. }
  destruct Hcheck as (Hget & Hset & Hgv & Hsv).
  assert (Hquiet : forall z,
            float_to_Z (flat_index m row col) = Some z ->
            z < 0 \/ z = Z.of_nat (length (w m)) ->
            rd_num (w m) (flat_index m row col) = None
            /\ wset_num m (flat_index m row col) v = m).
  { intros z Hz Hrange. unfold rd_num, wset_num, wr_num. rewrite Hz.
    destruct m as [n0 d0 w0]. cbn [n d w] in *. destruct Hrange as [Hneg | ->].
    - rewrite rd_negative, wr_negative by assumption. auto.
    - rewrite rd_Int, wr_Int, Nat2Z.id by lia.
      rewrite lookup_ge_None_2, list_insert_ge by lia. auto. }
  split; [exact Hget|]. split; [exact Hset|]. split; [exact Hgv|].
  split; [exact Hsv|]. split; [|split].
  - intros Hneg.
    assert (Hge : (0 <=? flat_index m row col)%float = false)
      by (apply ltb_leb_false; exact Hneg).
    assert (Hvals : rd_num (w m) (flat_index m row col) = None
                    /\ wset_num m (flat_index m row col) v = m).
    { destruct (float_to_Z (flat_index m row col)) as [z|] eqn:Hz.
      - apply (Hquiet z eq_refl). left. eapply float_to_Z_negative; eauto.
      - unfold rd_num, wset_num, wr_num. rewrite Hz. destruct m; auto. }
    destruct Hvals as [Hrd Hwr].
    unfold get, set. fold (flat_index m row col). rewrite Hge, Hrd, Hwr. auto.
  - intros Hlen Heq. cbn [to_float length_of] in Heq.
    assert (Hgt : (to_float (length_of (w m)) <? flat_index m row col)%float = false)
      by (apply eqb_ltb_false; exact Heq).
    destruct (Hquiet (Z.of_nat (length (w m)))) as [Hrd Hwr];
      [apply float_to_Z_eqb; [lia | exact Heq] | auto |].
    unfold get, set. fold (flat_index m row col).
    rewrite Hgt, andb_false_r, Hrd, Hwr. auto.
  - intros dz r c Hd -> -> Hdz Hr Hc Hix Hlen.
    assert (Hflat : flat_index m (Z2F r) (Z2F c) = Z2F (dz * r + c)).
    { unfold flat_index. rewrite Hd. cbn [to_float]. apply flat_index_exact; lia. }
    split; [exact Hflat|].
    rewrite Hget, Hset, Hflat. cbn [to_float length_of].
    rewrite Z2F_nonneg, Z2F_ltb, Z.ltb_lt by nia. tauto.
Qed.

(** C3: [get_set_bounds_check] where the flat index is rounded.  For
    [d = row = 94906267] and [col = -9007199515875288] the exact
    [d * row + col] is 1, above the length 0 of the buffer; the product
    rounds to 9007199515875288, so the flat index of the source is 0, the
    length of the buffer, and nothing is thrown. *)
Lemma get_set_bounds_check_witness :
  flat_index {| n := Int 0; d := Int 94906267; w := [] |}
    (Z2F 94906267) (Z2F (-9007199515875288)) = 0%float
  /\ get {| n := Int 0; d := Int 94906267; w := [] |}
       (Z2F 94906267) (Z2F (-9007199515875288)) = Ok None
  /\ set {| n := Int 0; d := Int 94906267; w := [] |}
       (Z2F 94906267) (Z2F (-9007199515875288)) 1
     = Ok {| n := Int 0; d := Int 94906267; w := [] |}.
Proof.
  split; [vm_compute; reflexivity|].
  destruct (get_set_bounds_check {| n := Int 0; d := Int 94906267; w := [] |}
              (Z2F 94906267) (Z2F (-9007199515875288)) 1%float)
    as (_ & _ & _ & _ & _ & Hlen & _).
  apply Hlen; [cbn; lia | vm_compute; reflexivity].
Defined.

(** ** The Matrix constructor *)

Lemma Float64Array_new_ok {eng : Engine} (k : Z) :
  0 <= k <= max_Float64Array ->
  Float64Array_new (Int k) = Ok (replicate (Z.to_nat k) 0%float).
Proof.
  intros Hk. unfold Float64Array_new.
  destruct (Z.ltb_spec k 0); [lia|].
  destruct (Z.ltb_spec max_Float64Array k); [lia | reflexivity].
Qed.

Lemma Float64Array_new_throws {eng : Engine} (k : Z) :
  k < 0 \/ max_Float64Array < k ->
  Float64Array_new (Int k) = Throw RangeError.
Proof.
  intros Hk. unfold Float64Array_new.
  destruct (Z.ltb_spec k 0); [reflexivity|].
  destruct (Z.ltb_spec max_Float64Array k); [reflexivity | lia].
Qed.

Lemma Float64Array_new_inv {eng : Engine} (k : Z) (buf : list float) :
  Float64Array_new (Int k) = Ok buf ->
  0 <= k <= max_Float64Array /\ buf = replicate (Z.to_nat k) 0%float.
Proof.
  unfold Float64Array_new.
  destruct (Z.ltb_spec k 0); [discriminate|].
  destruct (Z.ltb_spec max_Float64Array k); [discriminate|].
  intros Hok. injection Hok as <-. split; [lia | reflexivity].
Qed.

Lemma Matrix_new_cases {eng : Engine} (n0 d0 : index) :
  (exists buf, Matrix_new n0 d0 = Ok {| n := n0; d := d0; w := buf |})
  \/ Matrix_new n0 d0 = Throw RangeError.
Proof.
  unfold Matrix_new, zeros. destruct (imul n0 d0) as [|z]; simpl.
  - left. eexists. reflexivity.
  - destruct ((z <? 0) || (max_Float64Array <? z));
      [right; reflexivity | left; eexists; reflexivity].
Qed.

Lemma Matrix_new_Int {eng : Engine} (r c : Z) :
  0 <= r * c <= max_Float64Array ->
  Matrix_new (Int r) (Int c)
  = Ok {| n := Int r; d := Int c; w := replicate (Z.to_nat (r * c)) 0%float |}.
Proof.
  intros H. unfold Matrix_new, zeros. cbn [imul isNaN].
  rewrite Float64Array_new_ok by assumption. reflexivity.
Qed.


(** A matrix that was constructed has [cells] elements, and their number
    is one the engine allocates. *)
Lemma Matrix_new_length {eng : Engine} (a b : index) (m : Matrix) :
  Matrix_new a b = Ok m ->
  n m = a /\ d m = b /\ length (w m) = cells a b
  /\ forall z, imul a b = Int z -> 0 <= z <= max_Float64Array.
Proof.
  unfold Matrix_new, zeros, cells. destruct (imul a b) as [|z]; cbn [isNaN].
  - intros Hok. injection Hok as <-. cbn [n d w].
    split; [reflexivity|]. split; [reflexivity|]. split; [reflexivity|].
    discriminate.
  - destruct (Float64Array_new (Int z)) as [buf|e] eqn:Hbuf; [|discriminate].
    apply Float64Array_new_inv in Hbuf as [Hz ->].
    intros Hok. injection Hok as <-. cbn [n d w].
    rewrite length_replicate.
    split; [reflexivity|]. split; [reflexivity|]. split; [reflexivity|].
    intros z' Hz'. injection Hz' as <-. lia.
Qed.

(** The input vector of the forward pass: three numbers, which every
    engine allocates. *)
Lemma Matrix_new_3_1 {eng : Engine} :
  Matrix_new (Int 3) (Int 1)
  = Ok {| n := Int 3; d := Int 1; w := [0; 0; 0]%float |}.
Proof.
  rewrite Matrix_new_Int; [reflexivity|].
  pose proof Float64Array_min. lia.
Qed.

(** The buffer of a number that is a count is the buffer of the count. *)
Lemma float_trunc_integer (x : float) (z : Z) :
  float_to_Z x = Some z -> float_trunc x = Some z.
Proof.
  unfold float_to_Z, float_trunc.
  destruct (Prim2SF x) as [s|s| |s m e]; try discriminate; [auto|].
  destruct (0 <=? e); [auto|].
  destruct (Z.pos m mod 2 ^ (- e) =? 0); [auto | discriminate].
Qed.

Lemma float_trunc_finite (x : float) (z : Z) :
  float_trunc x = Some z -> is_nan x = false.
Proof.
  unfold float_trunc. intros H. apply is_nan_false.
  destruct (Prim2SF x); discriminate.
Qed.

Lemma zeros_num_count {eng : Engine} (r c : Z) :
  0 <= r < 2 ^ 53 -> 0 <= c < 2 ^ 53 -> r * c < 2 ^ 53 ->
  zeros_num (to_float (Int r) * to_float (Int c)) = zeros (imul (Int r) (Int c)).
Proof.
  intros Hr Hc Hrc. cbn [to_float imul]. rewrite Z2F_mul by assumption.
  unfold zeros_num, zeros. cbn [isNaN].
  rewrite (float_trunc_integer _ (r * c)) by (apply float_to_Z_Z2F; nia).
  assert (Hn : is_nan (Z2F (r * c)) = false).
  { apply is_nan_false. destruct (Z.eq_dec (r * c) 0) as [->|Hne]; [discriminate|].
    rewrite Z2F_spec by nia. discriminate. }
  rewrite Hn. reflexivity.
Qed.

(** C7 (as amended). For integers [n] and [d], [new Matrix(n, d)] has a
    buffer of exactly [n * d] elements, all 0.0, when [n * d] is
    non-negative and at most the largest length the engine allocates; when
    [n] or [d] is NaN the buffer is empty; when [n * d] is negative, or
    larger than the engine allocates, the constructor throws a RangeError.
    For numbers [n] and [d] in general, the buffer is [zeros(n * d)]: empty
    for a NaN product, a RangeError for an infinite one, and for a finite
    one as many zeros as the integer part of the product (2 for 2.5) when
    the integer part is non-negative and the engine allocates it, a
    RangeError otherwise; on counts below 2^53 this is the buffer of the
    first part. *)
Theorem Matrix_new_buffer {eng : Engine} (n0 d0 : index) :
  (forall k, imul n0 d0 = Int k -> 0 <= k <= max_Float64Array ->
     exists buf, Matrix_new n0 d0 = Ok {| n := n0; d := d0; w := buf |}
                 /\ length buf = Z.to_nat k
                 /\ Forall (fun x => x = 0%float) buf)
  /\ (imul n0 d0 = iNaN ->
      Matrix_new n0 d0 = Ok {| n := n0; d := d0; w := [] |})
  /\ (forall k, imul n0 d0 = Int k -> k < 0 \/ max_Float64Array < k ->
        Matrix_new n0 d0 = Throw RangeError)
  /\ (forall a b : float,
        (is_nan (a * b) = true -> zeros_num (a * b) = Ok [])
        /\ (forall s, Prim2SF (a * b) = S754_infinity s ->
              zeros_num (a * b) = Throw RangeError)
        /\ (forall z, float_trunc (a * b) = Some z ->
              (0 <= z <= max_Float64Array ->
               zeros_num (a * b) = Ok (replicate (Z.to_nat z) 0%float))
              /\ (z < 0 \/ max_Float64Array < z ->
                  zeros_num (a * b) = Throw RangeError)))
  /\ (forall r c, 0 <= r < 2 ^ 53 -> 0 <= c < 2 ^ 53 -> r * c < 2 ^ 53 ->
        zeros_num (to_float (Int r) * to_float (Int c))
        = zeros (imul (Int r) (Int c))).
Proof.
  split; [|split; [|split; [|split]]].
  - unfold Matrix_new, zeros.
    intros k -> Hk. cbn [isNaN]. rewrite Float64Array_new_ok by assumption.
    exists (replicate (Z.to_nat k) 0%float). split; [reflexivity|].
    split; [apply length_replicate|].
    apply Forall_forall. intros x Hx. apply elem_of_replicate in Hx. tauto.
  - unfold Matrix_new, zeros. intros ->. reflexivity.
  - unfold Matrix_new, zeros.
    intros k -> Hk. cbn [isNaN]. rewrite Float64Array_new_throws by assumption.
    reflexivity.
  - intros a b. unfold zeros_num. split; [|split].
    + intros ->. reflexivity.
    + intros s Hinf.
      assert (Hn : is_nan (a * b) = false)
        by (apply is_nan_false; rewrite Hinf; discriminate).
      rewrite Hn. unfold float_trunc. rewrite Hinf. reflexivity.
    + intros z Hz. rewrite (float_trunc_finite _ _ Hz), Hz. split; intros Hrange.
      * apply Float64Array_new_ok. exact Hrange.
      * apply Float64Array_new_throws. exact Hrange.
  - apply zeros_num_count.
Qed.

(** C7, the claim as stated fails: -1 * 3 is not a valid non-negative
    integer, and [new Matrix(-1, 3)] throws instead of returning a matrix
    with an empty buffer. *)
Lemma Matrix_new_negative_throws :
  imul (Int (-1)) (Int 3) = Int (-3)
  /\ Matrix_new (eng := RefHost.engine) (Int (-1)) (Int 3) = Throw RangeError.
Proof. split; reflexivity. Qed.

(** C7: [Matrix_new_buffer] on [new Matrix(2, 3)], on
    [new Matrix(2^30, 2^30)], which no engine allocates, and on the
    dimensions 0.5 and 5, whose product 2.5 gives a buffer of two zeros. *)
Lemma Matrix_new_buffer_witness :
  (exists buf,
     Matrix_new (eng := RefHost.engine) (Int 2) (Int 3)
     = Ok {| n := Int 2; d := Int 3; w := buf |}
     /\ length buf = 6%nat /\ Forall (fun x => x = 0%float) buf)
  /\ Matrix_new (eng := RefHost.engine) (Int (2 ^ 30)) (Int (2 ^ 30))
     = Throw RangeError
  /\ zeros_num (eng := RefHost.engine) (0.5 * 5) = Ok [0; 0]%float.
Proof.
  split; [|split].
  - destruct (Matrix_new_buffer (eng := RefHost.engine) (Int 2) (Int 3))
      as (Hbuf & _).
    apply (Hbuf 6 eq_refl). cbn. lia.
  - destruct (Matrix_new_buffer (eng := RefHost.engine) (Int (2 ^ 30)) (Int (2 ^ 30)))
      as (_ & _ & Hthrow & _).
    apply (Hthrow (2 ^ 30 * 2 ^ 30) eq_refl). cbn. lia.
  - destruct (Matrix_new_buffer (eng := RefHost.engine) iNaN iNaN)
      as (_ & _ & _ & Hnum & _).
    destruct (Hnum 0.5%float 5%float) as (_ & _ & Hfin).
    destruct (Hfin 2) as [Hok _]; [vm_compute; reflexivity|].
    apply Hok. cbn. lia.
Defined.

(** [zeros] on numbers that are not counts: the buffer of 0.5 * 5 has two
    elements, that of -0.5 none; an infinite, a negative and a too large
    length are refused; infinity * 0 is NaN. *)
Example zeros_num_runs :
  zeros_num (eng := RefHost.engine) (0.5 * 5) = Ok [0; 0]%float
  /\ zeros_num (eng := RefHost.engine) (-0.5 * 1) = Ok []
  /\ zeros_num (eng := RefHost.engine) (infinity * 1) = Throw RangeError
  /\ zeros_num (eng := RefHost.engine) (-1 * 3) = Throw RangeError
  /\ zeros_num (eng := RefHost.engine) (0x1p53 * 1) = Throw RangeError
  /\ zeros_num (eng := RefHost.engine) (infinity * 0) = Ok [].
Proof. repeat split; vm_compute; reflexivity. Qed.

Example Matrix_new_2_3 :
  Matrix_new (eng := RefHost.engine) (Int 2) (Int 3)
  = Ok {| n := Int 2; d := Int 3; w := [0; 0; 0; 0; 0; 0]%float |}.
Proof. reflexivity. Qed.

(** ** Defaults of RandMat *)

Lemma falsy_zero : falsy 0%float = true.
Proof. reflexivity. Qed.

Lemma or_default_idem (x dflt : float) :
  falsy dflt = false \/ dflt = 0%float ->
  or_default (or_default x dflt) dflt = or_default x dflt.
Proof.
  intros Hd. unfold or_default at 2 3. destruct (falsy x) eqn:Hx.
  - unfold or_default. destruct Hd as [-> | ->]; reflexivity.
  - unfold or_default. rewrite Hx. reflexivity.
Qed.

(** C8. [RandMat(rows, columns, mean, standardDeviation)] fills the matrix
    with the standard deviation 0.08 in place of a falsy
    [standardDeviation] (0, -0 or NaN) and with the mean 0 in place of a
    falsy [mean]: a call is the call with the defaults substituted, so a
    caller who passes the standard deviation 0 gets the matrices of the
    standard deviation 0.08. *)
Theorem RandMat_falsy_defaults {eng : Engine} (E : Host) (fuel : nat)
    (rows columns : index)
    (mean standardDeviation : float) :
  RandMat E fuel rows columns mean standardDeviation
  = (do! matrix := lift (Matrix_new rows columns) in
     fillRandn E fuel matrix
       (if falsy mean then 0%float else mean)
       (if falsy standardDeviation then 0.08%float else standardDeviation))
  /\ RandMat E fuel rows columns mean standardDeviation
     = RandMat E fuel rows columns
         (if falsy mean then 0%float else mean)
         (if falsy standardDeviation then 0.08%float else standardDeviation)
  /\ RandMat E fuel rows columns mean 0 = RandMat E fuel rows columns mean 0.08
  /\ falsy 0%float = true /\ falsy (-0)%float = true /\ falsy nan = true
  /\ falsy 0.08%float = false.
Proof.
  split; [reflexivity|]. split; [|split; [reflexivity | repeat split]].
  unfold RandMat.
  change (if falsy mean then 0%float else mean) with (or_default mean 0).
  change (if falsy standardDeviation then 0.08%float else standardDeviation)
    with (or_default standardDeviation 0.08).
  rewrite !or_default_idem; [reflexivity | left; reflexivity | right; reflexivity].
Qed.

(** ** Loops that write a buffer *)

Lemma fold_left_nested {S A B} (g : S -> A -> B -> S) (l1 : list A)
    (l2 : list B) (s : S) :
  fold_left (fun s a => fold_left (fun s b => g s a b) l2 s) l1 s
  = fold_left (fun s p => g s p.1 p.2) (list_prod l1 l2) s.
Proof.
  revert s. induction l1 as [|a l1 IH]; intros s; simpl; [reflexivity|].
  rewrite fold_left_app, <- IH. f_equal.
  clear IH. revert s.
  induction l2 as [|b l2 IH2]; intros s; simpl; [reflexivity | apply IH2].
Qed.

Lemma fold_left_wset {X} (ix : X -> index) (v : X -> float) (l : list X)
    (out : Matrix) :
  fold_left (fun out x => wset out (ix x) (v x)) l out
  = {| n := n out; d := d out;
       w := fold_left (fun b x => wr b (ix x) (v x)) l (w out) |}.
Proof.
  revert out. induction l as [|x l IH]; intros out; simpl.
  - destruct out; reflexivity.
  - rewrite IH. reflexivity.
Qed.

Section Writes.
Context {X A : Type} (ix : X -> Z) (v : X -> A).

Lemma length_writes l b : length (writes ix v l b) = length b.
Proof.
  revert b. induction l as [|x l IH]; intros b; simpl; [reflexivity|].
  unfold writes in *. simpl. rewrite IH. apply length_wr.
Qed.

Lemma writes_miss l b (k : nat) :
  (forall x, x ∈ l -> ix x <> Z.of_nat k) ->
  writes ix v l b !! k = b !! k.
Proof.
  revert b. induction l as [|x l IH]; intros b Hl; [reflexivity|].
  unfold writes in *. simpl. rewrite IH.
  - assert (Hx : ix x <> Z.of_nat k) by (apply Hl; left).
    destruct (Z.ltb_spec (ix x) 0) as [Hneg|Hpos].
    + rewrite wr_negative by assumption. reflexivity.
    + rewrite wr_Int by assumption. apply list_lookup_insert_ne. lia.
  - intros y Hy. apply Hl. right. assumption.
Qed.

Lemma writes_hit l b x :
  NoDup (ix <$> l) -> x ∈ l ->
  0 <= ix x < Z.of_nat (length b) ->
  writes ix v l b !! Z.to_nat (ix x) = Some (v x).
Proof.
  revert b. induction l as [|y l IH]; intros b Hnd Hin Hrange.
  - inversion Hin.
  - rewrite fmap_cons in Hnd. apply NoDup_cons in Hnd as [Hy Hnd].
    unfold writes in *. simpl.
    destruct (decide (ix y = ix x)) as [Heq|Hne].
    + fold (writes ix v l (wr b (Int (ix y)) (v y))).
      rewrite writes_miss.
      * rewrite Heq, wr_Int by lia.
        rewrite list_lookup_insert_eq by lia.
        apply elem_of_cons in Hin as [->|Hin]; [reflexivity|].
        exfalso. apply Hy. rewrite Heq. apply list_elem_of_fmap_2; assumption.
      * intros z Hz Hk. apply Hy. rewrite Heq.
        replace (ix x) with (ix z) by lia.
        apply list_elem_of_fmap_2; assumption.
    + apply elem_of_cons in Hin as [->|Hin]; [congruence|].
      apply IH; [assumption | assumption |].
      rewrite length_wr. assumption.
Qed.
End Writes.

(** The two nested loops of [matrixMul] visit the flat indices
    0, 1, ..., r * p - 1 in order. *)
Lemma list_prod_snoc {A B} (l : list A) (a : A) (k : list B) :
  list_prod (l ++ [a]) k = list_prod l k ++ map (pair a) k.
Proof.
  induction l as [|x l IH]; simpl.
  - apply app_nil_r.
  - rewrite IH. apply app_assoc.
Qed.

Lemma flat_indices (r p : Z) :
  0 <= r -> 0 <= p ->
  (fun q : Z * Z => p * q.1 + q.2) <$> list_prod (seqZ 0 r) (seqZ 0 p)
  = seqZ 0 (r * p).
Proof.
  intros Hr Hp. rewrite <- (Z2Nat.id r Hr). generalize (Z.to_nat r) as k.
  induction k as [|k IH].
  - reflexivity.
  - rewrite seqZ_S, list_prod_snoc, fmap_app, IH.
    replace (Z.of_nat (S k) * p) with (Z.of_nat k * p + p) by lia.
    rewrite seqZ_app by nia. f_equal.
    change (map (pair (0 + Z.of_nat k)) (seqZ 0 p))
      with (pair (0 + Z.of_nat k) <$> seqZ 0 p).
    rewrite <- list_fmap_compose.
    replace (0 + Z.of_nat k * p) with (Z.of_nat k * p + 0) by lia.
    rewrite <- (fmap_add_seqZ (Z.of_nat k * p) 0 p).
    apply list_fmap_ext. intros _ j _. simpl. lia.
Qed.

Lemma elem_of_list_prod_seqZ (r p i j : Z) :
  (i, j) ∈ list_prod (seqZ 0 r) (seqZ 0 p) <-> (0 <= i < r) /\ (0 <= j < p).
Proof.
  rewrite <- list_cprod_list_prod, list_elem_of_cprod, !elem_of_seqZ.
  simpl. lia.
Qed.

(** ** Matrix product *)

Lemma fold_left_fmap_pairs {A} (f g : A -> float) (l : list A) (acc : float) :
  fold_left (fun acc p => (acc + p.1 * p.2)%float) (zip (f <$> l) (g <$> l)) acc
  = fold_left (fun acc k => (acc + f k * g k)%float) l acc.
Proof.
  revert acc. induction l as [|a l IH]; intros acc; simpl; [reflexivity | apply IH].
Qed.

Lemma row_entries (m : Matrix) (r c i : Z) :
  shaped m r c -> 0 <= i < r ->
  row m i = (fun k => ToNumber (rd (w m) (Int (c * i + k)))) <$> seqZ 0 c.
Proof.
  intros (Hr & Hc & Hn & Hd & Hlen) Hi. unfold row. rewrite Hd.
  apply list_eq. intros k. rewrite list_lookup_fmap.
  destruct (decide (Z.of_nat k < c)) as [Hk|Hk].
  - rewrite lookup_take_lt by lia. rewrite lookup_drop.
    rewrite lookup_seqZ_lt by assumption. simpl.
    rewrite rd_Int by nia.
    replace (Z.to_nat (c * i + (0 + Z.of_nat k))) with (Z.to_nat (c * i) + k)%nat by nia.
    destruct (lookup_lt_is_Some_2 (w m) (Z.to_nat (c * i) + k)) as [x Hx]; [nia|].
    rewrite Hx. reflexivity.
  - rewrite lookup_take_ge by lia. rewrite lookup_seqZ_ge by lia. reflexivity.
Qed.

Lemma col_entries (m : Matrix) (r c j : Z) :
  shaped m r c -> 0 <= j < c ->
  col m j = (fun k => ToNumber (rd (w m) (Int (c * k + j)))) <$> seqZ 0 r.
Proof.
  intros Hm Hj. pose proof Hm as (Hr & Hc & Hn & Hd & Hlen).
  unfold col. rewrite Hn. apply list_fmap_ext. intros pos k Hk.
  apply lookup_seqZ in Hk as [-> Hpos].
  rewrite (row_entries m r c) by (assumption || lia).
  rewrite list_lookup_fmap, lookup_seqZ_lt by lia. simpl.
  f_equal. f_equal. f_equal. lia.
Qed.

Lemma dot_loop_dot (m1 m2 : Matrix) (r k p i j : Z) :
  shaped m1 r k -> shaped m2 k p -> 0 <= i < r -> 0 <= j < p ->
  dot_loop m1 m2 i j = dot (row m1 i) (col m2 j).
Proof.
  intros H1 H2 Hi Hj.
  rewrite (row_entries m1 r k), (col_entries m2 k p) by assumption.
  unfold dot. rewrite fold_left_fmap_pairs.
  unfold dot_loop. destruct H1 as (_ & _ & _ & -> & _).
  destruct H2 as (_ & _ & _ & -> & _). reflexivity.
Qed.

Lemma ieqb_true (a b : index) :
  ieqb a b = true <-> exists z, a = Int z /\ b = Int z.
Proof.
  destruct a as [|x], b as [|y]; simpl;
    try (split; [discriminate | intros (z & ? & ?); discriminate]).
  rewrite Z.eqb_eq. split.
  - intros ->. exists y. auto.
  - intros (z & Hx & Hy). congruence.
Qed.

Lemma matrixMul_buffer {eng : Engine} (m1 m2 : Matrix) (r k p : Z) :
  shaped m1 r k -> shaped m2 k p -> r * p <= max_Float64Array ->
  matrixMul m1 m2
  = Ok {| n := Int r; d := Int p;
          w := writes (fun q : Z * Z => p * q.1 + q.2)
                      (fun q => dot_loop m1 m2 q.1 q.2)
                      (list_prod (seqZ 0 r) (seqZ 0 p))
                      (replicate (Z.to_nat (r * p)) 0%float) |}.
Proof.
  intros (Hr & Hk & Hn1 & Hd1 & Hl1) (_ & Hp & Hn2 & Hd2 & Hl2) Hmax.
  unfold matrixMul. rewrite Hd1, Hn2, Hn1, Hd2. simpl ieqb.
  rewrite Z.eqb_refl. simpl negb. cbv iota.
  rewrite Matrix_new_Int by nia. simpl rbind. f_equal.
  etransitivity.
  { apply (fold_left_nested
             (fun out i j => wset out (Int (p * i + j)) (dot_loop m1 m2 i j))). }
  etransitivity.
  { apply (fold_left_wset (fun q : Z * Z => Int (p * q.1 + q.2))
             (fun q => dot_loop m1 m2 q.1 q.2)). }
  reflexivity.
Qed.





Example matrixMul_2x2 :
  matrixMul (eng := RefHost.engine)
    {| n := Int 2; d := Int 2; w := [1; 2; 3; 4]%float |}
    {| n := Int 2; d := Int 2; w := [5; 6; 7; 8]%float |}
  = Ok {| n := Int 2; d := Int 2; w := [19; 22; 43; 50]%float |}.
Proof. reflexivity. Qed.

(** ** Random matrices *)

Section Sampling.
Variable E : Host.
Variable fuel : nat.

Lemma samples_length (mean sd : float) (k : nat) (c c' : nat) (xs : list float) :
  samples E fuel mean sd k c = Ok (xs, c') -> length xs = k.
Proof.
  revert c c' xs. induction k as [|k IH]; intros c c' xs; simpl.
  - unfold ret. intros [= <- _]. reflexivity.
  - unfold bind, ret.
    destruct (generateRandomNormal E fuel mean sd c) as [[x c1]|e]; [|discriminate].
    destruct (samples E fuel mean sd k c1) as [[ys c2]|e] eqn:Hs; [|discriminate].
    intros [= <- _]. simpl. f_equal. eapply IH; eassumption.
Qed.

Lemma fill_loop (n0 d0 : index) (mean sd : float) (suf pre : list float) (c : nat) :
  foldM (fun matrix i =>
           do! x := generateRandomNormal E fuel mean sd in
           ret (wset matrix (Int i) x))
        (seqZ (Z.of_nat (length pre)) (Z.of_nat (length suf)))
        {| n := n0; d := d0; w := pre ++ suf |} c
  = (do! xs := samples E fuel mean sd (length suf) in
     ret {| n := n0; d := d0; w := pre ++ xs |}) c.
Proof.
  revert pre c. induction suf as [|s0 suf IH]; intros pre c.
  - reflexivity.
  - rewrite seqZ_cons by (cbn [length]; lia). cbn [foldM samples length].
    unfold bind at 1 2 4 5. unfold ret at 1 3.
    destruct (generateRandomNormal E fuel mean sd c) as [[x c1]|e]; [|reflexivity].
    unfold wset. cbn [n d w]. rewrite wr_Int by lia. rewrite Nat2Z.id.
    replace (<[length pre:=x]> (pre ++ s0 :: suf)) with ((pre ++ [x]) ++ suf).
    2:{ rewrite insert_app_r_alt by lia. rewrite Nat.sub_diag. simpl.
        rewrite <- app_assoc. reflexivity. }
    replace (Z.succ (Z.of_nat (length pre))) with (Z.of_nat (length (pre ++ [x])))
      by (rewrite length_app; simpl; lia).
    replace (Z.pred (Z.of_nat (S (length suf)))) with (Z.of_nat (length suf)) by lia.
    rewrite IH. unfold bind, ret.
    destruct (samples E fuel mean sd (length suf) c1) as [[xs c2]|e]; [|reflexivity].
    rewrite <- app_assoc. reflexivity.
Qed.

Lemma fillRandn_samples (matrix : Matrix) (mean sd : float) (c : nat) :
  fillRandn E fuel matrix mean sd c
  = (do! xs := samples E fuel mean sd (length (w matrix)) in
     ret {| n := n matrix; d := d matrix; w := xs |}) c.
Proof.
  destruct matrix as [n0 d0 buf]. unfold fillRandn, length_of, upto. cbn [n d w].
  apply (fill_loop n0 d0 mean sd buf [] c).
Qed.

Lemma RandMat_Ok {eng : Engine} (rows columns : index) (mean sd : float)
    (c c' : nat) (m : Matrix) :
  RandMat E fuel rows columns mean sd c = Ok (m, c') ->
  n m = rows /\ d m = columns
  /\ (exists buf, Matrix_new rows columns
                  = Ok {| n := rows; d := columns; w := buf |}
                  /\ length (w m) = length buf)
  /\ samples E fuel (or_default mean 0) (or_default sd 0.08) (length (w m)) c
     = Ok (w m, c').
Proof.
  unfold RandMat. unfold bind at 1, lift.
  destruct (Matrix_new_cases rows columns) as [[buf Hnew] | Hnew];
    rewrite Hnew; [|discriminate].
  rewrite fillRandn_samples. cbn [n d w]. unfold bind, ret.
  destruct (samples E fuel (or_default mean 0) (or_default sd 0.08) (length buf) c)
    as [[xs c2]|e] eqn:Hs; [|discriminate].
  intros [= <- <-]. cbn [n d w]. apply samples_length in Hs as Hlen.
  split; [reflexivity|]. split; [reflexivity|]. split.
  - exists buf. split; [reflexivity | assumption].
  - rewrite Hlen. assumption.
Qed.

Lemma RandMat_empty {eng : Engine} (rows columns : index) (mean sd : float) (c : nat) :
  imul rows columns = iNaN \/ imul rows columns = Int 0 ->
  RandMat E fuel rows columns mean sd c
  = Ok ({| n := rows; d := columns; w := [] |}, c).
Proof.
  intros H. unfold RandMat, bind at 1, lift, Matrix_new, zeros.
  destruct H as [-> | ->]; [reflexivity|]. cbn [isNaN].
  pose proof Float64Array_min as Hthree.
  rewrite Float64Array_new_ok by lia. reflexivity.
Qed.

End Sampling.

(** ** Member names *)

Lemma pretty_N_go_not_letter (c : ascii) (t : string) (x : N) (s : string) :
  (forall k : N, pretty_N_char k <> c) ->
  s <> String c t -> pretty_N_go x s <> String c t.
Proof.
  intros Hc. revert s. induction (N.lt_wf_0 x) as [x _ IH]; intros s Hs.
  assert (x = 0 \/ 0 < x)%N as [->|Hx] by lia.
  - rewrite pretty_N_go_0. assumption.
  - rewrite pretty_N_go_step by assumption. apply IH.
    + apply N.div_lt; [assumption | reflexivity].
    + intros [= Heq _]. apply (Hc _ Heq).
Qed.

Lemma pretty_Z_not_letter (c : ascii) (t : string) (i : Z) :
  (forall k : N, pretty_N_char k <> c) ->
  c <> "0"%char -> c <> "-"%char -> pretty i <> String c t.
Proof.
  intros Hc H0 Hd.
  assert (HN : forall x : N, pretty x <> String c t).
  { intros x. unfold pretty, pretty_N. case_decide.
    - intros [= Heq _]. congruence.
    - apply pretty_N_go_not_letter; [assumption | discriminate]. }
  destruct i as [|q|q]; unfold pretty, pretty_Z.
  - intros [= Heq _]. congruence.
  - apply HN.
  - simpl. intros [= Heq _]. congruence.
Qed.

Lemma layer_key_inj (i j : Z) : layer_key i = layer_key j -> i = j.
Proof.
  unfold layer_key. cbn [String.append]. intros [= H].
  exact (pretty_Z_inj _ _ H).
Qed.

Lemma layer_key_not_w_in (i : Z) : layer_key i <> "w_in".
Proof.
  unfold layer_key. cbn [String.append]. intros [= H]. revert H.
  apply pretty_Z_not_letter; try discriminate.
  intros k. unfold pretty_N_char. repeat case_match; discriminate.
Qed.

Lemma layer_key_not_w_out (i : Z) : layer_key i <> "w_out".
Proof.
  unfold layer_key. cbn [String.append]. intros [= H]. revert H.
  apply pretty_Z_not_letter; try discriminate.
  intros k. unfold pretty_N_char. repeat case_match; discriminate.
Qed.

Example layer_key_12 : layer_key 12 = "w_12".
Proof. reflexivity. Qed.

(** ** createModel *)

Section ModelConstruction.
Variable E : Host.
Variable fuel : nat.

Lemma RandMat_weights {eng : Engine} (rows columns : index) (c c' : nat) (m : Matrix) :
  RandMat E fuel rows columns 0 weightInitRange c = Ok (m, c') ->
  n m = rows /\ d m = columns /\ weights_of E fuel 0.8 m
  /\ length (w m) = cells rows columns
  /\ (forall z, imul rows columns = Int z -> 0 <= z <= max_Float64Array)
  /\ samples E fuel 0 0.8 (cells rows columns) c = Ok (w m, c').
Proof.
  intros H. apply RandMat_Ok in H as (Hn & Hd & (buf & Hnew & Hlen) & Hs).
  apply Matrix_new_length in Hnew as (_ & _ & Hcells & Hmax). cbn [w] in Hcells.
  split; [assumption|]. split; [assumption|]. split; [exists c, c'; exact Hs|].
  split; [congruence|]. split; [exact Hmax|].
  rewrite <- Hcells, <- Hlen. exact Hs.
Qed.

Lemma layers_loop {eng : Engine} (rows columns : index) (l : list Z)
    (model0 model : Model)
    (c c' : nat) :
  NoDup l ->
  foldM (fun (model : Model) layerIndex =>
           do! m := RandMat E fuel rows columns 0 weightInitRange in
           ret (<[layer_key layerIndex := m]> model))
        l model0 c = Ok (model, c') ->
  (forall key, (forall i, i ∈ l -> key <> layer_key i) ->
               model !! key = model0 !! key)
  /\ (forall i, i ∈ l ->
        exists m c1 c2,
          model !! layer_key i = Some m
          /\ RandMat E fuel rows columns 0 weightInitRange c1 = Ok (m, c2))
  /\ ((forall i, i ∈ l -> model0 !! layer_key i = None) ->
      size model = (size model0 + length l)%nat).
Proof.
  revert model0 c. induction l as [|a l IH]; intros model0 c Hnd; cbn [foldM].
  - unfold ret. intros [= <- _]. split; [reflexivity|].
    split; [intros i Hi; inversion Hi | intros _; simpl; lia].
  - apply NoDup_cons in Hnd as [Ha Hnd]. intros H.
    apply bind_Ok in H as (model1 & c1 & Hstep & H).
    apply bind_Ok in Hstep as (m & c2 & Hm & Hret).
    unfold ret in Hret. injection Hret as <- <-.
    destruct (IH _ _ Hnd H) as (Hother & Hlayers & Hsize).
    split; [|split].
    + intros key Hkey. rewrite Hother.
      * apply lookup_insert_ne. intros Heq. apply (Hkey a); [left | auto].
      * intros i Hi. apply Hkey. right. assumption.
    + intros i Hi. apply elem_of_cons in Hi as [-> | Hi].
      * exists m, c, c2. split; [|assumption].
        rewrite Hother; [apply lookup_insert_eq|].
        intros i Hi Heq. apply layer_key_inj in Heq. congruence.
      * apply Hlayers. assumption.
    + intros Hfresh. rewrite Hsize.
      * rewrite map_size_insert_None by (apply Hfresh; left). simpl. lia.
      * intros i Hi. rewrite lookup_insert_ne; [apply Hfresh; right; assumption|].
        intros Heq. apply layer_key_inj in Heq. congruence.
Qed.

Lemma elem_of_upto (a : index) (i : Z) :
  i ∈ upto a <-> exists h, a = Int h /\ 0 <= i < h.
Proof.
  destruct a as [|h]; simpl.
  - split; [intros H; inversion H | intros (h & Hh & _); discriminate].
  - rewrite elem_of_seqZ. split.
    + intros H. exists h. split; [reflexivity | lia].
    + intros (h' & [= <-] & H). lia.
Qed.

Lemma NoDup_upto (a : index) : NoDup (upto a).
Proof. destruct a; simpl; [constructor | apply NoDup_seqZ]. Qed.

Lemma createModel_members {eng : Engine} (config : Config) (c c' : nat)
    (model : Model) :
  createModel E fuel config c = Ok (model, c') ->
  (exists m ca cb, model !! "w_in" = Some m
     /\ RandMat E fuel (input config) (Int 3) 0 weightInitRange ca = Ok (m, cb))
  /\ (exists m ca cb, model !! "w_out" = Some m
        /\ RandMat E fuel (Int 3) (input config) 0 weightInitRange ca = Ok (m, cb))
  /\ (forall i, i ∈ upto (hidden config) ->
        exists m ca cb, model !! layer_key i = Some m
          /\ RandMat E fuel (input config) (input config) 0 weightInitRange ca
             = Ok (m, cb))
  /\ (forall key, key <> "w_in" -> key <> "w_out" ->
        (forall i, i ∈ upto (hidden config) -> key <> layer_key i) ->
        model !! key = None)
  /\ size model = (2 + length (upto (hidden config)))%nat.
Proof.
  intros H. unfold createModel in H.
  apply bind_Ok in H as (w_in & c1 & Hin & H).
  apply bind_Ok in H as (w_out & c2 & Hout & H).
  apply layers_loop in H as (Hother & Hlayers & Hsize); [|apply NoDup_upto].
  assert (Hfresh : forall i : Z,
             (<["w_out":=w_out]> (<["w_in":=w_in]> (∅ : Model)) : Model)
               !! layer_key i = None).
  { intros i. rewrite lookup_insert_ne by (apply not_eq_sym, layer_key_not_w_out).
    rewrite lookup_insert_ne by (apply not_eq_sym, layer_key_not_w_in).
    apply lookup_empty. }
  split; [|split; [|split; [|split]]].
  - exists w_in, c, c1. split; [|assumption].
    rewrite Hother by (intros i _; apply not_eq_sym, layer_key_not_w_in).
    rewrite lookup_insert_ne by discriminate. apply lookup_insert_eq.
  - exists w_out, c1, c2. split; [|assumption].
    rewrite Hother by (intros i _; apply not_eq_sym, layer_key_not_w_out).
    apply lookup_insert_eq.
  - exact Hlayers.
  - intros key Hk1 Hk2 Hk3. rewrite Hother by assumption.
    rewrite lookup_insert_ne, lookup_insert_ne by congruence. apply lookup_empty.
  - rewrite Hsize by (intros i _; apply Hfresh).
    rewrite map_size_insert_None.
    + rewrite map_size_insert_None by apply lookup_empty.
      rewrite map_size_empty. lia.
    + rewrite lookup_insert_ne by discriminate. apply lookup_empty.
Qed.

Lemma samples_return (mean sd : float) (j : nat) (c : nat) :
  sampler_returns E fuel ->
  exists xs c', samples E fuel mean sd j c = Ok (xs, c').
Proof.
  intros Hret. revert c. induction j as [|j IHj]; intros c; simpl.
  - eexists _, _. reflexivity.
  - unfold generateRandomNormal, bind, ret.
    destruct (Hret c) as (g & c2 & ->).
    destruct (IHj c2) as (xs & c3 & ->). eexists _, _. reflexivity.
Qed.

Lemma RandMat_returns {eng : Engine} (rows columns : Z) (c : nat) :
  sampler_returns E fuel -> 0 <= rows * columns <= max_Float64Array ->
  exists m c', RandMat E fuel (Int rows) (Int columns) 0 weightInitRange c
               = Ok (m, c').
Proof.
  intros Hret Hrc. unfold RandMat, bind at 1, lift.
  rewrite Matrix_new_Int by assumption. rewrite fillRandn_samples.
  cbn [n d w]. unfold bind at 1.
  destruct (samples_return (or_default 0 0) (or_default weightInitRange 0.08)
              (length (replicate (Z.to_nat (rows * columns)) 0%float)) c Hret)
    as (xs & c' & ->).
  eexists _, _. reflexivity.
Qed.

Lemma createModel_returns {eng : Engine} (config : Config) (k : Z) (c : nat) :
  input config = Int k -> 0 <= k -> k * 3 <= max_Float64Array ->
  (forall i, i ∈ upto (hidden config) -> k * k <= max_Float64Array) ->
  sampler_returns E fuel ->
  exists model c', createModel E fuel config c = Ok (model, c').
Proof.
  intros Hk Hpos Hmax Hhid Hret. unfold createModel. rewrite Hk.
  unfold bind at 1.
  destruct (RandMat_returns k 3 c Hret) as (w_in & c1 & ->); [lia|].
  unfold bind at 1.
  destruct (RandMat_returns 3 k c1 Hret) as (w_out & c2 & ->); [lia|].
  generalize (<["w_out":=w_out]> (<["w_in":=w_in]> (∅ : Model)) : Model) as model0.
  generalize c2 as c0. revert Hhid.
  induction (upto (hidden config)) as [|a l IH]; intros Hhid c0 model0; cbn [foldM].
  - eexists _, _. reflexivity.
  - unfold bind at 1, bind at 1.
    destruct (RandMat_returns k k c0 Hret) as (m & c3 & ->).
    { split; [nia|]. apply (Hhid a). left. }
    unfold ret at 1. apply IH. intros i Hi. apply (Hhid i). right. exact Hi.
Qed.


End ModelConstruction.

(** ** Activations and the product with a column *)

Lemma activation_loop (f : float -> float) (n0 d0 : index) (buf zs : list float) :
  length zs = length buf ->
  fold_left (fun out i => wset out (Int i) (f (ToNumber (rd buf (Int i)))))
            (upto (length_of buf)) {| n := n0; d := d0; w := zs |}
  = {| n := n0; d := d0; w := f <$> buf |}.
Proof.
  intros Hlen.
  rewrite (fold_left_wset Int (fun i => f (ToNumber (rd buf (Int i))))).
  cbn [n d w]. f_equal. unfold length_of, upto.
  change (fold_left _ (seqZ 0 (Z.of_nat (length buf))) zs)
    with (writes (fun i : Z => i) (fun i => f (ToNumber (rd buf (Int i))))
            (seqZ 0 (Z.of_nat (length buf))) zs).
  apply list_eq. intros k. rewrite list_lookup_fmap.
  destruct (decide (k < length buf)%nat) as [Hk|Hk].
  - rewrite <- (Nat2Z.id k) at 1.
    rewrite (writes_hit (fun i : Z => i) _ _ _ (Z.of_nat k)).
    + rewrite rd_Int, Nat2Z.id by lia.
      destruct (lookup_lt_is_Some_2 buf k Hk) as [x ->]. reflexivity.
    + rewrite list_fmap_id. apply NoDup_seqZ.
    + apply elem_of_seqZ. lia.
    + lia.
  - rewrite (lookup_ge_None_2 buf) by lia.
    apply lookup_ge_None_2. rewrite length_writes. lia.
Qed.

Lemma Matrix_new_shaped {eng : Engine} (m : Matrix) (r c : Z) :
  shaped m r c -> r * c <= max_Float64Array ->
  Matrix_new (n m) (d m)
  = Ok {| n := n m; d := d m; w := replicate (length (w m)) 0%float |}.
Proof.
  intros (Hr & Hc & Hn & Hd & Hlen) Hmax. rewrite Hn, Hd.
  rewrite Matrix_new_Int by nia. do 3 f_equal. lia.
Qed.

Lemma tanh_shaped {eng : Engine} (E : Host) (m : Matrix) (r c : Z) :
  shaped m r c -> r * c <= max_Float64Array ->
  tanh E m = Ok {| n := n m; d := d m; w := Math_tanh E <$> w m |}.
Proof.
  intros Hm Hmax. unfold tanh. rewrite (Matrix_new_shaped m r c Hm Hmax).
  simpl rbind. f_equal. apply activation_loop. apply length_replicate.
Qed.

Lemma sigmoid_shaped {eng : Engine} (E : Host) (m : Matrix) (r c : Z) :
  shaped m r c -> r * c <= max_Float64Array ->
  sigmoid E m = Ok {| n := n m; d := d m; w := sig E <$> w m |}.
Proof.
  intros Hm Hmax. unfold sigmoid. rewrite (Matrix_new_shaped m r c Hm Hmax).
  simpl rbind. f_equal. apply activation_loop. apply length_replicate.
Qed.

Lemma shaped_column (v : list float) : shaped (column v) (Z.of_nat (length v)) 1.
Proof. unfold shaped, column, length_of. simpl. repeat split; lia. Qed.

Lemma col_column (v : list float) : col (column v) 0 = v.
Proof.
  rewrite (col_entries _ _ _ 0 (shaped_column v)) by lia.
  apply list_eq. intros k. rewrite list_lookup_fmap. simpl w.
  destruct (decide (k < length v)%nat) as [Hk|Hk].
  - rewrite lookup_seqZ_lt by lia. simpl. rewrite rd_Int by lia.
    replace (Z.to_nat (1 * (0 + Z.of_nat k) + 0)) with k by lia.
    destruct (lookup_lt_is_Some_2 v k Hk) as [x ->]. reflexivity.
  - rewrite lookup_seqZ_ge by lia. rewrite lookup_ge_None_2 by lia. reflexivity.
Qed.

Lemma matrixMul_column {eng : Engine} (m : Matrix) (r k : Z) (v : list float) :
  shaped m r k -> Z.of_nat (length v) = k -> r <= max_Float64Array ->
  matrixMul m (column v) = Ok (column (mat_vec m v)).
Proof.
  intros Hm Hv Hmax. pose proof (shaped_column v) as Hcol. rewrite Hv in Hcol.
  rewrite (matrixMul_buffer m (column v) r k 1 Hm Hcol) by lia.
  pose proof Hm as (Hr & Hk & Hn & Hd & Hlen).
  unfold column, mat_vec, length_of. rewrite Hn. simpl upto.
  rewrite length_fmap, length_seqZ, Z2Nat.id by assumption.
  do 2 f_equal. apply list_eq. intros pos. rewrite list_lookup_fmap.
  destruct (decide (Z.of_nat pos < r)) as [Hpos|Hpos].
  - rewrite lookup_seqZ_lt by assumption. cbn [fmap option_fmap option_map].
    assert (Hdot : dot (row m (0 + Z.of_nat pos)) v
                   = dot_loop m (column v) (Z.of_nat pos) 0).
    { rewrite (dot_loop_dot m (column v) r k 1 (Z.of_nat pos) 0)
        by (assumption || lia).
      rewrite col_column. reflexivity. }
    rewrite Hdot. fold (column v).
    replace pos with (Z.to_nat (1 * (Z.of_nat pos, 0).1 + (Z.of_nat pos, 0).2)) at 1
      by (simpl; lia).
    apply (writes_hit (fun q : Z * Z => 1 * q.1 + q.2)
             (fun q => dot_loop m (column v) q.1 q.2) _ _ (Z.of_nat pos, 0)).
    + rewrite flat_indices by lia. apply NoDup_seqZ.
    + apply elem_of_list_prod_seqZ. lia.
    + rewrite length_replicate. simpl. lia.
  - rewrite lookup_seqZ_ge by lia. simpl.
    apply lookup_ge_None_2. rewrite length_writes, length_replicate. lia.
Qed.

Lemma length_mat_vec (m : Matrix) (r k : Z) (v : list float) :
  shaped m r k -> Z.of_nat (length (mat_vec m v)) = r.
Proof.
  intros (Hr & _ & Hn & _). unfold mat_vec. rewrite Hn. simpl.
  rewrite length_fmap, length_seqZ. lia.
Qed.

(** ** The forward pass *)

Section Forward.
Context {eng : Engine}.
Variable E : Host.

Lemma column_fmap (f : float -> float) (v : list float) :
  {| n := length_of v; d := Int 1; w := f <$> v |} = column (f <$> v).
Proof. unfold column, length_of. rewrite length_fmap. reflexivity. Qed.

(** One layer of the source: [act(matrixMul(m, out))]. *)
Lemma tanh_layer (m : Matrix) (r k : Z) (v : list float) :
  shaped m r k -> Z.of_nat (length v) = k -> r <= max_Float64Array ->
  (let! h := matrixMul m (column v) in tanh E h)
  = Ok (column (layer (Math_tanh E) m v)).
Proof.
  intros Hm Hv Hmax. rewrite (matrixMul_column m r k v Hm Hv Hmax). simpl rbind.
  rewrite (tanh_shaped E _ _ 1 (shaped_column _))
    by (rewrite (length_mat_vec m r k v Hm); lia).
  cbn [column n d w]. rewrite column_fmap. reflexivity.
Qed.

Lemma sigmoid_layer (m : Matrix) (r k : Z) (v : list float) :
  shaped m r k -> Z.of_nat (length v) = k -> r <= max_Float64Array ->
  (let! h := matrixMul m (column v) in sigmoid E h)
  = Ok (column (layer (sig E) m v)).
Proof.
  intros Hm Hv Hmax. rewrite (matrixMul_column m r k v Hm Hv Hmax). simpl rbind.
  rewrite (sigmoid_shaped E _ _ 1 (shaped_column _))
    by (rewrite (length_mat_vec m r k v Hm); lia).
  cbn [column n d w]. rewrite column_fmap. reflexivity.
Qed.

Lemma length_layer (act : float -> float) (m : Matrix) (r k : Z) (v : list float) :
  shaped m r k -> Z.of_nat (length (layer act m v)) = r.
Proof.
  intros Hm. unfold layer. rewrite length_fmap. apply (length_mat_vec m r k v Hm).
Qed.

Lemma hidden_loop (model : Model) (k : Z) (l : list Z) (hiddens : list Matrix)
    (v : list float) :
  Forall2 (fun i m => model !! layer_key i = Some m /\ shaped m k k) l hiddens ->
  k <= max_Float64Array ->
  Z.of_nat (length v) = k ->
  foldR (fun out i =>
           let! w_i := member model (layer_key i) in
           let! h := matrixMul w_i out in
           tanh E h)
        l (column v)
  = Ok (column (fold_left (fun h w_i => layer (Math_tanh E) w_i h) hiddens v)).
Proof.
  intros H Hmax. revert v.
  induction H as [|i m l hiddens [Hm Hsh] _ IH]; intros v Hv.
  - reflexivity.
  - cbn [foldR fold_left]. unfold member at 1. rewrite Hm. cbn [rbind].
    rewrite (tanh_layer m k k v Hsh Hv Hmax). cbn [rbind].
    apply IH. apply (length_layer _ m k k v Hsh).
Qed.

(** The three stores of the forward pass into its input vector. *)
Lemma input_vector (x y : float) :
  (let! v := set {| n := Int 3; d := Int 1; w := [0; 0; 0]%float |} 0 0 x in
   let! v := set v 1 0 y in
   set v 2 0 1%float)
  = Ok (column [x; y; 1%float]).
Proof. reflexivity. Qed.

Lemma length_hidden_layers (model : Model) (k : Z) (l : list Z)
    (hiddens : list Matrix) (v : list float) :
  Forall2 (fun i m => model !! layer_key i = Some m /\ shaped m k k) l hiddens ->
  Z.of_nat (length v) = k ->
  Z.of_nat (length (fold_left (fun h w_i => layer (Math_tanh E) w_i h) hiddens v))
  = k.
Proof.
  intros H. revert v. induction H as [|i m l hiddens [_ Hsh] _ IH]; intros v Hv.
  - assumption.
  - cbn [fold_left]. apply IH. apply (length_layer _ m k k v Hsh).
Qed.

Lemma forwardNetwork_layers (config : Config) (model : Model) (k : Z)
    (w_in w_out : Matrix) (hiddens : list Matrix) (x y : float) :
  shaped w_in k 3 -> shaped w_out 3 k -> k <= max_Float64Array ->
  model !! "w_in" = Some w_in -> model !! "w_out" = Some w_out ->
  Forall2 (fun i m => model !! layer_key i = Some m /\ shaped m k k)
          (upto (hidden config)) hiddens ->
  forwardNetwork E config model x y
  = Ok (column (forward_layers E w_in hiddens w_out x y)).
Proof.
  intros Hin Hout Hmax Hmin Hmout Hhid. unfold forwardNetwork.
  rewrite Matrix_new_3_1. cbn [rbind].
  pose proof (input_vector x y) as Hvec.
  destruct (set {| n := Int 3; d := Int 1; w := [0; 0; 0]%float |} 0 0 x)
    as [v0|e]; [|discriminate].
  cbn [rbind] in Hvec |- *.
  destruct (set v0 1 0 y) as [v1|e]; [|discriminate].
  cbn [rbind] in Hvec |- *. rewrite Hvec. cbn [rbind].
  unfold member at 1. rewrite Hmin. cbn [rbind].
  pose proof (tanh_layer w_in k 3 [x; y; 1%float] Hin eq_refl Hmax) as Hl.
  destruct (matrixMul w_in (column [x; y; 1%float])) as [h|e]; [|discriminate].
  cbn [rbind] in Hl |- *. rewrite Hl. cbn [rbind].
  rewrite (hidden_loop model k _ hiddens _ Hhid Hmax)
    by (apply (length_layer _ w_in k 3 _ Hin)).
  cbn [rbind]. unfold member. rewrite Hmout. cbn [rbind].
  pose proof Float64Array_min as Hthree.
  apply (sigmoid_layer w_out 3 k); [assumption| |lia].
  apply (length_hidden_layers model k _ hiddens _ Hhid).
  apply (length_layer _ w_in k 3 _ Hin).
Qed.

End Forward.

(** ** The forward pass on a model of createModel *)

Section ForwardOnModel.
Context {eng : Engine}.
Variable E : Host.
Variable fuel : nat.

Lemma RandMat_shaped (r c : Z) (ca cb : nat) (m : Matrix) :
  0 <= r -> 0 <= c ->
  RandMat E fuel (Int r) (Int c) 0 weightInitRange ca = Ok (m, cb) ->
  shaped m r c /\ r * c <= max_Float64Array.
Proof.
  intros Hr Hc H. apply RandMat_weights in H as (Hn & Hd & _ & Hlen & Hmax & _).
  unfold cells in Hlen. cbn [imul] in Hlen, Hmax.
  specialize (Hmax _ eq_refl). unfold shaped.
  repeat split; try assumption; lia.
Qed.

Lemma Forall2_exists {A B} (P : A -> B -> Prop) (l : list A) :
  (forall a, a ∈ l -> exists b, P a b) -> exists bs, Forall2 P l bs.
Proof.
  induction l as [|a l IH]; intros H.
  - exists []. constructor.
  - destruct (H a) as [b Hb]; [left|].
    destruct IH as [bs Hbs]; [intros a' Ha'; apply H; right; assumption|].
    exists (b :: bs). constructor; assumption.
Qed.

Lemma createModel_shaped (config : Config) (k : Z) (c c' : nat) (model : Model) :
  input config = Int k -> 0 <= k ->
  createModel E fuel config c = Ok (model, c') ->
  exists w_in w_out hiddens,
    model !! "w_in" = Some w_in /\ shaped w_in k 3
    /\ model !! "w_out" = Some w_out /\ shaped w_out 3 k
    /\ Forall2 (fun i m => model !! layer_key i = Some m /\ shaped m k k)
               (upto (hidden config)) hiddens
    /\ k <= max_Float64Array.
Proof.
  intros Hk Hpos H.
  apply createModel_members in H as (Hin & Hout & Hlayers & _ & _).
  rewrite Hk in Hin, Hout, Hlayers.
  destruct Hin as (w_in & ca & cb & Hin & Hin_r).
  destruct Hout as (w_out & ca' & cb' & Hout & Hout_r).
  apply RandMat_shaped in Hin_r as [Hin_r Hin_max]; [|lia..].
  apply RandMat_shaped in Hout_r as [Hout_r _]; [|lia..].
  destruct (Forall2_exists
              (fun i m => model !! layer_key i = Some m /\ shaped m k k)
              (upto (hidden config))) as [hiddens Hh].
  { intros i Hi. destruct (Hlayers i Hi) as (m & ca0 & cb0 & Hm & Hr).
    exists m. split; [assumption|]. eapply RandMat_shaped; eauto. }
  exists w_in, w_out, hiddens.
  split; [assumption|]. split; [assumption|]. split; [assumption|].
  split; [assumption|]. split; [assumption|]. lia.
Qed.

(** C1 (as amended). For a config whose [input] is a non-negative integer
    and a model returned by [createModel(config)], the forward pass on any
    [x], [y] returns a matrix of shape (3, 1) whose three values are the
    output layer [sigmoid(w_out . out)] of the vector obtained from the
    augmented vector (x, y, 1.0) by [tanh(w_in . v)] and then
    [tanh(w_i . out)] for i = 0 .. hidden-1 in that order; each value is
    [1 / (1 + exp(-z))] evaluated in binary64 for the corresponding dot
    product [z], and lies in the closed interval [0, 1] whenever
    [Math.exp(-z)] is a non-negative number (that is, not NaN). *)
Theorem forwardNetwork_spec (config : Config) (k : Z) (c c' : nat) (model : Model) :
  input config = Int k -> 0 <= k ->
  createModel E fuel config c = Ok (model, c') ->
  exists w_in w_out hiddens,
    model !! "w_in" = Some w_in /\ model !! "w_out" = Some w_out
    /\ Forall2 (fun i m => model !! layer_key i = Some m)
               (upto (hidden config)) hiddens
    /\ forall x y,
         exists out,
           forwardNetwork E config model x y = Ok out
           /\ n out = Int 3 /\ d out = Int 1 /\ length (w out) = 3%nat
           /\ w out = forward_layers E w_in hiddens w_out x y
           /\ Forall (fun a => exists z,
                         a = (1 / (1 + Math_exp E (- z)))%float
                         /\ ((0 <=? Math_exp E (- z))%float = true ->
                             (0 <=? a)%float = true /\ (a <=? 1)%float = true))
                     (w out).
Proof.
  intros Hk Hpos H.
  destruct (createModel_shaped config k c c' model Hk Hpos H)
    as (w_in & w_out & hiddens & Hin & Hsin & Hout & Hsout & Hhid & Hmax).
  exists w_in, w_out, hiddens. split; [assumption|]. split; [assumption|]. split.
  { eapply Forall2_impl; [exact Hhid|]. intros i m [Hm _]. exact Hm. }
  intros x y. eexists. split.
  { apply (forwardNetwork_layers E config model k w_in w_out hiddens x y);
      assumption. }
  assert (Hlen : Z.of_nat (length (forward_layers E w_in hiddens w_out x y)) = 3).
  { apply (length_layer _ w_out 3 k _ Hsout). }
  cbn [column n d w]. unfold length_of. rewrite Hlen.
  split; [reflexivity|]. split; [reflexivity|]. split; [lia|].
  split; [reflexivity|].
  unfold forward_layers, layer. apply Forall_fmap, Forall_forall.
  intros z _. exists z. split; [reflexivity|].
  intros He. exact (sig_range _ He).
Qed.

Lemma dot_nil_l (v : list float) : dot [] v = 0%float.
Proof. reflexivity. Qed.

Lemma createModel_input_zero (config : Config) (c : nat) :
  input config = Int 0 ->
  exists model, createModel E fuel config c = Ok (model, c).
Proof.
  intros Hk. unfold createModel. rewrite Hk.
  unfold bind at 1. rewrite RandMat_empty by (right; reflexivity).
  unfold bind at 1. rewrite RandMat_empty by (right; reflexivity).
  generalize (<["w_out":={| n := Int 3; d := Int 0; w := [] |}]>
                (<["w_in":={| n := Int 0; d := Int 3; w := [] |}]> (∅ : Model))
              : Model) as model0.
  induction (upto (hidden config)) as [|a l IH]; intros model0; cbn [foldM].
  - eexists. reflexivity.
  - unfold bind at 1, bind at 1. rewrite RandMat_empty by (right; reflexivity).
    unfold ret at 1. apply IH.
Qed.

(** C10. For a config with [input = 0], [createModel] returns a model (and
    draws no random number), and on every model it returns the forward pass
    gives, for every [x] and [y], the (3, 1) matrix whose three entries are
    exactly 0.5: each dot product of the output layer is empty, hence 0, and
    [sig(0) = 1 / (1 + exp(-0)) = 0.5], since [Math.exp(-0)] is 1. *)
Theorem forwardNetwork_input_zero (config : Config) :
  input config = Int 0 ->
  Math_exp E (- 0)%float = 1%float ->
  (forall c, exists model, createModel E fuel config c = Ok (model, c))
  /\ (forall c c' model x y,
        createModel E fuel config c = Ok (model, c') ->
        forwardNetwork E config model x y
        = Ok {| n := Int 3; d := Int 1; w := [0.5; 0.5; 0.5]%float |}).
Proof.
  intros Hk Hexp. split.
  - intros c. apply createModel_input_zero. assumption.
  - intros c c' model x y H.
    destruct (createModel_shaped config 0 c c' model Hk (Z.le_refl 0) H)
      as (w_in & w_out & hiddens & Hin & Hsin & Hout & Hsout & Hhid & Hmax).
    rewrite (forwardNetwork_layers E config model 0 w_in w_out hiddens x y)
      by assumption.
    unfold forward_layers, layer at 1, mat_vec at 1.
    destruct Hsout as (_ & _ & Hn & Hd & _). rewrite Hn.
    unfold row. rewrite Hd. cbn [upto Z.to_nat take]. 
    change (seqZ 0 3) with [0; 1; 2]. cbn [fmap list_fmap].
    rewrite !dot_nil_l. unfold sig. rewrite Hexp. reflexivity.
Qed.

End ForwardOnModel.

(** C1, the claim as stated fails: on the model that [createModel] returns
    for [wide_config] when every draw is 0.55, the forward pass at
    (0.5, 0.5) returns exactly 1.0 three times, which is not strictly
    below 1. *)
Lemma forwardNetwork_saturates :
  exists model c',
    createModel (eng := RefHost.engine) (RefHost.host [0.55%float]) 10
      wide_config 0%nat = Ok (model, c')
    /\ forwardNetwork (eng := RefHost.engine) (RefHost.host [0.55%float])
         wide_config model 0.5 0.5
       = Ok {| n := Int 3; d := Int 1; w := [1; 1; 1]%float |}
    /\ (1 <? 1)%float = false.
Proof.
  eexists _, _. split; [vm_compute; reflexivity|].
  split; vm_compute; reflexivity.
Qed.

Example sig_saturates :
  sig small_host 40 = 1%float /\ sig small_host (-750) = 0%float.
Proof. split; vm_compute; reflexivity. Qed.

(** ** Determinism of the forward pass *)

(** C9. The forward pass reads the host only through [Math.tanh] and
    [Math.exp], and the config only through [hidden]: two runs on the same
    model, [x] and [y] return the same result whatever [Math.random]
    returns in each of them and however many numbers were drawn before;
    a run draws no random number. *)
Theorem forwardNetwork_deterministic {eng : Engine} (E1 E2 : Host)
    (config1 config2 : Config)
    (model : Model) (x y : float) :
  Math_tanh E1 = Math_tanh E2 -> Math_exp E1 = Math_exp E2 ->
  hidden config1 = hidden config2 ->
  forwardNetwork E1 config1 model x y = forwardNetwork E2 config2 model x y
  /\ forall c1 c2 out,
       lift (forwardNetwork E1 config1 model x y) c1 = Ok (out, c2) ->
       c2 = c1 /\ forall c, lift (forwardNetwork E2 config2 model x y) c = Ok (out, c).
Proof.
  intros Htanh Hexp Hhid.
  assert (Heq : forwardNetwork E1 config1 model x y
                = forwardNetwork E2 config2 model x y).
  { unfold forwardNetwork, tanh, sigmoid, sig. rewrite Htanh, Hexp, Hhid.
    reflexivity. }
  split; [exact Heq|]. intros c1 c2 out. rewrite <- Heq. unfold lift.
  destruct (forwardNetwork E1 config1 model x y) as [o|e]; [|discriminate].
  intros [= -> ->]. split; reflexivity.
Qed.

(** ** Colours *)

Lemma clamp_nan (v : float) : is_nan v = true -> clamp v = nan.
Proof.
  intros Hv. unfold clamp, Math_max. rewrite Hv. reflexivity.
Qed.

Lemma clamp_range (v : float) :
  is_nan v = false ->
  (0 <=? clamp v)%float = true /\ (clamp v <=? 255)%float = true.
Proof.
  intros Hv. unfold clamp, Math_max.
  change (is_nan 0) with false. rewrite Hv. cbn [orb].
  destruct (0 <? v)%float eqn:Hpos.
  - unfold Math_min. change (is_nan 255) with false. rewrite Hv. cbn [orb].
    destruct (255 <? v)%float eqn:Hbig; [split; reflexivity|].
    destruct (v <? 255)%float eqn:Hsmall.
    + split; apply ltb_leb; assumption.
    + change (get_sign 255) with false. cbv iota. split.
      * apply ltb_leb; assumption.
      * apply not_ltb_leb; [reflexivity | assumption | assumption].
  - destruct (v <? 0)%float; [split; reflexivity|].
    change (get_sign 0) with false. cbv iota. split; reflexivity.
Qed.

Section Colours.
Variable E : Host.

(** C2 (as amended). When the forward pass returns, [getColorAt] draws three
    random numbers, one per channel in the order r, g, b, adds the noise
    [(Math.random() * 2 - 1) * 0.03] of its own draw to each of the three
    activations before multiplying by that channel's maximum ([maxR],
    [maxG], [maxB]), and clamps each product: a product that is not NaN is
    clamped into [0, 255], whatever the noise made of the activation, and a
    NaN product (a NaN maximum, a NaN activation) gives a NaN channel.  The
    alpha component is exactly 255.  When the forward pass throws,
    [getColorAt] throws the same error.  The noise of a draw [r] with
    [0 <= r < 1], as [Math.random] returns, lies in [-0.03, 0.03). *)
Theorem getColorAt_spec {eng : Engine} (config : Config) (model : Model)
    (x y : float) (c : nat) :
  (forall out,
     forwardNetwork E config model x y = Ok out ->
     getColorAt E config model x y c
     = Ok ([clamp ((ToNumber (rd (w out) (Int 0)) + noise_at E c) * maxR config);
            clamp ((ToNumber (rd (w out) (Int 1)) + noise_at E (S c)) * maxG config);
            clamp ((ToNumber (rd (w out) (Int 2)) + noise_at E (S (S c))) * maxB config);
            255]%float,
           S (S (S c))))
  /\ (forall e,
        forwardNetwork E config model x y = Throw e ->
        getColorAt E config model x y c = Throw e)
  /\ (forall v, is_nan v = false ->
        (0 <=? clamp v)%float = true /\ (clamp v <=? 255)%float = true)
  /\ (forall v, is_nan v = true -> clamp v = nan)
  /\ (forall k,
        (0 <=? Math_random E k)%float = true ->
        (Math_random E k <? 1)%float = true ->
        (- noiseRange <=? noise_at E k)%float = true
        /\ (noise_at E k <? noiseRange)%float = true).
Proof.
  split; [|split; [|split; [|split]]].
  - intros out H. unfold getColorAt, lift, bind at 1. rewrite H. reflexivity.
  - intros e H. unfold getColorAt, lift, bind at 1. rewrite H. reflexivity.
  - apply clamp_range.
  - apply clamp_nan.
  - intros k H0 H1. exact (noise_range _ H0 H1).
Qed.

End Colours.

(** ** The image *)

Lemma foldM_app {S A} (f : S -> A -> M S) (l1 l2 : list A) (s : S) (c : nat) :
  foldM f (l1 ++ l2) s c = bind (foldM f l1 s) (foldM f l2) c.
Proof.
  revert s c. induction l1 as [|a l1 IH]; intros s c; cbn [foldM app].
  - reflexivity.
  - unfold bind. destruct (f s a c) as [[s1 c1]|e]; [|reflexivity].
    rewrite IH. reflexivity.
Qed.

Lemma foldM_nested {S A B} (g : S -> A -> B -> M S) (l1 : list A) (l2 : list B)
    (s : S) (c : nat) :
  foldM (fun s a => foldM (fun s b => g s a b) l2 s) l1 s c
  = foldM (fun s p => g s p.1 p.2) (list_prod l1 l2) s c.
Proof.
  revert s c. induction l1 as [|a l1 IH]; intros s c; cbn [foldM list_prod].
  - reflexivity.
  - rewrite foldM_app. unfold bind.
    assert (Hrow : forall s0 c0,
               foldM (fun s b => g s a b) l2 s0 c0
               = foldM (fun s p => g s p.1 p.2) (map (pair a) l2) s0 c0).
    { clear IH. induction l2 as [|b l2 IH2]; intros s0 c0; cbn [foldM map].
      - reflexivity.
      - unfold bind. cbn [fst snd].
        destruct (g s0 a b c0) as [[s1 c1]|e]; [apply IH2 | reflexivity]. }
    rewrite Hrow.
    destruct (foldM (fun s p => g s p.1 p.2) (map (pair a) l2) s c)
      as [[s1 c1]|e]; [apply IH | reflexivity].
Qed.

Lemma lookup_list_prod_seqZ (H W : Z) (pos : nat) (p : Z * Z) :
  0 <= H -> 0 <= W ->
  list_prod (seqZ 0 H) (seqZ 0 W) !! pos = Some p ->
  Z.of_nat pos = W * p.1 + p.2.
Proof.
  intros HH HW Hp.
  assert (Hf : ((fun q : Z * Z => W * q.1 + q.2) <$> list_prod (seqZ 0 H) (seqZ 0 W))
               !! pos = Some (W * p.1 + p.2))
    by (rewrite list_lookup_fmap, Hp; reflexivity).
  rewrite flat_indices in Hf by assumption.
  apply lookup_seqZ in Hf. lia.
Qed.

Section Image.
Context {eng : Engine}.
Variable E : Host.
Variable config : Config.
Variable model : Model.
Variables W H : Z.

Hypothesis getColorAt_returns :
  forall x y k, exists rgba,
    getColorAt E config model x y k = Ok (rgba, S (S (S k))).

Lemma image_loop (cur : Z * Z -> nat) (l : list (Z * Z)) (pixels : list Z) (c : nat) :
  (forall pos p, l !! pos = Some p -> cur p = (c + 3 * pos)%nat) ->
  foldM (fun pixels p =>
           do! rgba := getColorAt E config model
                         (Z2F p.2 / Z2F W)%float (Z2F p.1 / Z2F H)%float in
           ret (pixel_stores pixels (p.1 * W + p.2) rgba))
        l pixels c
  = Ok (fold_left
          (fun px p => pixel_stores px (p.1 * W + p.2)
                         (colour_at E config model W H p (cur p)))
          l pixels,
        (c + 3 * length l)%nat).
Proof.
  revert pixels c. induction l as [|p l IH]; intros pixels c Hcur; cbn [foldM fold_left].
  - unfold ret. simpl. do 2 f_equal. lia.
  - unfold bind at 1, bind at 1.
    assert (Hp : cur p = c) by (rewrite (Hcur 0%nat p eq_refl); lia).
    unfold colour_at at 2. rewrite Hp.
    destruct (getColorAt_returns (Z2F p.2 / Z2F W)%float (Z2F p.1 / Z2F H)%float c)
      as [rgba ->].
    unfold ret at 1. rewrite (IH _ (S (S (S c)))).
    + do 2 f_equal. simpl. lia.
    + intros pos q Hq. rewrite (Hcur (S pos) q Hq). lia.
Qed.

End Image.

Lemma fold_left_ext {S A} (f g : S -> A -> S) (l : list A) (s : S) :
  (forall s a, f s a = g s a) -> fold_left f l s = fold_left g l s.
Proof.
  intros H. revert s. induction l as [|a l IH]; intros s; simpl; [reflexivity|].
  rewrite H. apply IH.
Qed.

Lemma pixel_stores_writes (pixels : list Z) (q : Z) (rgba : list float) :
  pixel_stores pixels q rgba
  = fold_left (fun px j => wr px (Int (q * 4 + j)) (ToUint8Clamp (rd rgba (Int j))))
              [0; 1; 2; 3] pixels.
Proof. unfold pixel_stores. cbn [fold_left iadd]. rewrite Z.add_0_r. reflexivity. Qed.

Lemma list_prod_fmap_l {A B C D} (f : A -> B) (g : B -> C -> D) (l : list A)
    (js : list C) :
  (fun q : A * C => g (f q.1) q.2) <$> list_prod l js
  = (fun q : B * C => g q.1 q.2) <$> list_prod (f <$> l) js.
Proof.
  induction l as [|a l IH]; cbn [list_prod fmap list_fmap]; [reflexivity|].
  rewrite !fmap_app. f_equal; [|exact IH].
  change (map (pair a) js) with (pair a <$> js).
  change (map (pair (f a)) js) with (pair (f a) <$> js).
  rewrite <- !list_fmap_compose. reflexivity.
Qed.

(** The three nested loops of the image (rows, columns, channels) store at
    the byte offsets 0, 1, ..., H * W * 4 - 1 in order. *)
Lemma byte_offsets (H W : Z) :
  0 <= H -> 0 <= W ->
  (fun q : Z * Z * Z => (q.1.1 * W + q.1.2) * 4 + q.2)
    <$> list_prod (list_prod (seqZ 0 H) (seqZ 0 W)) (seqZ 0 4)
  = seqZ 0 (H * W * 4).
Proof.
  intros HH HW.
  rewrite <- (flat_indices (H * W) 4) by nia.
  rewrite <- (flat_indices H W) by assumption.
  rewrite <- (list_prod_fmap_l (fun p : Z * Z => W * p.1 + p.2)
                (fun a j => 4 * a + j)).
  apply list_fmap_ext. intros _ q _. simpl. lia.
Qed.

Lemma image_stores (colf : Z * Z -> list float) (H W : Z) (pixels final : list Z) :
  0 <= H -> 0 <= W -> Z.of_nat (length pixels) = W * H * 4 ->
  final = fold_left (fun px p => pixel_stores px (p.1 * W + p.2) (colf p))
                    (list_prod (seqZ 0 H) (seqZ 0 W)) pixels ->
  length final = length pixels
  /\ forall x y j, 0 <= x < W -> 0 <= y < H -> 0 <= j < 4 ->
       rd final (Int ((y * W + x) * 4 + j))
       = Some (ToUint8Clamp (rd (colf (y, x)) (Int j))).
Proof.
  intros HH HW Hlen ->.
  assert (Hfinal :
            fold_left (fun px p => pixel_stores px (p.1 * W + p.2) (colf p))
                      (list_prod (seqZ 0 H) (seqZ 0 W)) pixels
            = writes (fun q : Z * Z * Z => (q.1.1 * W + q.1.2) * 4 + q.2)
                     (fun q => ToUint8Clamp (rd (colf q.1) (Int q.2)))
                     (list_prod (list_prod (seqZ 0 H) (seqZ 0 W)) (seqZ 0 4))
                     pixels).
  { unfold writes.
    rewrite <- (fold_left_nested
                  (fun px (p : Z * Z) j =>
                     wr px (Int ((p.1 * W + p.2) * 4 + j))
                        (ToUint8Clamp (rd (colf p) (Int j))))).
    apply fold_left_ext. intros px p. apply pixel_stores_writes. }
  rewrite Hfinal. split; [apply length_writes|].
  intros x y j Hx Hy Hj. rewrite rd_Int by nia.
  apply (writes_hit (fun q : Z * Z * Z => (q.1.1 * W + q.1.2) * 4 + q.2)
           (fun q => ToUint8Clamp (rd (colf q.1) (Int q.2))) _ _ (y, x, j)).
  - rewrite byte_offsets by assumption. apply NoDup_seqZ.
  - rewrite <- list_cprod_list_prod. apply list_elem_of_cprod. split.
    + apply elem_of_list_prod_seqZ. split; assumption.
    + apply elem_of_seqZ. simpl. lia.
  - simpl. nia.
Qed.

Lemma Uint8ClampedArray_new_ok {eng : Engine} (z : Z) :
  0 <= z <= max_Uint8ClampedArray ->
  Uint8ClampedArray_new (Int z) = Ok (replicate (Z.to_nat z) 0).
Proof.
  intros Hz. unfold Uint8ClampedArray_new.
  destruct (Z.ltb_spec z 0); [lia|].
  destruct (Z.ltb_spec max_Uint8ClampedArray z); [lia | reflexivity].
Qed.

Lemma Uint8ClampedArray_new_throws {eng : Engine} (z : Z) :
  z < 0 \/ max_Uint8ClampedArray < z ->
  Uint8ClampedArray_new (Int z) = Throw RangeError.
Proof.
  intros Hz. unfold Uint8ClampedArray_new.
  destruct (Z.ltb_spec z 0); [reflexivity|].
  destruct (Z.ltb_spec max_Uint8ClampedArray z); [reflexivity | lia].
Qed.

Section ImageOnModel.
Context {eng : Engine}.
Variable E : Host.
Variable fuel : nat.

Lemma getColorAt_on_model (config : Config) (k : Z) (c c' : nat) (model : Model) :
  input config = Int k -> 0 <= k ->
  createModel E fuel config c = Ok (model, c') ->
  forall x y j, exists rgba,
    getColorAt E config model x y j = Ok (rgba, S (S (S j))).
Proof.
  intros Hk Hpos H x y j.
  destruct (createModel_shaped E fuel config k c c' model Hk Hpos H)
    as (w_in & w_out & hiddens & Hin & Hsin & Hout & Hsout & Hhid & Hmax).
  unfold getColorAt, lift, bind at 1.
  rewrite (forwardNetwork_layers E config model k w_in w_out hiddens x y)
    by assumption.
  eexists. reflexivity.
Qed.

(** The run of [getImageData] once the model is made: the pixel buffer is
    allocated, or the allocation throws, and the loops store the colours
    row by row. *)
Lemma getImageData_loops (config : Config) (W H k : Z) (c c1 : nat) (model : Model) :
  width config = Int W -> height config = Int H -> 0 <= W -> 0 <= H ->
  input config = Int k -> 0 <= k ->
  createModel E fuel config c = Ok (model, c1) ->
  (W * H * 4 <= max_Uint8ClampedArray ->
   getImageData E fuel config c
   = Ok (fold_left
           (fun px p => pixel_stores px (p.1 * W + p.2)
              (colour_at E config model W H p
                 (c1 + 3 * Z.to_nat (W * p.1 + p.2)%Z)%nat))
           (list_prod (seqZ 0 H) (seqZ 0 W))
           (replicate (Z.to_nat (W * H * 4)) 0),
         (c1 + 3 * length (list_prod (seqZ 0 H) (seqZ 0 W)))%nat))
  /\ (max_Uint8ClampedArray < W * H * 4 ->
      getImageData E fuel config c = Throw RangeError).
Proof.
  intros Hw Hh HW HH Hk Hpos Hmodel. split.
  - intros Hmax. unfold getImageData. unfold bind at 1.
    rewrite Hmodel, Hw, Hh. cbn [imul]. unfold bind at 1, lift.
    rewrite Uint8ClampedArray_new_ok by nia.
    cbn [upto to_float].
    rewrite (foldM_nested
               (fun pixels y x =>
                  do! rgba := getColorAt E config model
                                (Z2F x / Z2F W)%float (Z2F y / Z2F H)%float in
                  ret (pixel_stores pixels (y * W + x) rgba))).
    apply (image_loop E config model W H
             (getColorAt_on_model config k c c1 model Hk Hpos Hmodel)
             (fun p => (c1 + 3 * Z.to_nat (W * p.1 + p.2)%Z)%nat)).
    intros pos p Hp.
    apply lookup_list_prod_seqZ in Hp; [|lia..]. lia.
  - intros Hmax. unfold getImageData. unfold bind at 1.
    rewrite Hmodel, Hw, Hh. cbn [imul]. unfold bind at 1, lift.
    rewrite Uint8ClampedArray_new_throws by lia. reflexivity.
Qed.

(** C6 (as amended). For a config with positive integer [width] and
    [height] and a non-negative integer [input], the buffer that
    [getImageData] returns has exactly [width * height * 4] elements, a
    number the engine allocates, and the four bytes at the offset
    [(y * width + x) * 4] are the stores of the colour that [getColorAt]
    computes for the model at the coordinates [(x / width, y / height)],
    the pixels taken row by row (three random numbers per pixel); both
    coordinates are strictly below 1.0.  With a sampler that returns,
    [getImageData] returns when the engine allocates the matrices of the
    model and the [width * height * 4] bytes of the image (and
    [config.hidden] is at most 2^53); when the model is made and the
    engine does not allocate the bytes of the image, it throws a
    RangeError. *)
Theorem getImageData_spec (config : Config) (W H k : Z) :
  width config = Int W -> height config = Int H -> 0 < W -> 0 < H ->
  input config = Int k -> 0 <= k ->
  (forall c pixels c_end,
     getImageData E fuel config c = Ok (pixels, c_end) ->
     Z.of_nat (length pixels) = W * H * 4
     /\ W * H * 4 <= max_Uint8ClampedArray
     /\ exists model c1,
          createModel E fuel config c = Ok (model, c1)
          /\ c_end = (c1 + 3 * Z.to_nat (W * H))%nat
          /\ forall x y, 0 <= x < W -> 0 <= y < H ->
               exists rgba c2,
                 getColorAt E config model (Z2F x / Z2F W)%float (Z2F y / Z2F H)%float
                            (c1 + 3 * Z.to_nat (y * W + x)%Z)%nat
                 = Ok (rgba, c2)
                 /\ (forall j, 0 <= j < 4 ->
                       rd pixels (Int ((y * W + x) * 4 + j))
                       = Some (ToUint8Clamp (rd rgba (Int j))))
                 /\ (Z2F x / Z2F W <? 1)%float = true
                 /\ (Z2F y / Z2F H <? 1)%float = true)
  /\ (sampler_returns E fuel ->
      k * 3 <= max_Float64Array ->
      (forall h, hidden config = Int h ->
         h <= 2 ^ 53 /\ (0 < h -> k * k <= max_Float64Array)) ->
      W * H * 4 <= max_Uint8ClampedArray ->
      forall c, exists pixels c_end, getImageData E fuel config c = Ok (pixels, c_end))
  /\ (max_Uint8ClampedArray < W * H * 4 ->
      forall c model c1,
        createModel E fuel config c = Ok (model, c1) ->
        getImageData E fuel config c = Throw RangeError).
Proof.
  intros Hw Hh HW HH Hk Hpos.
  split; [|split].
  - intros c pixels c_end Hg.
    pose proof Hg as Hg'. unfold getImageData in Hg'.
    apply bind_Ok in Hg' as (model & c1 & Hmodel & _).
    destruct (getImageData_loops config W H k c c1 model Hw Hh ltac:(lia) ltac:(lia)
                Hk Hpos Hmodel) as [Hrun Hthrow].
    destruct (Z.le_gt_cases (W * H * 4) max_Uint8ClampedArray) as [Hmax|Hmax];
      [|rewrite (Hthrow Hmax) in Hg; discriminate].
    rewrite (Hrun Hmax) in Hg. injection Hg as Hpx Hend.
    destruct (image_stores
                (fun p => colour_at E config model W H p
                            (c1 + 3 * Z.to_nat (W * p.1 + p.2)%Z)%nat)
                H W (replicate (Z.to_nat (W * H * 4)) 0) pixels)
      as [Hlen Hcells];
      [lia | lia | rewrite length_replicate; lia | symmetry; exact Hpx |].
    pose proof Uint8ClampedArray_max as Hsmall.
    assert (HW53 : W < 2 ^ 53) by nia. assert (HH53 : H < 2 ^ 53) by nia.
    split; [rewrite Hlen, length_replicate; lia|]. split; [exact Hmax|].
    exists model, c1. split; [assumption|]. split.
    { rewrite <- Hend, length_prod, !length_seqZ. nia. }
    intros x y Hx Hy.
    destruct (getColorAt_on_model config k c c1 model Hk Hpos Hmodel
                (Z2F x / Z2F W)%float (Z2F y / Z2F H)%float
                (c1 + 3 * Z.to_nat (y * W + x)%Z)%nat) as [rgba Hrgba].
    eexists rgba, _. split; [exact Hrgba|]. split; [|split].
    + intros j Hj.
      rewrite Hcells by assumption. unfold colour_at. cbn [fst snd].
      replace (W * y + x) with (y * W + x) by lia. rewrite Hrgba. reflexivity.
    + exact (proj2 (coord_range x W Hx HW53)).
    + exact (proj2 (coord_range y H Hy HH53)).
  - intros Hret Hk3 Hkk Hmax c.
    destruct (createModel_returns E fuel config k c Hk Hpos Hk3) as (model & c1 & Hmodel);
      [|exact Hret|].
    { intros i Hi. apply elem_of_upto in Hi as (h & Hh' & Hi).
      apply (proj2 (Hkk h Hh')). lia. }
    destruct (getImageData_loops config W H k c c1 model Hw Hh ltac:(lia) ltac:(lia)
                Hk Hpos Hmodel) as [Hrun _].
    eexists _, _. apply (Hrun Hmax).
  - intros Hmax c model c1 Hmodel.
    destruct (getImageData_loops config W H k c c1 model Hw Hh ltac:(lia) ltac:(lia)
                Hk Hpos Hmodel) as [_ Hthrow].
    exact (Hthrow Hmax).
Qed.

End ImageOnModel.

(** ** The theorems on concrete runs *)

(** C1: [forwardNetwork_spec] on the model of [small_config]. *)
Lemma forwardNetwork_spec_witness :
  exists model c',
    createModel (eng := RefHost.engine)
      small_host 10 small_config 0%nat = Ok (model, c')
    /\ forall x y, exists out,
         forwardNetwork (eng := RefHost.engine)
           small_host small_config model x y = Ok out
         /\ n out = Int 3 /\ d out = Int 1 /\ length (w out) = 3%nat.
Proof.
  destruct (createModel (eng := RefHost.engine)
    small_host 10 small_config 0%nat) as [[model c']|e] eqn:Hm.
  - exists model, c'. split; [reflexivity|]. intros x y.
    destruct (forwardNetwork_spec small_host 10 small_config 4 0%nat c' model
                eq_refl ltac:(lia) Hm)
      as (w_in & w_out & hiddens & _ & _ & _ & Hfw).
    destruct (Hfw x y) as (out & Hout & Hn & Hd & Hlen & _).
    exists out. auto.
  - vm_compute in Hm. discriminate.
Defined.

(** C2, the claim as stated fails: with a NaN maximum for the red channel
    the red channel that [getColorAt] returns is NaN, which is not in
    [0, 255]. *)
Lemma getColorAt_nan_channel :
  exists model c1 rgba c2,
    createModel (eng := RefHost.engine)
      small_host 10 nan_max_config 0%nat = Ok (model, c1)
    /\ getColorAt (eng := RefHost.engine)
      small_host nan_max_config model 0.5 0.5 c1 = Ok (rgba, c2)
    /\ rgba !! 0%nat = Some nan
    /\ (0 <=? nan)%float = false /\ (nan <=? 255)%float = false.
Proof.
  eexists _, _, _, _. split; [vm_compute; reflexivity|].
  split; [vm_compute; reflexivity|]. split; [|split]; reflexivity.
Qed.

Example getColorAt_small :
  match getColorAt (eng := RefHost.engine)
    small_host small_config small_model 0 0 80%nat with
  | Ok (rgba, c) => (map (fun v => ToUint8Clamp (Some v)) rgba, c)
  | Throw _ => ([], 0%nat)
  end = ([102; 191; 99; 255], 83%nat).
Proof. vm_compute. reflexivity. Qed.

(** C6, the claim as stated fails: width 2 and height 1 are positive
    integers, and with [input = -1] [getImageData] throws a RangeError
    instead of returning a buffer. *)
Lemma getImageData_negative_input :
  getImageData (eng := RefHost.engine)
    small_host 10 negative_input_config 0%nat = Throw RangeError.
Proof. vm_compute. reflexivity. Qed.

Example getImageData_small :
  getImageData (eng := RefHost.engine) small_host 10 small_config 0%nat
  = Ok ([102; 191; 99; 255; 93; 183; 81; 255], 86%nat).
Proof. vm_compute. reflexivity. Qed.

(** C9: [forwardNetwork_deterministic] on two hosts that differ in what
    [Math.random] returns and two configs that differ in the size of the
    image. *)
Lemma forwardNetwork_deterministic_witness :
  forwardNetwork (eng := RefHost.engine)
    (RefHost.host [0.1%float]) small_config small_model 0.25 0.75
  = forwardNetwork (eng := RefHost.engine)
    (RefHost.host [0.9%float]) nan_max_config small_model 0.25 0.75.
Proof.
  apply (forwardNetwork_deterministic (RefHost.host [0.1%float])
           (RefHost.host [0.9%float]) small_config nan_max_config small_model
           0.25%float 0.75%float eq_refl eq_refl eq_refl).
Defined.

(** C10: [forwardNetwork_input_zero] on [zero_input_config]. *)
Lemma forwardNetwork_input_zero_witness :
  input zero_input_config = Int 0
  /\ Math_exp small_host (- 0)%float = 1%float
  /\ exists model,
       createModel (eng := RefHost.engine)
         small_host 10 zero_input_config 7%nat = Ok (model, 7%nat)
       /\ forwardNetwork (eng := RefHost.engine)
         small_host zero_input_config model 0.25 0.75
          = Ok {| n := Int 3; d := Int 1; w := [0.5; 0.5; 0.5]%float |}.
Proof.
  split; [reflexivity|]. split; [reflexivity|].
  destruct (forwardNetwork_input_zero (eng := RefHost.engine) small_host 10
              zero_input_config eq_refl eq_refl) as [Hret Hfw].
  destruct (Hret 7%nat) as [model Hm]. exists model. split; [exact Hm|].
  apply (Hfw 7%nat 7%nat model 0.25%float 0.75%float Hm).
Defined.

(** * Further properties of the code *)

(** ** Round trips of get and set *)

Lemma flat_index_inj (c i j i' j' : Z) :
  0 <= j < c -> 0 <= j' < c -> c * i + j = c * i' + j' -> i = i' /\ j = j'.
Proof. intros Hj Hj' H. assert (i = i') by nia. subst. lia. Qed.

Lemma flat_index_range (r c i j : Z) :
  0 <= i < r -> 0 <= j < c -> 0 <= c * i + j < r * c.
Proof. intros Hi Hj. nia. Qed.

Lemma get_in_range (m : Matrix) (r c i j : Z) :
  shaped m r c -> r * c < 2 ^ 53 -> 0 <= i < r -> 0 <= j < c ->
  get m (Z2F i) (Z2F j) = Ok (w m !! Z.to_nat (c * i + j)).
Proof.
  intros (Hr & Hc & Hn & Hd & Hlen) Hsmall Hi Hj.
  pose proof (flat_index_range r c i j Hi Hj) as Hix.
  destruct (get_set_in_range m c i j 0%float) as [-> _]; try assumption; try nia.
  rewrite rd_Int by lia. reflexivity.
Qed.

(** X1. A store by [set] at a cell of a well-formed matrix (of fewer than
    2^53 elements, as every buffer is) is read back by [get] at that cell,
    every other cell reads as before and the shape is kept.  The column is
    not checked against [d]: the cell [(row, col + d)] is the cell
    [(row + 1, col)], for non-negative integers whose flat index is below
    2^53. *)
Theorem set_get_round_trip (m : Matrix) (r c i j : Z) (v : float) :
  shaped m r c -> r * c < 2 ^ 53 -> 0 <= i < r -> 0 <= j < c ->
  exists m',
    set m (Z2F i) (Z2F j) v = Ok m'
    /\ shaped m' r c
    /\ get m' (Z2F i) (Z2F j) = Ok (Some v)
    /\ (forall i' j', 0 <= i' < r -> 0 <= j' < c -> (i', j') <> (i, j) ->
          get m' (Z2F i') (Z2F j') = get m (Z2F i') (Z2F j'))
    /\ (forall row col,
          0 <= row -> 0 <= col -> c * (row + 1) + col < 2 ^ 53 ->
          get m (Z2F row) (Z2F (col + c)) = get m (Z2F (row + 1)) (Z2F col)
          /\ set m (Z2F row) (Z2F (col + c)) v = set m (Z2F (row + 1)) (Z2F col) v).
Proof.
  intros Hm Hsmall Hi Hj. pose proof Hm as (Hr & Hc & Hn & Hd & Hlen).
  pose proof (flat_index_range r c i j Hi Hj) as Hix.
  assert (Hm' : shaped (wset m (Int (c * i + j)) v) r c).
  { unfold shaped, wset. cbn [n d w]. rewrite length_wr. auto. }
  exists (wset m (Int (c * i + j)) v). split; [|split; [exact Hm'|split; [|split]]].
  - destruct (get_set_in_range m c i j v) as [_ ->]; try assumption; try nia.
    reflexivity.
  - rewrite (get_in_range _ r c i j Hm' Hsmall Hi Hj). f_equal.
    unfold wset. cbn [w]. rewrite wr_Int by lia.
    apply list_lookup_insert_eq. lia.
  - intros i' j' Hi' Hj' Hne.
    rewrite (get_in_range _ r c i' j' Hm' Hsmall Hi' Hj'),
            (get_in_range _ r c i' j' Hm Hsmall Hi' Hj').
    f_equal. unfold wset. cbn [w]. rewrite wr_Int by lia.
    apply list_lookup_insert_ne. intros Heq.
    pose proof (flat_index_range r c i' j' Hi' Hj') as Hix'.
    apply Z2Nat.inj in Heq; [|lia..].
    destruct (flat_index_inj c i j i' j' Hj Hj' Heq) as [-> ->]. congruence.
  - intros row col Hrow Hcol Hlt. unfold get, set. rewrite Hd. cbn [to_float].
    rewrite (flat_index_exact c row (col + c)) by nia.
    rewrite (flat_index_exact c (row + 1) col) by nia.
    replace (c * (row + 1) + col) with (c * row + (col + c)) by lia.
    split; reflexivity.
Qed.

Lemma set_get_round_trip_witness :
  exists m',
    set {| n := Int 2; d := Int 3; w := [1; 2; 3; 4; 5; 6]%float |} 1 2 9
    = Ok m'
    /\ get m' 1 2 = Ok (Some 9%float)
    /\ get m' 0 1 = Ok (Some 2%float).
Proof.
  destruct (set_get_round_trip
              {| n := Int 2; d := Int 3; w := [1; 2; 3; 4; 5; 6]%float |}
              2 3 1 2 9%float)
    as (m' & Hset & _ & Hget & Hother & _).
  - unfold shaped. cbn [n d w length]. repeat split; lia.
  - lia.
  - lia.
  - lia.
  - exists m'. split; [exact Hset|]. split; [exact Hget|].
    etransitivity; [exact (Hother 0 1 ltac:(lia) ltac:(lia) ltac:(congruence))|].
    reflexivity.
Defined.

(** ** The activation functions on any matrix *)

Lemma activation_loop_any (f : float -> float) (n0 d0 : index) (buf zs : list float) :
  exists ws,
    fold_left (fun out i => wset out (Int i) (f (ToNumber (rd buf (Int i)))))
              (upto (length_of buf)) {| n := n0; d := d0; w := zs |}
    = {| n := n0; d := d0; w := ws |}
    /\ length ws = length zs
    /\ forall k, (k < length zs)%nat ->
         ws !! k = if decide (k < length buf)%nat
                   then Some (f (ToNumber (buf !! k)))
                   else zs !! k.
Proof.
  rewrite (fold_left_wset Int (fun i => f (ToNumber (rd buf (Int i))))).
  cbn [n d w]. unfold length_of, upto.
  change (fold_left _ (seqZ 0 (Z.of_nat (length buf))) zs)
    with (writes (fun i : Z => i) (fun i => f (ToNumber (rd buf (Int i))))
            (seqZ 0 (Z.of_nat (length buf))) zs).
  eexists. split; [reflexivity|]. split; [apply length_writes|].
  intros k Hk. destruct (decide (k < length buf)%nat) as [Hb|Hb].
  - rewrite <- (Nat2Z.id k) at 1.
    rewrite (writes_hit (fun i : Z => i) _ _ _ (Z.of_nat k)).
    + rewrite rd_Int, Nat2Z.id by lia. reflexivity.
    + rewrite list_fmap_id. apply NoDup_seqZ.
    + apply elem_of_seqZ. lia.
    + lia.
  - apply writes_miss. intros x Hx. apply elem_of_seqZ in Hx. lia.
Qed.

Lemma activation_any {eng : Engine} (f : float -> float) (m : Matrix) :
  let act := fun matrix =>
    let! out := Matrix_new (n matrix) (d matrix) in
    Ok (fold_left
          (fun out i => wset out (Int i) (f (ToNumber (rd (w matrix) (Int i)))))
          (upto (length_of (w matrix))) out) in
  (forall k, imul (n m) (d m) = Int k -> 0 <= k <= max_Float64Array ->
     exists out,
       act m = Ok out /\ n out = n m /\ d out = d m
       /\ length (w out) = Z.to_nat k
       /\ (forall i, (i < Z.to_nat k)%nat ->
             w out !! i = Some (if decide (i < length (w m))%nat
                                then f (ToNumber (w m !! i)) else 0%float))
       /\ (length (w m) = Z.to_nat k -> w out = f <$> w m))
  /\ (imul (n m) (d m) = iNaN -> act m = Ok {| n := n m; d := d m; w := [] |})
  /\ (forall k, imul (n m) (d m) = Int k -> k < 0 \/ max_Float64Array < k ->
        act m = Throw RangeError).
Proof.
  intros act. unfold act, Matrix_new, zeros. split; [|split].
  - intros k Hk Hpos. rewrite Hk. cbn [isNaN].
    rewrite Float64Array_new_ok by assumption. cbn [rbind].
    destruct (activation_loop_any f (n m) (d m) (w m) (replicate (Z.to_nat k) 0%float))
      as (ws & -> & Hlen & Hws).
    rewrite length_replicate in Hlen, Hws.
    eexists. split; [reflexivity|]. cbn [n d w].
    split; [reflexivity|]. split; [reflexivity|]. split; [exact Hlen|]. split.
    + intros i Hi. rewrite (Hws i Hi).
      destruct (decide (i < length (w m))%nat); [reflexivity|].
      rewrite lookup_replicate_2 by lia. reflexivity.
    + intros Hl. apply list_eq. intros i. rewrite list_lookup_fmap.
      destruct (decide (i < Z.to_nat k)%nat) as [Hi|Hi].
      * rewrite (Hws i Hi). destruct (decide (i < length (w m))%nat); [|lia].
        destruct (lookup_lt_is_Some_2 (w m) i) as [x ->]; [lia|]. reflexivity.
      * rewrite (lookup_ge_None_2 (w m)) by lia.
        apply lookup_ge_None_2. lia.
  - intros Hk. rewrite Hk. cbn [isNaN rbind].
    destruct (activation_loop_any f (n m) (d m) (w m) []) as (ws & -> & Hlen & _).
    destruct ws; [reflexivity | discriminate].
  - intros k Hk Hbad. rewrite Hk. cbn [isNaN].
    rewrite Float64Array_new_throws by assumption. reflexivity.
Qed.

Section Activations.
Context {eng : Engine}.
Variable E : Host.

(** X2. [tanh(matrix)] allocates the result from the dimensions [n] and
    [d] of the argument, not from the length of its buffer: for a
    non-negative integer [n * d] that the engine allocates the result has
    the dimensions of the argument and a buffer of [n * d] elements, where
    element [i] is [Math.tanh(matrix.w[i])] as far as the buffer of the
    argument reaches and 0.0 beyond; it is the list of the [Math.tanh] of
    the elements when the buffer has [n * d] elements.  For a NaN [n * d]
    the buffer is empty; for a negative one, and for one larger than the
    engine allocates, the constructor throws a RangeError. *)
Theorem tanh_any_matrix (m : Matrix) :
  (forall k, imul (n m) (d m) = Int k -> 0 <= k <= max_Float64Array ->
     exists out,
       tanh E m = Ok out /\ n out = n m /\ d out = d m
       /\ length (w out) = Z.to_nat k
       /\ (forall i, (i < Z.to_nat k)%nat ->
             w out !! i = Some (if decide (i < length (w m))%nat
                                then Math_tanh E (ToNumber (w m !! i)) else 0%float))
       /\ (length (w m) = Z.to_nat k -> w out = Math_tanh E <$> w m))
  /\ (imul (n m) (d m) = iNaN -> tanh E m = Ok {| n := n m; d := d m; w := [] |})
  /\ (forall k, imul (n m) (d m) = Int k -> k < 0 \/ max_Float64Array < k ->
        tanh E m = Throw RangeError).
Proof. exact (activation_any (Math_tanh E) m). Qed.

(** X3. [sigmoid(matrix)] has the shape behaviour of [tanh(matrix)] with
    [sig] in place of [Math.tanh]: a result of the dimensions of the
    argument for a non-negative integer [n * d] that the engine allocates,
    an empty buffer for a NaN [n * d], a RangeError for a negative [n * d]
    and for one larger than the engine allocates.  When [Math.exp] is not
    negative (and not NaN) on the negated elements every element of the
    result lies in the closed interval [0, 1]. *)
Theorem sigmoid_any_matrix (m : Matrix) :
  (forall k, imul (n m) (d m) = Int k -> 0 <= k <= max_Float64Array ->
     exists out,
       sigmoid E m = Ok out /\ n out = n m /\ d out = d m
       /\ length (w out) = Z.to_nat k
       /\ (forall i, (i < Z.to_nat k)%nat ->
             w out !! i = Some (if decide (i < length (w m))%nat
                                then sig E (ToNumber (w m !! i)) else 0%float))
       /\ (length (w m) = Z.to_nat k -> w out = sig E <$> w m)
       /\ ((forall z, z ∈ w m -> (0 <=? Math_exp E (- z))%float = true) ->
           Forall (fun a => (0 <=? a)%float = true /\ (a <=? 1)%float = true) (w out)))
  /\ (imul (n m) (d m) = iNaN -> sigmoid E m = Ok {| n := n m; d := d m; w := [] |})
  /\ (forall k, imul (n m) (d m) = Int k -> k < 0 \/ max_Float64Array < k ->
        sigmoid E m = Throw RangeError).
Proof.
  destruct (activation_any (sig E) m) as (Hok & Hnan & Hneg).
  split; [|split; [exact Hnan | exact Hneg]].
  intros k Hk Hpos. destruct (Hok k Hk Hpos) as (out & Hout & Hn & Hd & Hlen & Hcells & Hmap).
  exists out. repeat (split; [assumption|]).
  intros Hexp. apply Forall_lookup. intros i a Hi.
  assert (Hlt : (i < Z.to_nat k)%nat) by (rewrite <- Hlen; eapply lookup_lt_Some; eauto).
  rewrite (Hcells i Hlt) in Hi. injection Hi as <-.
  destruct (decide (i < length (w m))%nat) as [Hb|Hb].
  - destruct (lookup_lt_is_Some_2 (w m) i Hb) as [z Hz]. rewrite Hz. cbn [ToNumber].
    apply sig_range. apply Hexp. eapply list_elem_of_lookup_2; eauto.
  - split; reflexivity.
Qed.

End Activations.

(** ** When the matrix product returns *)




(** ** The rejection loop of the Gaussian sampler *)

Section Gaussian.
Variable E : Host.

Lemma gaussian_loop_S (k c : nat) :
  gaussian_loop E (S k) c
  = if rejected E c then gaussian_loop E k (S (S c))
    else Ok (polar_value E c, S (S c)).
Proof.
  cbn [gaussian_loop]. unfold bind, random, ret, rejected.
  change (2 * Math_random E c - 1)%float with (polar_u E c).
  change (2 * Math_random E (S c) - 1)%float with (polar_u E (S c)).
  change (polar_u E c * polar_u E c + polar_u E (S c) * polar_u E (S c))%float
    with (polar_r E c).
  destruct ((polar_r E c =? 0)%float || (1 <? polar_r E c)%float); reflexivity.
Qed.

Lemma gaussian_loop_Ok (fuel c : nat) (g : float) (c' : nat) :
  gaussian_loop E fuel c = Ok (g, c') <->
  exists k, (k < fuel)%nat
    /\ (forall j, (j < k)%nat -> rejected E (c + 2 * j) = true)
    /\ rejected E (c + 2 * k) = false
    /\ c' = (c + 2 * k + 2)%nat /\ g = polar_value E (c + 2 * k).
Proof.
  revert c. induction fuel as [|fuel IH]; intros c.
  - split; [discriminate | intros (k & Hk & _); lia].
  - rewrite gaussian_loop_S. destruct (rejected E c) eqn:Hrej.
    + rewrite IH. split.
      * intros (k & Hk & Hbefore & Hacc & -> & ->). exists (S k).
        split; [lia|]. split; [|split; [|split]].
        -- intros [|j] Hj; [rewrite Nat.add_0_r; exact Hrej|].
           replace (c + 2 * S j)%nat with (S (S c) + 2 * j)%nat by lia.
           apply Hbefore. lia.
        -- replace (c + 2 * S k)%nat with (S (S c) + 2 * k)%nat by lia. exact Hacc.
        -- lia.
        -- f_equal. lia.
      * intros (k & Hk & Hbefore & Hacc & -> & ->). destruct k as [|k].
        { rewrite Nat.add_0_r in Hacc. congruence. }
        exists k. split; [lia|]. split; [|split; [|split]].
        -- intros j Hj. replace (S (S c) + 2 * j)%nat with (c + 2 * S j)%nat by lia.
           apply Hbefore. lia.
        -- replace (S (S c) + 2 * k)%nat with (c + 2 * S k)%nat by lia. exact Hacc.
        -- lia.
        -- f_equal. lia.
    + split.
      * intros H. injection H as <- <-. exists 0%nat.
        rewrite Nat.add_0_r. split; [lia|]. split; [intros j Hj; lia|].
        split; [exact Hrej|]. split; [lia | reflexivity].
      * intros (k & Hk & Hbefore & Hacc & -> & ->). destruct k as [|k].
        -- rewrite Nat.add_0_r. do 2 f_equal. lia.
        -- specialize (Hbefore 0%nat ltac:(lia)). rewrite Nat.add_0_r in Hbefore.
           congruence.
Qed.

Lemma gaussian_loop_Throw (fuel c : nat) (e : exn) :
  gaussian_loop E fuel c = Throw e <->
  e = FuelExhausted /\ forall j, (j < fuel)%nat -> rejected E (c + 2 * j) = true.
Proof.
  revert c. induction fuel as [|fuel IH]; intros c.
  - cbn [gaussian_loop]. split.
    + intros H. injection H as <-. split; [reflexivity | intros j Hj; lia].
    + intros [-> _]. reflexivity.
  - rewrite gaussian_loop_S. destruct (rejected E c) eqn:Hrej.
    + rewrite IH. split; intros [-> Hall]; (split; [reflexivity|]).
      * intros [|j] Hj; [rewrite Nat.add_0_r; exact Hrej|].
        replace (c + 2 * S j)%nat with (S (S c) + 2 * j)%nat by lia. apply Hall. lia.
      * intros j Hj. replace (S (S c) + 2 * j)%nat with (c + 2 * S j)%nat by lia.
        apply Hall. lia.
    + split; [discriminate|]. intros [_ Hall].
      specialize (Hall 0%nat ltac:(lia)). rewrite Nat.add_0_r in Hall. congruence.
Qed.

(** X5. [generateGaussianRandom] consumes the values of [Math.random] in
    pairs: it returns at the first pair [(u, v)] whose [r = u*u + v*v] is
    neither 0 nor above 1, with the value [u * sqrt(-2 * log(r) / r)] of
    that pair, having drawn exactly two numbers per round; it throws
    nothing, and does not return as long as every pair is rejected. *)
Theorem generateGaussianRandom_spec (fuel c : nat) :
  (forall g c',
     generateGaussianRandom E fuel c = Ok (g, c') <->
     exists k, (k < fuel)%nat
       /\ (forall j, (j < k)%nat -> rejected E (c + 2 * j) = true)
       /\ rejected E (c + 2 * k) = false
       /\ c' = (c + 2 * k + 2)%nat /\ g = polar_value E (c + 2 * k))
  /\ (forall e,
        generateGaussianRandom E fuel c = Throw e <->
        e = FuelExhausted
        /\ forall j, (j < fuel)%nat -> rejected E (c + 2 * j) = true)
  /\ (forall fuel' g c',
        generateGaussianRandom E fuel c = Ok (g, c') -> (fuel <= fuel')%nat ->
        generateGaussianRandom E fuel' c = Ok (g, c')).
Proof.
  unfold generateGaussianRandom. split; [|split].
  - intros g c'. apply gaussian_loop_Ok.
  - intros e. apply gaussian_loop_Throw.
  - intros fuel' g c' H Hle. apply gaussian_loop_Ok in H as (k & Hk & Hrest).
    apply gaussian_loop_Ok. exists k. split; [lia | exact Hrest].
Qed.

End Gaussian.

(** ** The sampler on the reference host *)

Lemma cycle_mod (draws : list float) (c : nat) :
  RefHost.cycle draws c = RefHost.cycle draws (c mod length draws).
Proof.
  unfold RefHost.cycle. rewrite Nat.Div0.mod_mod. reflexivity.
Qed.

Lemma random_small_mod (c : nat) :
  Math_random small_host c = Math_random small_host (c mod 5).
Proof. exact (cycle_mod _ c). Qed.

Lemma rejected_small_mod (c : nat) :
  rejected small_host c = rejected small_host (c mod 5).
Proof.
  assert (H1 : Math_random small_host (S c) = Math_random small_host (S (c mod 5))).
  { rewrite (random_small_mod (S c)), (random_small_mod (S (c mod 5))).
    f_equal. change (S (c mod 5)) with (1 + c mod 5)%nat.
    change (S c) with (1 + c)%nat.
    rewrite Nat.Div0.add_mod_idemp_r. reflexivity. }
  unfold rejected, polar_r, polar_u.
  rewrite H1, (random_small_mod c). reflexivity.
Qed.

(** On [small_host] the rejection loop returns within 10 rounds, whatever
    the number of values drawn before. *)
Lemma sampler_returns_small : sampler_returns small_host 10.
Proof.
  intros c. unfold generateGaussianRandom.
  assert (Hmod : exists g c', gaussian_loop small_host 10 (c mod 5)%nat = Ok (g, c')).
  { pose proof (Nat.mod_upper_bound c 5 ltac:(lia)) as Hlt.
    destruct (c mod 5)%nat as [|[|[|[|[|r]]]]]; [..|lia];
      match goal with
      | |- exists g c', ?run = _ =>
          destruct run as [[g c']|e] eqn:Hrun;
            [exists g, c'; reflexivity | vm_compute in Hrun; discriminate]
      end. }
  destruct Hmod as (g & c' & Hrun).
  apply gaussian_loop_Ok in Hrun as (k & Hk & Hbefore & Hacc & _ & _).
  assert (Hshift : forall j, rejected small_host (c + 2 * j)
                             = rejected small_host (c mod 5 + 2 * j)).
  { intros j. rewrite (rejected_small_mod (c + 2 * j)),
                      (rejected_small_mod (c mod 5 + 2 * j)).
    rewrite Nat.Div0.add_mod_idemp_l. reflexivity. }
  exists (polar_value small_host (c + 2 * k)), (c + 2 * k + 2)%nat.
  apply gaussian_loop_Ok. exists k. split; [exact Hk|]. split; [|split; [|split]].
  - intros j Hj. rewrite Hshift. apply Hbefore. exact Hj.
  - rewrite Hshift. exact Hacc.
  - reflexivity.
  - reflexivity.
Qed.


(** C6: [getImageData_spec] on [small_config]: [getImageData] returns, and
    the buffer has 2 * 1 * 4 bytes. *)
Lemma getImageData_spec_witness :
  exists pixels c_end,
    getImageData (eng := RefHost.engine) small_host 10 small_config 0%nat
    = Ok (pixels, c_end)
    /\ Z.of_nat (length pixels) = 2 * 1 * 4.
Proof.
  destruct (getImageData_spec (eng := RefHost.engine) small_host 10 small_config
              2 1 4 eq_refl eq_refl ltac:(lia) ltac:(lia) eq_refl ltac:(lia))
    as (Hspec & Hreturns & _).
  destruct (Hreturns sampler_returns_small ltac:(cbn; lia)
              ltac:(intros h Hh; injection Hh as <-; cbn; lia)
              ltac:(cbn; lia) 0%nat)
    as (pixels & c_end & Hg).
  exists pixels, c_end. split; [exact Hg|].
  destruct (Hspec 0%nat pixels c_end Hg) as [Hlen _]. exact Hlen.
Defined.

(** ** NaN in arithmetic *)

Lemma is_nan_mul_l (x y : float) : is_nan x = true -> is_nan (x * y) = true.
Proof. rewrite !is_nan_spec, mul_spec. intros ->. reflexivity. Qed.

Lemma is_nan_mul_r (x y : float) : is_nan y = true -> is_nan (x * y) = true.
Proof.
  rewrite !is_nan_spec, mul_spec. intros ->.
  destruct (Prim2SF x); reflexivity.
Qed.

Lemma is_nan_add_l (x y : float) : is_nan x = true -> is_nan (x + y) = true.
Proof. rewrite !is_nan_spec, add_spec. intros ->. reflexivity. Qed.

Lemma is_nan_add_r (x y : float) : is_nan y = true -> is_nan (x + y) = true.
Proof.
  rewrite !is_nan_spec, add_spec. intros ->.
  destruct (Prim2SF x); reflexivity.
Qed.

Lemma is_nan_sub_l (x y : float) : is_nan x = true -> is_nan (x - y) = true.
Proof. rewrite !is_nan_spec, sub_spec. intros ->. reflexivity. Qed.

Lemma eqb_nan_l (x y : float) : is_nan x = true -> (x =? y)%float = false.
Proof. rewrite is_nan_spec, FloatAxioms.eqb_spec. intros ->. reflexivity. Qed.

Lemma ltb_nan_r (x y : float) : is_nan y = true -> (x <? y)%float = false.
Proof.
  rewrite is_nan_spec, FloatAxioms.ltb_spec. intros ->. unfold SFltb.
  destruct (Prim2SF x); reflexivity.
Qed.

Section GaussianNaN.
Variable E : Host.

(** X6. A NaN from [Math.random] is not rejected: when the first draw of
    a round is NaN, [r] is NaN, both tests [r === 0] and [r > 1] fail, and
    the loop ends in that round with the value NaN, so
    [generateRandomNormal] returns NaN whatever the mean and the standard
    deviation. *)
Theorem generateRandomNormal_nan_draw (fuel c : nat) (mean sd : float) :
  is_nan (Math_random E c) = true ->
  exists g x,
    generateGaussianRandom E (S fuel) c = Ok (g, S (S c)) /\ is_nan g = true
    /\ generateRandomNormal E (S fuel) mean sd c = Ok (x, S (S c))
    /\ is_nan x = true.
Proof.
  intros Hnan.
  assert (Hu : is_nan (polar_u E c) = true).
  { unfold polar_u. apply is_nan_sub_l, is_nan_mul_r. exact Hnan. }
  assert (Hr : is_nan (polar_r E c) = true).
  { unfold polar_r. apply is_nan_add_l, is_nan_mul_l. exact Hu. }
  assert (Hg : generateGaussianRandom E (S fuel) c = Ok (polar_value E c, S (S c))).
  { unfold generateGaussianRandom. rewrite gaussian_loop_S. unfold rejected.
    rewrite (eqb_nan_l _ _ Hr), (ltb_nan_r _ _ Hr). reflexivity. }
  assert (Hv : is_nan (polar_value E c) = true).
  { unfold polar_value. apply is_nan_mul_l. exact Hu. }
  exists (polar_value E c), (mean + polar_value E c * sd)%float.
  split; [exact Hg|]. split; [exact Hv|]. split.
  - unfold generateRandomNormal, bind. rewrite Hg. reflexivity.
  - apply is_nan_add_r, is_nan_mul_l. exact Hv.
Qed.

End GaussianNaN.

Lemma generateRandomNormal_nan_draw_witness :
  exists g x,
    generateGaussianRandom (RefHost.host [nan]) 1 0%nat = Ok (g, 2%nat)
    /\ is_nan g = true
    /\ generateRandomNormal (RefHost.host [nan]) 1 0 0.8 0%nat = Ok (x, 2%nat)
    /\ is_nan x = true.
Proof.
  apply (generateRandomNormal_nan_draw (RefHost.host [nan]) 0 0 0%float 0.8%float).
  reflexivity.
Defined.

(** ** Filling a matrix *)

Section Filling.
Variable E : Host.
Variable fuel : nat.

Lemma generateRandomNormal_Ok (mean sd : float) (c c' : nat) (x : float) :
  generateRandomNormal E fuel mean sd c = Ok (x, c') ->
  exists k, c' = (c + 2 * k + 2)%nat
    /\ x = (mean + polar_value E (c + 2 * k) * sd)%float.
Proof.
  unfold generateRandomNormal. intros H.
  apply bind_Ok in H as (g & c1 & Hg & Hret). injection Hret as <- <-.
  apply gaussian_loop_Ok in Hg as (k & _ & _ & _ & -> & ->). exists k. auto.
Qed.

Lemma generateRandomNormal_Throw (mean sd : float) (c : nat) (e : exn) :
  generateRandomNormal E fuel mean sd c = Throw e -> e = FuelExhausted.
Proof.
  unfold generateRandomNormal, bind.
  destruct (generateGaussianRandom E fuel c) as [[g c1]|e0] eqn:Hg; [discriminate|].
  intros H. injection H as <-. apply gaussian_loop_Throw in Hg as [-> _]. reflexivity.
Qed.

Lemma samples_draws (mean sd : float) (k : nat) (c c' : nat) (xs : list float) :
  samples E fuel mean sd k c = Ok (xs, c') ->
  exists extra, c' = (c + 2 * k + 2 * extra)%nat.
Proof.
  revert c c' xs. induction k as [|k IH]; intros c c' xs; cbn [samples].
  - intros H. injection H as <- <-. exists 0%nat. lia.
  - intros H. apply bind_Ok in H as (x & c1 & Hx & H).
    apply bind_Ok in H as (xs' & c2 & Hxs & Hret). injection Hret as <- <-.
    apply generateRandomNormal_Ok in Hx as (j & -> & _).
    apply IH in Hxs as (extra & ->). exists (j + extra)%nat. lia.
Qed.

Lemma samples_Throw (mean sd : float) (k : nat) (c : nat) (e : exn) :
  samples E fuel mean sd k c = Throw e -> e = FuelExhausted.
Proof.
  revert c. induction k as [|k IH]; intros c; cbn [samples]; [discriminate|].
  unfold bind at 1.
  destruct (generateRandomNormal E fuel mean sd c) as [[x c1]|e0] eqn:Hx.
  - unfold bind at 1.
    destruct (samples E fuel mean sd k c1) as [[xs c2]|e1] eqn:Hxs; [discriminate|].
    intros H. injection H as <-. eapply IH; eauto.
  - intros H. injection H as <-. eapply generateRandomNormal_Throw; eauto.
Qed.

(** X7. [fillRandn] overwrites every element of the buffer, in index
    order, with successive results of [generateRandomNormal(mean, sd)] and
    keeps [n] and [d]; it draws two random numbers for each element and two
    more for each rejected round.  It never reads the elements it
    overwrites: two matrices with the same dimensions and buffers of the
    same length are filled alike.  An empty buffer is left as it is and
    nothing is drawn. *)
Theorem fillRandn_spec (matrix : Matrix) (mean sd : float) (c : nat) :
  (forall m' c',
     fillRandn E fuel matrix mean sd c = Ok (m', c') ->
     n m' = n matrix /\ d m' = d matrix
     /\ length (w m') = length (w matrix)
     /\ samples E fuel mean sd (length (w matrix)) c = Ok (w m', c')
     /\ exists extra, c' = (c + 2 * length (w matrix) + 2 * extra)%nat)
  /\ (forall matrix2,
        n matrix2 = n matrix -> d matrix2 = d matrix ->
        length (w matrix2) = length (w matrix) ->
        fillRandn E fuel matrix2 mean sd c = fillRandn E fuel matrix mean sd c)
  /\ (w matrix = [] -> fillRandn E fuel matrix mean sd c = Ok (matrix, c))
  /\ (forall e, fillRandn E fuel matrix mean sd c = Throw e -> e = FuelExhausted).
Proof.
  split; [|split; [|split]].
  - intros m' c'. rewrite fillRandn_samples. intros H.
    apply bind_Ok in H as (xs & c1 & Hxs & Hret). injection Hret as <- <-.
    cbn [n d w]. split; [reflexivity|]. split; [reflexivity|].
    split; [eapply samples_length; eauto|]. split; [exact Hxs|].
    eapply samples_draws; eauto.
  - intros matrix2 Hn Hd Hlen. rewrite !fillRandn_samples, Hn, Hd, Hlen. reflexivity.
  - intros Hw. rewrite fillRandn_samples, Hw. destruct matrix as [n0 d0 w0].
    cbn [w n d] in *. subst w0. reflexivity.
  - intros e. rewrite fillRandn_samples. unfold bind.
    destruct (samples E fuel mean sd (length (w matrix)) c) as [[xs c1]|e0] eqn:Hxs;
      [discriminate|].
    intros H. injection H as <-. eapply samples_Throw; eauto.
Qed.

End Filling.

(** ** Degenerate dimensions of RandMat and createModel *)

Section Degenerate.
Context {eng : Engine}.
Variable E : Host.
Variable fuel : nat.

Lemma RandMat_refused (rows columns : index) (mean sd : float) (c : nat) (k : Z) :
  imul rows columns = Int k -> k < 0 \/ max_Float64Array < k ->
  RandMat E fuel rows columns mean sd c = Throw RangeError.
Proof.
  intros H Hk. unfold RandMat, bind at 1, lift, Matrix_new, zeros.
  rewrite H. cbn [isNaN]. rewrite Float64Array_new_throws by assumption.
  reflexivity.
Qed.

(** X8. [RandMat] draws nothing unless [rows * columns] is a positive
    integer: for a NaN or zero product it returns the matrix with the given
    dimensions and an empty buffer; for a negative product, and for one
    larger than the engine allocates, the constructor throws a RangeError
    before any draw, and that is the only error of the source
    ([FuelExhausted] is the bound of the model on the rejection loop). *)
Theorem RandMat_degenerate (rows columns : index) (mean sd : float) (c : nat) :
  (imul rows columns = iNaN \/ imul rows columns = Int 0 ->
   RandMat E fuel rows columns mean sd c
   = Ok ({| n := rows; d := columns; w := [] |}, c))
  /\ (RandMat E fuel rows columns mean sd c = Throw RangeError <->
      exists k, imul rows columns = Int k /\ (k < 0 \/ max_Float64Array < k))
  /\ (forall e, RandMat E fuel rows columns mean sd c = Throw e ->
        e = RangeError \/ e = FuelExhausted).
Proof.
  split; [apply RandMat_empty|].
  assert (Hcases : (exists k, imul rows columns = Int k
                              /\ (k < 0 \/ max_Float64Array < k))
                   \/ forall e, RandMat E fuel rows columns mean sd c = Throw e ->
                                e = FuelExhausted).
  { destruct (imul rows columns) as [|k] eqn:Hk.
    - right. intros e. rewrite RandMat_empty by auto. discriminate.
    - destruct (Z.lt_ge_cases k 0) as [Hneg|Hpos]; [left; eauto|].
      destruct (Z.lt_ge_cases max_Float64Array k) as [Hbig|Hfits]; [left; eauto|].
      right. intros e. unfold RandMat, bind at 1, lift, Matrix_new, zeros.
      rewrite Hk. cbn [isNaN]. rewrite Float64Array_new_ok by lia. cbn [rbind].
      rewrite fillRandn_samples. unfold bind.
      destruct (samples _ _ _ _ _ _) as [[xs c1]|e0] eqn:Hxs; [discriminate|].
      intros H. injection H as <-. eapply samples_Throw; eauto. }
  split.
  - split.
    + intros H. destruct Hcases as [Hneg|Hfuel]; [exact Hneg|].
      apply Hfuel in H. discriminate.
    + intros (k & Hk & Hneg). eapply RandMat_refused; eauto.
  - intros e H. destruct Hcases as [(k & Hk & Hneg)|Hfuel].
    + rewrite (RandMat_refused _ _ _ _ _ k Hk Hneg) in H. injection H as <-. auto.
    + right. apply Hfuel. exact H.
Qed.


Lemma forwardNetwork_unfold (config : Config) (model : Model) (x y : float) :
  forwardNetwork E config model x y
  = (let! w_in := member model "w_in" in
     let! h := matrixMul w_in (column [x; y; 1%float]) in
     let! out := tanh E h in
     let! out :=
       foldR (fun out i =>
                let! w_i := member model (layer_key i) in
                let! h := matrixMul w_i out in
                tanh E h)
             (upto (hidden config)) out in
     let! w_out := member model "w_out" in
     let! h := matrixMul w_out out in
     sigmoid E h).
Proof.
  unfold forwardNetwork. rewrite Matrix_new_3_1. cbn [rbind].
  pose proof (input_vector x y) as Hvec.
  destruct (set {| n := Int 3; d := Int 1; w := [0; 0; 0]%float |} 0 0 x)
    as [v0|e]; [|discriminate].
  cbn [rbind] in Hvec |- *.
  destruct (set v0 1 0 y) as [v1|e]; [|discriminate].
  cbn [rbind] in Hvec |- *. rewrite Hvec. reflexivity.
Qed.




End Degenerate.

(** ** The order of the draws of createModel *)

Section Stream.
Variable E : Host.
Variable fuel : nat.

Lemma layers_stream {eng : Engine} (rows columns : index) (l : list Z)
    (model0 model : Model)
    (c c' : nat) :
  NoDup l ->
  foldM (fun (model : Model) layerIndex =>
           do! m := RandMat E fuel rows columns 0 weightInitRange in
           ret (<[layer_key layerIndex := m]> model))
        l model0 c = Ok (model, c') ->
  exists cs,
    length cs = length l
    /\ last (c :: cs) = Some c'
    /\ forall pos i, l !! pos = Some i ->
         exists m ca cb,
           model !! layer_key i = Some m
           /\ (c :: cs) !! pos = Some ca /\ cs !! pos = Some cb
           /\ RandMat E fuel rows columns 0 weightInitRange ca = Ok (m, cb).
Proof.
  revert model0 c. induction l as [|a l IH]; intros model0 c Hnd; cbn [foldM].
  - unfold ret. intros [= <- <-]. exists []. split; [reflexivity|].
    split; [reflexivity|]. intros pos i Hpos. discriminate.
  - apply NoDup_cons in Hnd as [Ha Hnd]. intros H.
    apply bind_Ok in H as (model1 & c1 & Hstep & H).
    apply bind_Ok in Hstep as (m & c2 & Hm & Hret).
    unfold ret in Hret. injection Hret as <- <-.
    destruct (layers_loop E fuel _ _ _ _ _ _ _ Hnd H) as (Hother & _ & _).
    destruct (IH _ _ Hnd H) as (cs & Hlen & Hlast & Hcells).
    exists (c2 :: cs). split; [cbn; lia|]. split; [exact Hlast|].
    intros [|pos] i Hpos.
    + injection Hpos as <-. exists m, c, c2.
      split; [|split; [reflexivity|split; [reflexivity|exact Hm]]].
      rewrite Hother; [apply lookup_insert_eq|].
      intros i Hi Heq. apply layer_key_inj in Heq. congruence.
    + destruct (Hcells pos i Hpos) as (m' & ca & cb & Hm' & Hca & Hcb & Hr).
      exists m', ca, cb. auto.
Qed.

(** X10. [createModel] draws the weights from one stream of random
    numbers in a fixed order: the [3 * input] weights of [w_in] first, then
    those of [w_out], then the [input * input] weights of [w_0], [w_1], ...
    each matrix starting where the one before it stopped, and the draws of
    [createModel] end where those of the last matrix end. *)
Theorem createModel_stream {eng : Engine} (config : Config) (k : Z) (c c' : nat)
    (model : Model) :
  input config = Int k -> 0 <= k ->
  createModel E fuel config c = Ok (model, c') ->
  exists w_in w_out c1 c2 cs,
    model !! "w_in" = Some w_in
    /\ samples E fuel 0 0.8 (Z.to_nat (k * 3)) c = Ok (w w_in, c1)
    /\ model !! "w_out" = Some w_out
    /\ samples E fuel 0 0.8 (Z.to_nat (3 * k)) c1 = Ok (w w_out, c2)
    /\ length cs = length (upto (hidden config))
    /\ last (c2 :: cs) = Some c'
    /\ forall i, i ∈ upto (hidden config) ->
         exists m ca cb,
           model !! layer_key i = Some m
           /\ (c2 :: cs) !! Z.to_nat i = Some ca /\ cs !! Z.to_nat i = Some cb
           /\ samples E fuel 0 0.8 (Z.to_nat (k * k)) ca = Ok (w m, cb).
Proof.
  intros Hk Hpos H.
  assert (Hsamples : forall r p ca cb m, 0 <= r * p ->
             RandMat E fuel (Int r) (Int p) 0 weightInitRange ca = Ok (m, cb) ->
             samples E fuel 0 0.8 (Z.to_nat (r * p)) ca = Ok (w m, cb)).
  { intros r p ca cb m Hrp Hr.
    apply RandMat_weights in Hr as (_ & _ & _ & _ & _ & Hs). exact Hs. }
  unfold createModel in H. rewrite Hk in H.
  apply bind_Ok in H as (w_in & c1 & Hin & H).
  apply bind_Ok in H as (w_out & c2 & Hout & H).
  pose proof (layers_loop E fuel _ _ _ _ _ _ _ (NoDup_upto _) H) as (Hother & _ & _).
  destruct (layers_stream _ _ _ _ _ _ _ (NoDup_upto _) H) as (cs & Hlen & Hlast & Hcells).
  exists w_in, w_out, c1, c2, cs.
  split; [|split; [|split; [|split; [|split; [|split]]]]].
  - rewrite Hother by (intros i _; apply not_eq_sym, layer_key_not_w_in).
    rewrite lookup_insert_ne by discriminate. apply lookup_insert_eq.
  - apply Hsamples; [lia | exact Hin].
  - rewrite Hother by (intros i _; apply not_eq_sym, layer_key_not_w_out).
    apply lookup_insert_eq.
  - apply Hsamples; [lia | exact Hout].
  - exact Hlen.
  - exact Hlast.
  - intros i Hi. apply elem_of_upto in Hi as (h & Hh & Hi).
    destruct (Hcells (Z.to_nat i) i) as (m & ca & cb & Hm & Hca & Hcb & Hr).
    { rewrite Hh. cbn [upto]. rewrite lookup_seqZ. split; lia. }
    exists m, ca, cb. split; [exact Hm|]. split; [exact Hca|]. split; [exact Hcb|].
    apply Hsamples; [nia | exact Hr].
Qed.

End Stream.

Lemma createModel_stream_witness :
  exists model c' w_in w_out c1 c2,
    createModel (eng := RefHost.engine)
      small_host 10 small_config 0%nat = Ok (model, c')
    /\ model !! "w_in" = Some w_in
    /\ samples small_host 10 0 0.8 12 0%nat = Ok (w w_in, c1)
    /\ model !! "w_out" = Some w_out
    /\ samples small_host 10 0 0.8 12 c1 = Ok (w w_out, c2).
Proof.
  destruct (createModel (eng := RefHost.engine)
    small_host 10 small_config 0%nat) as [[model c']|e] eqn:Hm;
    [|vm_compute in Hm; discriminate].
  destruct (createModel_stream small_host 10 small_config 4 0%nat c' model
              eq_refl ltac:(lia) Hm)
    as (w_in & w_out & c1 & c2 & cs & Hin & Hs1 & Hout & Hs2 & _).
  exists model, c', w_in, w_out, c1, c2. auto.
Defined.

(** ** What the forward pass reads, and how it fails *)

Lemma foldR_ext_in {S A} (f g : S -> A -> result S) (l : list A) (s : S) :
  (forall s a, a ∈ l -> f s a = g s a) -> foldR f l s = foldR g l s.
Proof.
  revert s. induction l as [|a l IH]; intros s Hfg; cbn [foldR]; [reflexivity|].
  rewrite (Hfg s a) by left. destruct (g s a) as [s'|e]; cbn [rbind]; [|reflexivity].
  apply IH. intros s0 a0 Ha0. apply Hfg. right. exact Ha0.
Qed.

Lemma foldR_Throw {S A} (P : exn -> Prop) (f : S -> A -> result S) (l : list A)
    (s : S) (e : exn) :
  (forall s a e, f s a = Throw e -> P e) -> foldR f l s = Throw e -> P e.
Proof.
  intros Hf. revert s. induction l as [|a l IH]; intros s; cbn [foldR]; [discriminate|].
  destruct (f s a) as [s'|e0] eqn:Hfa; cbn [rbind].
  - apply IH.
  - intros H. injection H as <-. eapply Hf; eauto.
Qed.

Lemma matrixMul_Throw {eng : Engine} (m1 m2 : Matrix) (e : exn) :
  matrixMul m1 m2 = Throw e -> e = DimensionsMisaligned \/ e = RangeError.
Proof.
  unfold matrixMul. destruct (ieqb (d m1) (n m2)); cbn [negb].
  - destruct (Matrix_new_cases (n m1) (d m2)) as [[buf ->] | ->]; cbn [rbind].
    + discriminate.
    + intros H. injection H as <-. auto.
  - intros H. injection H as <-. auto.
Qed.

Section ForwardErrors.
Variable E : Host.

Lemma tanh_Throw {eng : Engine} (m : Matrix) (e : exn) :
  tanh E m = Throw e -> e = RangeError.
Proof.
  unfold tanh.
  destruct (Matrix_new_cases (n m) (d m)) as [[buf ->] | ->]; cbn [rbind].
  - discriminate.
  - intros H. injection H as <-. reflexivity.
Qed.

Lemma sigmoid_Throw {eng : Engine} (m : Matrix) (e : exn) :
  sigmoid E m = Throw e -> e = RangeError.
Proof.
  unfold sigmoid.
  destruct (Matrix_new_cases (n m) (d m)) as [[buf ->] | ->]; cbn [rbind].
  - discriminate.
  - intros H. injection H as <-. reflexivity.
Qed.

(** X11. The forward pass reads the model only through the members
    [w_in], [w_out] and [w_i] for [0 <= i < config.hidden]: two models that
    agree on these give the same result, whatever other members they
    have. *)
Theorem forwardNetwork_reads_only {eng : Engine} (config : Config)
    (model1 model2 : Model)
    (x y : float) :
  model1 !! "w_in" = model2 !! "w_in" ->
  model1 !! "w_out" = model2 !! "w_out" ->
  (forall i, i ∈ upto (hidden config) ->
     model1 !! layer_key i = model2 !! layer_key i) ->
  forwardNetwork E config model1 x y = forwardNetwork E config model2 x y.
Proof.
  intros Hin Hout Hlayers. rewrite !forwardNetwork_unfold.
  assert (Hmin : member model1 "w_in" = member model2 "w_in")
    by (unfold member; rewrite Hin; reflexivity).
  assert (Hmout : member model1 "w_out" = member model2 "w_out")
    by (unfold member; rewrite Hout; reflexivity).
  rewrite Hmin, Hmout.
  destruct (member model2 "w_in") as [w_in|]; cbn [rbind]; [|reflexivity].
  destruct (matrixMul w_in (column [x; y; 1%float])) as [h|e]; cbn [rbind];
    [|reflexivity].
  destruct (tanh E h) as [out|e]; cbn [rbind]; [|reflexivity].
  rewrite (foldR_ext_in
             (fun out i => let! w_i := member model1 (layer_key i) in
                           let! h := matrixMul w_i out in tanh E h)
             (fun out i => let! w_i := member model2 (layer_key i) in
                           let! h := matrixMul w_i out in tanh E h)).
  2:{ intros s a Ha. unfold member. rewrite (Hlayers a Ha). reflexivity. }
  reflexivity.
Qed.

(** X12. The errors of the forward pass: a missing [w_in] gives a
    TypeError, a [w_in] whose [d] is not 3 the dimension error; the three
    [set] calls on the fresh (3, 1) vector never throw, so the forward pass
    throws nothing but a TypeError (missing member), the dimension error or
    a RangeError (an [n] of a member that is negative, or larger than the
    engine allocates). *)
Theorem forwardNetwork_errors {eng : Engine} (config : Config) (model : Model)
    (x y : float) :
  (model !! "w_in" = None -> forwardNetwork E config model x y = Throw TypeError)
  /\ (forall m, model !! "w_in" = Some m -> d m <> Int 3 ->
        forwardNetwork E config model x y = Throw DimensionsMisaligned)
  /\ (forall e, forwardNetwork E config model x y = Throw e ->
        e = TypeError \/ e = DimensionsMisaligned \/ e = RangeError).
Proof.
  rewrite forwardNetwork_unfold. split; [|split].
  - intros Hin. unfold member at 1. rewrite Hin. reflexivity.
  - intros m Hin Hd. unfold member at 1. rewrite Hin. cbn [rbind].
    unfold matrixMul at 1.
    destruct (ieqb (d m) (n (column [x; y; 1%float]))) eqn:Heq; [|reflexivity].
    apply ieqb_true in Heq as (z & Hz & Hcol). cbn in Hcol.
    injection Hcol as <-. contradiction.
  - intros e.
    assert (Hlayer : forall (mo : Model) key out e0,
               (let! w_i := member mo key in
                let! h := matrixMul w_i out in tanh E h) = Throw e0 ->
               e0 = TypeError \/ e0 = DimensionsMisaligned \/ e0 = RangeError).
    { intros mo key out e0. unfold member.
      destruct (mo !! key) as [w_i|]; cbn [rbind];
        [|intros H; injection H as <-; auto].
      destruct (matrixMul w_i out) as [h|e1] eqn:Hmul; cbn [rbind].
      - intros H. apply tanh_Throw in H. auto.
      - intros H. injection H as <-. apply matrixMul_Throw in Hmul. tauto. }
    unfold member at 1.
    destruct (model !! "w_in") as [w_in|] eqn:Hin; cbn [rbind];
      [|intros H; injection H as <-; auto].
    destruct (matrixMul w_in (column [x; y; 1%float])) as [h|e1] eqn:Hmul;
      cbn [rbind];
      [|intros H; injection H as <-; apply matrixMul_Throw in Hmul; tauto].
    destruct (tanh E h) as [out|e1] eqn:Htanh; cbn [rbind];
      [|intros H; injection H as <-; apply tanh_Throw in Htanh; auto].
    destruct (foldR _ _ out) as [out'|e1] eqn:Hfold; cbn [rbind].
    + unfold member.
      destruct (model !! "w_out") as [w_out|]; cbn [rbind];
        [|intros H; injection H as <-; auto].
      destruct (matrixMul w_out out') as [h'|e1] eqn:Hmul'; cbn [rbind].
      * intros H. apply sigmoid_Throw in H. auto.
      * intros H. injection H as <-. apply matrixMul_Throw in Hmul'. tauto.
    + intros H. injection H as <-.
      eapply (foldR_Throw
                (fun e => e = TypeError \/ e = DimensionsMisaligned \/ e = RangeError));
        [|exact Hfold].
      intros s a e0. apply Hlayer.
Qed.

End ForwardErrors.

Lemma forwardNetwork_reads_only_witness :
  forwardNetwork (eng := RefHost.engine) small_host small_config small_model 0.25 0.75
  = forwardNetwork (eng := RefHost.engine) small_host small_config
      (<["w_7" := {| n := Int 1; d := Int 1; w := [1%float] |}]> small_model)
      0.25 0.75.
Proof.
  apply forwardNetwork_reads_only.
  - vm_compute. reflexivity.
  - vm_compute. reflexivity.
  - intros i Hi. symmetry. apply lookup_insert_ne.
    change "w_7" with (layer_key 7). intros Heq. apply layer_key_inj in Heq. subst i.
    apply elem_of_upto in Hi as (h & Hh & Hi). injection Hh as <-. lia.
Defined.

(** ** The bytes of the image *)

Lemma floor_from_range (k : nat) (x : float) : 0 <= floor_from k x <= Z.of_nat k.
Proof.
  induction k as [|k IH]; cbn [floor_from]; [lia|].
  destruct (Z2F (Z.of_nat (S k)) <=? x)%float; lia.
Qed.

Lemma ToUint8Clamp_range (v : option float) : 0 <= ToUint8Clamp v <= 255.
Proof.
  unfold ToUint8Clamp.
  destruct (is_nan (ToNumber v)); [lia|].
  destruct (ToNumber v <=? 0)%float; [lia|].
  destruct (255 <=? ToNumber v)%float eqn:Hhi; [lia|].
  assert (Hf : 0 <= floor_from 255 (ToNumber v) <= 254).
  { change (floor_from 255 (ToNumber v))
      with (if (Z2F (Z.of_nat 255) <=? ToNumber v)%float then Z.of_nat 255
            else floor_from 254 (ToNumber v)).
    replace (Z2F (Z.of_nat 255)) with 255%float by (vm_compute; reflexivity).
    rewrite Hhi. pose proof (floor_from_range 254 (ToNumber v)). lia. }
  repeat match goal with |- context [if ?b then _ else _] => destruct b end; lia.
Qed.

Lemma getColorAt_alpha {eng : Engine} (E : Host) (config : Config) (model : Model)
    (x y : float)
    (c c' : nat) (rgba : list float) :
  getColorAt E config model x y c = Ok (rgba, c') ->
  length rgba = 4%nat /\ rd rgba (Int 3) = Some 255%float /\ c' = S (S (S c)).
Proof.
  unfold getColorAt, bind at 1, lift.
  destruct (forwardNetwork E config model x y) as [out|e]; [|discriminate].
  unfold noise, random, bind, ret. intros H. injection H as <- <-.
  split; [reflexivity|]. split; reflexivity.
Qed.

Section ImageBytes.
Context {eng : Engine}.
Variable E : Host.
Variable fuel : nat.

(** X13. The image that [getImageData] returns is opaque and made of
    bytes: every element of the buffer is an integer between 0 and 255, the
    fourth byte of every pixel (the alpha channel) is 255, and rendering
    draws exactly three random numbers for each pixel after those of
    [createModel]. *)
Theorem getImageData_bytes (config : Config) (W H k : Z) (c : nat)
    (pixels : list Z) (c_end : nat) :
  width config = Int W -> height config = Int H -> 0 <= W -> 0 <= H ->
  input config = Int k -> 0 <= k ->
  getImageData E fuel config c = Ok (pixels, c_end) ->
  Forall (fun b => 0 <= b <= 255) pixels
  /\ (forall q, 0 <= q < W * H -> rd pixels (Int (q * 4 + 3)) = Some 255)
  /\ exists model c1,
       createModel E fuel config c = Ok (model, c1)
       /\ c_end = (c1 + 3 * Z.to_nat (W * H))%nat.
Proof.
  intros Hw Hh HW HH Hk Hpos Hg.
  pose proof Hg as Hg'. unfold getImageData in Hg'.
  apply bind_Ok in Hg' as (model & c1 & Hmodel & _).
  destruct (getImageData_loops E fuel config W H k c c1 model Hw Hh HW HH Hk Hpos
              Hmodel) as [Hrun Hthrow].
  destruct (Z.le_gt_cases (W * H * 4) max_Uint8ClampedArray) as [Hmax|Hmax];
    [|rewrite (Hthrow Hmax) in Hg; discriminate].
  rewrite (Hrun Hmax) in Hg. injection Hg as Hpx Hc.
  rewrite length_prod, !length_seqZ in Hc.
  destruct (image_stores
              (fun p => colour_at E config model W H p
                          (c1 + 3 * Z.to_nat (W * p.1 + p.2)%Z)%nat)
              H W (replicate (Z.to_nat (W * H * 4)) 0) pixels)
    as [Hlen Hcells];
    [lia | lia | rewrite length_replicate; nia | symmetry; exact Hpx |].
  rewrite length_replicate in Hlen.
  assert (Hcell : forall idx, 0 <= idx < W * H * 4 ->
            exists x y j, 0 <= x < W /\ 0 <= y < H /\ 0 <= j < 4
                          /\ idx = (y * W + x) * 4 + j).
  { intros idx Hidx. assert (HWpos : 0 < W) by nia.
    exists ((idx / 4) mod W), ((idx / 4) / W), (idx mod 4).
    pose proof (Z.mod_pos_bound idx 4 ltac:(lia)).
    pose proof (Z.mod_pos_bound (idx / 4) W HWpos).
    pose proof (Z.div_mod idx 4 ltac:(lia)).
    pose proof (Z.div_mod (idx / 4) W ltac:(lia)).
    assert (0 <= idx / 4 < W * H)
      by (split; [apply Z.div_pos; lia | apply Z.div_lt_upper_bound; lia]).
    assert (0 <= idx / 4 / W < H)
      by (split; [apply Z.div_pos; lia | apply Z.div_lt_upper_bound; nia]).
    repeat split; try lia. }
  split; [|split].
  - apply Forall_lookup. intros i b Hi.
    assert (Hidx : 0 <= Z.of_nat i < W * H * 4).
    { apply lookup_lt_Some in Hi. lia. }
    destruct (Hcell _ Hidx) as (x & y & j & Hx & Hy & Hj & Heq).
    specialize (Hcells x y j Hx Hy Hj). rewrite <- Heq, rd_Int, Nat2Z.id in Hcells by lia.
    rewrite Hi in Hcells. injection Hcells as ->. apply ToUint8Clamp_range.
  - intros q Hq.
    destruct (Hcell (q * 4 + 3) ltac:(lia)) as (x & y & j & Hx & Hy & Hj & Heq).
    assert (j = 3 /\ q = y * W + x) as [-> ->] by lia.
    rewrite (Hcells x y 3 Hx Hy ltac:(lia)). f_equal.
    unfold colour_at. cbn [fst snd].
    destruct (getColorAt_on_model E fuel config k c c1 model Hk Hpos Hmodel
                (Z2F x / Z2F W)%float (Z2F y / Z2F H)%float
                (c1 + 3 * Z.to_nat (W * y + x)%Z)%nat) as [rgba Hrgba].
    rewrite Hrgba. apply getColorAt_alpha in Hrgba as (_ & -> & _).
    vm_compute. reflexivity.
  - exists model, c1. split; [exact Hmodel | nia].
Qed.

End ImageBytes.

Lemma getImageData_bytes_witness :
  Forall (fun b => 0 <= b <= 255) [102; 191; 99; 255; 93; 183; 81; 255]
  /\ (forall q, 0 <= q < 2 * 1 ->
        rd [102; 191; 99; 255; 93; 183; 81; 255] (Int (q * 4 + 3)) = Some 255)
  /\ exists model c1,
       createModel (eng := RefHost.engine)
         small_host 10 small_config 0%nat = Ok (model, c1)
       /\ 86%nat = (c1 + 3 * Z.to_nat (2 * 1))%nat.
Proof.
  apply (getImageData_bytes small_host 10 small_config 2 1 4 0%nat);
    [reflexivity | reflexivity | lia | lia | reflexivity | lia |].
  vm_compute. reflexivity.
Defined.

(** ** Images without pixels *)

Lemma foldM_ret {S A} (l : list A) (s : S) (c : nat) :
  foldM (fun s _ => ret s) l s c = Ok (s, c).
Proof. induction l as [|a l IH]; cbn [foldM]; [reflexivity | exact IH]. Qed.

Section NoPixels.
Context {eng : Engine}.
Variable E : Host.
Variable fuel : nat.

(** X14. When the width or the height is zero, negative or NaN, no pixel
    is visited: [getImageData] builds the model, allocates the buffer and
    returns it untouched, drawing nothing after [createModel].  The buffer
    has [width * height * 4] zero bytes (24 of them for a width of -2 and a
    height of -3), none if a dimension is NaN; when exactly one dimension
    is negative and the other positive, and when the engine does not
    allocate [width * height * 4] bytes, the allocation throws a
    RangeError.  (A height of at most 2^53, the largest count the loop over
    the rows reaches.) *)
Theorem getImageData_no_pixels (config : Config) (c c1 : nat) (model : Model) :
  createModel E fuel config c = Ok (model, c1) ->
  (forall W H, width config = Int W -> height config = Int H ->
     W <= 0 \/ H <= 0 -> H <= 2 ^ 53 ->
     getImageData E fuel config c
     = if (W * H * 4 <? 0) || (max_Uint8ClampedArray <? W * H * 4)
       then Throw RangeError
       else Ok (replicate (Z.to_nat (W * H * 4)) 0, c1))
  /\ (width config = iNaN \/ height config = iNaN ->
      getImageData E fuel config c = Ok ([], c1)).
Proof.
  intros Hmodel. split.
  - intros W H Hw Hh Hnone _. unfold getImageData, bind at 1.
    rewrite Hmodel, Hw, Hh. cbn [imul]. unfold bind at 1, lift.
    unfold Uint8ClampedArray_new.
    destruct ((W * H * 4 <? 0) || (max_Uint8ClampedArray <? W * H * 4));
      [reflexivity|].
    cbn [upto].
    destruct (Z.le_gt_cases H 0) as [HH|HH].
    + rewrite (seqZ_nil 0 H HH). reflexivity.
    + destruct Hnone as [HW|]; [|lia].
      rewrite (seqZ_nil 0 W HW). cbn [foldM]. apply foldM_ret.
  - intros Hnan. unfold getImageData, bind at 1. rewrite Hmodel.
    assert (Hlen : imul (imul (width config) (height config)) (Int 4) = iNaN).
    { destruct Hnan as [-> | ->]; [reflexivity|].
      destruct (width config); reflexivity. }
    rewrite Hlen. unfold bind at 1, lift. cbn [Uint8ClampedArray_new].
    destruct Hnan as [-> | ->]; cbn [upto foldM].
    + apply foldM_ret.
    + reflexivity.
Qed.

End NoPixels.

Lemma getImageData_no_pixels_witness :
  getImageData (eng := RefHost.engine) small_host 10
    {| width := Int (-2); height := Int (-3); input := Int 4; hidden := Int 1;
       maxR := 255; maxG := 255; maxB := 255 |} 0%nat
  = Ok (replicate 24 0, 80%nat).
Proof.
  destruct (getImageData_no_pixels (eng := RefHost.engine) small_host 10
              {| width := Int (-2); height := Int (-3); input := Int 4;
                 hidden := Int 1; maxR := 255; maxG := 255; maxB := 255 |}
              0%nat 80%nat small_model) as [Hint _].
  - vm_compute. reflexivity.
  - exact (Hint (-2) (-3) eq_refl eq_refl ltac:(lia) ltac:(lia)).
Defined.

(** ** Channels that are numbers *)

Lemma le_one_scaled (m : positive) (e ez : Z) :
  bounded prec emax m e = true ->
  SFleb (S754_finite false m e) SFone = true -> ez <= e ->
  e <= -52 /\ Z.pos m * 2 ^ (e - ez) <= 2 ^ 52 * 2 ^ (-52 - ez).
Proof.
  intros Hb Hle Hez. pose proof (bounded_spec m e Hb) as (_ & _ & Hm & _).
  apply SFleb_finite in Hle.
  change (Z.pos (Z.to_pos (2 ^ 52))) with (2 ^ 52) in Hle.
  split; [lia|].
  assert (Hp : 0 < 2 ^ (e - ez)) by (apply Z.pow_pos_nonneg; lia).
  replace (-52 - ez) with ((-52 - e) + (e - ez)) by lia.
  rewrite Z.pow_add_r by lia.
  assert (Hq : 0 < 2 ^ (-52 - e)) by (apply Z.pow_pos_nonneg; lia).
  destruct Hle as [Hlt|[-> Hle]].
  - assert (2 ^ 1 <= 2 ^ (-52 - e)) by (apply Z.pow_le_mono_r; lia).
    change (2 ^ 1) with 2 in *. change (2 ^ 53) with (2 * 2 ^ 52) in Hm. nia.
  - change (2 ^ (-52 - -52)) with 1. nia.
Qed.

Lemma le_noise_le_one (m : positive) (e : Z) :
  bounded prec emax m e = true ->
  SFleb (S754_finite false m e) (S754_finite false SFnoise (-58)) = true ->
  SFleb (S754_finite false m e) SFone = true.
Proof.
  intros Hb Hle. apply SFleb_finite in Hle. apply SFleb_finite.
  left. destruct Hle as [?|[-> _]]; lia.
Qed.

(** The sum of two finite numbers of magnitude at most one is finite. *)
Lemma SFadd_small (sa sb : bool) (ma mb : positive) (ea eb : Z) :
  bounded prec emax ma ea = true -> bounded prec emax mb eb = true ->
  SFleb (S754_finite false ma ea) SFone = true ->
  SFleb (S754_finite false mb eb) SFone = true ->
  (exists s, SFadd prec emax (S754_finite sa ma ea) (S754_finite sb mb eb)
             = S754_zero s)
  \/ exists s m e, SFadd prec emax (S754_finite sa ma ea) (S754_finite sb mb eb)
                   = S754_finite s m e.
Proof.
  intros Ha Hb Hla Hlb. unfold SFadd.
  pose proof (shl_align_spec ma ea (Z.min ea eb)) as [_ HA].
  pose proof (shl_align_spec mb eb (Z.min ea eb)) as [_ HB].
  set (ez := Z.min ea eb) in *.
  replace (Z.min ea ez) with ez in HA by (unfold ez; lia).
  replace (Z.min eb ez) with ez in HB by (unfold ez; lia).
  destruct (le_one_scaled ma ea ez Ha Hla ltac:(unfold ez; lia)) as [Hea HAle].
  destruct (le_one_scaled mb eb ez Hb Hlb ltac:(unfold ez; lia)) as [Heb HBle].
  rewrite <- HA in HAle. rewrite <- HB in HBle.
  set (a := fst (shl_align ma ea ez)) in *.
  set (b := fst (shl_align mb eb ez)) in *.
  assert (Hround : forall (s : bool) (p : positive),
             Z.pos p <= Z.pos a + Z.pos b ->
             (exists s', binary_round prec emax s p ez = S754_zero s')
             \/ exists s' m e, binary_round prec emax s p ez = S754_finite s' m e).
  { intros s p Hp. rewrite binary_round_sign.
    assert (Hle : SFleb (binary_round prec emax false p ez) SFtwo = true).
    { apply binary_round_le; [reflexivity|].
      apply (val_le_at ez); [lia | unfold ez; lia |].
      rewrite Z.sub_diag, Z.pow_0_r, Z.mul_1_r.
      change (Z.pos (Z.to_pos (2 ^ 52))) with (2 ^ 52).
      replace (-51 - ez) with (1 + (-52 - ez)) by lia.
      rewrite Z.pow_add_r by (unfold ez; lia). change (2 ^ 1) with 2. lia. }
    destruct (binary_round_cases false p ez) as [Hz|[Hi|(m & e & Hf)]].
    - left. rewrite Hz. eexists. reflexivity.
    - rewrite Hi in Hle. discriminate.
    - right. rewrite Hf. do 3 eexists. reflexivity. }
  unfold binary_normalize.
  destruct (cond_Zopp sa (Z.pos a) + cond_Zopp sb (Z.pos b)) as [|p|p] eqn:Hsum.
  - left. eexists. reflexivity.
  - apply Hround. destruct sa, sb; cbn [cond_Zopp] in Hsum; lia.
  - apply Hround. destruct sa, sb; cbn [cond_Zopp] in Hsum; lia.
Qed.

Lemma is_finite_spec (x : float) :
  is_finite x = true ->
  (exists s, Prim2SF x = S754_zero s) \/ exists s m e, Prim2SF x = S754_finite s m e.
Proof.
  unfold is_finite, is_infinity. rewrite negb_true_iff, orb_false_iff.
  intros [Hnan Hinf]. apply is_nan_false in Hnan.
  rewrite FloatAxioms.eqb_spec, abs_spec in Hinf.
  destruct (Prim2SF x) as [s|s| |s m e]; eauto.
  - destruct s; discriminate.
  - congruence.
Qed.

Lemma SFmul_finite_not_nan (X Y : spec_float) :
  valid_binary X = true -> valid_binary Y = true ->
  ((exists s, X = S754_zero s) \/ exists s m e, X = S754_finite s m e) ->
  ((exists s, Y = S754_zero s) \/ exists s m e, Y = S754_finite s m e) ->
  SFmul prec emax X Y <> S754_nan.
Proof.
  intros Hx Hy [[sx ->]|(sx & mx & ex & ->)] [[sy ->]|(sy & my & ey & ->)];
    try discriminate.
  cbn [SpecFloat.valid_binary] in Hx, Hy. unfold SFmul.
  change (Z.pos (mx * my)) with (Z.pos mx * Z.pos my).
  destruct (binary_round_aux_cases (xorb sx sy) (Z.pos mx * Z.pos my) (ex + ey)
              loc_Exact ltac:(lia) (SFmul_fine mx my ex ey Hx Hy))
    as [->|[->|(m & e & ->)]]; discriminate.
Qed.

(** A sigmoid output with its noise, scaled by a finite maximum, is a
    number. *)
Lemma channel_not_nan (a nz mx : float) :
  (0 <=? a)%float = true -> (a <=? 1)%float = true ->
  (- noiseRange <=? nz)%float = true -> (nz <? noiseRange)%float = true ->
  is_finite mx = true ->
  is_nan ((a + nz) * mx) = false.
Proof.
  intros Ha0 Ha1 Hn0 Hn1 Hmx. apply is_nan_false. rewrite mul_spec.
  apply SFmul_finite_not_nan; try apply Prim2SF_valid; [|apply is_finite_spec, Hmx].
  rewrite add_spec.
  rewrite FloatAxioms.leb_spec, Prim2SF_zero in Ha0.
  rewrite FloatAxioms.leb_spec, Prim2SF_one in Ha1.
  rewrite FloatAxioms.leb_spec, Prim2SF_opp_noiseRange in Hn0.
  rewrite FloatAxioms.ltb_spec, Prim2SF_noiseRange in Hn1.
  pose proof (Prim2SF_valid a) as Hva. pose proof (Prim2SF_valid nz) as Hvn.
  destruct (Prim2SF a) as [sa|sa| |sa ma ea]; try discriminate;
    destruct (Prim2SF nz) as [sn|sn| |sn mn en]; try discriminate;
    try (destruct sa; discriminate); try (destruct sn; discriminate).
  - left. destruct sa, sn; eexists; reflexivity.
  - right. do 3 eexists. reflexivity.
  - right. do 3 eexists. reflexivity.
  - cbn [SpecFloat.valid_binary] in Hva, Hvn.
    destruct sa; [discriminate|].
    apply SFadd_small; try assumption.
    apply le_noise_le_one; [assumption|].
    destruct sn.
    + rewrite SFleb_finite_neg in Hn0. exact Hn0.
    + unfold SFltb in Hn1. unfold SFleb.
      destruct (SFcompare _ _) as [[]|]; congruence.
Qed.

Section Channels.
Variable E : Host.

(** X15. When the three activations of the forward pass lie in [0, 1],
    the three draws of [Math.random] lie in [0, 1) and the three channel
    maxima are finite numbers, [getColorAt] returns four numbers that all
    lie in [0, 255]: no channel is NaN. *)
Theorem getColorAt_channels_in_range {eng : Engine} (config : Config) (model : Model)
    (x y : float) (c : nat) (out : Matrix) :
  forwardNetwork E config model x y = Ok out ->
  (forall i, 0 <= i < 3 ->
     exists a, rd (w out) (Int i) = Some a
               /\ (0 <=? a)%float = true /\ (a <=? 1)%float = true) ->
  (forall j, (j < 3)%nat ->
     (0 <=? Math_random E (c + j))%float = true
     /\ (Math_random E (c + j) <? 1)%float = true) ->
  is_finite (maxR config) = true -> is_finite (maxG config) = true ->
  is_finite (maxB config) = true ->
  exists rgba,
    getColorAt E config model x y c = Ok (rgba, S (S (S c)))
    /\ length rgba = 4%nat
    /\ Forall (fun v => (0 <=? v)%float = true /\ (v <=? 255)%float = true) rgba.
Proof.
  intros Hout Hact Hdraws HR HG HB.
  unfold getColorAt, bind at 1, lift. rewrite Hout.
  unfold noise, random, bind, ret. eexists. split; [reflexivity|].
  split; [reflexivity|].
  assert (Hchan : forall i j mx, 0 <= i < 3 -> (j < 3)%nat -> is_finite mx = true ->
            (0 <=? Math_min 255
                     (Math_max 0 ((ToNumber (rd (w out) (Int i))
                                   + (Math_random E (c + j) * 2 - 1) * noiseRange) * mx)))%float
            = true
            /\ (Math_min 255
                  (Math_max 0 ((ToNumber (rd (w out) (Int i))
                                + (Math_random E (c + j) * 2 - 1) * noiseRange) * mx))
                <=? 255)%float = true).
  { intros i j mx Hi Hj Hmx. apply clamp_range.
    destruct (Hact i Hi) as (a & -> & Ha0 & Ha1). cbn [ToNumber].
    destruct (Hdraws j Hj) as [Hr0 Hr1].
    destruct (noise_range _ Hr0 Hr1) as [Hn0 Hn1].
    apply channel_not_nan; assumption. }
  pose proof (Hchan 0 0%nat (maxR config) ltac:(lia) ltac:(lia) HR) as H0.
  pose proof (Hchan 1 1%nat (maxG config) ltac:(lia) ltac:(lia) HG) as H1.
  pose proof (Hchan 2 2%nat (maxB config) ltac:(lia) ltac:(lia) HB) as H2.
  rewrite Nat.add_0_r in H0.
  replace (c + 1)%nat with (S c) in H1 by lia.
  replace (c + 2)%nat with (S (S c)) in H2 by lia.
  repeat constructor; try assumption; apply H0 || apply H1 || apply H2.
Qed.

End Channels.

Lemma getColorAt_channels_in_range_witness :
  exists rgba,
    getColorAt (eng := RefHost.engine)
      small_host small_config small_model 0 0 80%nat = Ok (rgba, 83%nat)
    /\ length rgba = 4%nat
    /\ Forall (fun v => (0 <=? v)%float = true /\ (v <=? 255)%float = true) rgba.
Proof.
  destruct (forwardNetwork (eng := RefHost.engine)
    small_host small_config small_model 0 0) as [out|e] eqn:Hout;
    [|vm_compute in Hout; discriminate].
  apply (getColorAt_channels_in_range small_host small_config small_model
           0%float 0%float 80%nat out Hout).
  - vm_compute in Hout. injection Hout as <-. intros i Hi.
    assert (Hcases : i = 0 \/ i = 1 \/ i = 2) by lia.
    destruct Hcases as [-> | [-> | ->]];
      (eexists; split; [reflexivity | split; vm_compute; reflexivity]).
  - intros j Hj.
    assert (Hcases : j = 0%nat \/ j = 1%nat \/ j = 2%nat) by lia.
    destruct Hcases as [-> | [-> | ->]]; split; vm_compute; reflexivity.
  - reflexivity.
  - reflexivity.
  - reflexivity.
Defined.

(** ** The rounds of the polar method on draws in [0, 1) *)

Lemma SFmul_comm (X Y : spec_float) : SFmul prec emax X Y = SFmul prec emax Y X.
Proof.
  destruct X as [sx|sx| |sx mx ex], Y as [sy|sy| |sy my ey]; cbn [SFmul];
    rewrite ?(xorb_comm sx sy); try reflexivity.
  rewrite (Pos.mul_comm mx my), (Z.add_comm ex ey). reflexivity.
Qed.

Lemma le_one_minus_ulp_le_one (m : positive) (e : Z) :
  SFleb (S754_finite false m e) SFone_minus_ulp = true ->
  SFleb (S754_finite false m e) SFone = true.
Proof.
  intros H. apply SFleb_finite in H. apply SFleb_finite. left.
  destruct H as [?|[-> _]]; lia.
Qed.

(** [u = 2 * r - 1] for a draw [r] in [0, 1). *)
Lemma SFpolar_u_cases (R : spec_float) :
  valid_binary R = true ->
  SFleb (S754_zero false) R = true -> SFltb R SFone = true ->
  let U := SFsub prec emax (SFmul prec emax SFtwo R) SFone in
  (exists s, U = S754_zero s)
  \/ (exists m e, U = S754_finite false m e
        /\ SFleb (S754_finite false m e) SFone_minus_ulp = true)
  \/ (exists m e, U = S754_finite true m e
        /\ SFleb (S754_finite false m e) SFone = true).
Proof.
  intros Hv H0 H1 U. unfold U. rewrite SFmul_comm.
  destruct (SFmul_two_range R Hv H0 H1) as [Ha Hb].
  apply SFsub_one_range; [|exact Ha|exact Hb].
  pose proof (Prim2SF_valid (SF2Prim R * 2)%float) as Hval.
  rewrite mul_spec, Prim2SF_SF2Prim, Prim2SF_two in Hval by exact Hv. exact Hval.
Qed.

Lemma SFsquare_range (s : bool) (m : positive) (e : Z) :
  bounded prec emax m e = true ->
  SFleb (S754_finite false m e) SFone = true ->
  SFleb (S754_zero false)
        (SFmul prec emax (S754_finite s m e) (S754_finite s m e)) = true
  /\ SFleb (SFmul prec emax (S754_finite s m e) (S754_finite s m e)) SFone = true.
Proof.
  intros Hb Hle.
  change (SFmul prec emax (S754_finite s m e) (S754_finite s m e))
    with (binary_round_aux prec emax (xorb s s) (Z.pos (m * m)) (e + e) loc_Exact).
  rewrite xorb_nilpotent.
  change (binary_round_aux prec emax false (Z.pos (m * m)) (e + e) loc_Exact)
    with (SFmul prec emax (S754_finite false m e) (S754_finite false m e)).
  pose proof (bounded_spec m e Hb) as (_ & _ & Hm & _).
  split; [apply SFmul_nonneg; assumption|].
  apply SFleb_finite in Hle.
  change (Z.pos (Z.to_pos (2 ^ 52))) with (2 ^ 52) in Hle.
  unfold SFone. apply SFmul_le; [assumption | assumption | reflexivity | lia |].
  change (Z.pos (Z.to_pos (2 ^ 52))) with (2 ^ 52).
  destruct Hle as [Hlt|[-> Hle]].
  - replace (-52 - (e + e)) with (1 + (-53 - e) + (-e)) by lia.
    rewrite !Z.pow_add_r by lia. change (2 ^ 1) with 2.
    assert (Hp : 2 ^ 53 <= 2 ^ (- e)) by (apply Z.pow_le_mono_r; lia).
    assert (Hq : 0 < 2 ^ (-53 - e)) by (apply Z.pow_pos_nonneg; lia).
    change (2 ^ 53) with (2 * 2 ^ 52) in *. nia.
  - change (2 ^ (-52 - (-52 + -52))) with (2 ^ 52). nia.
Qed.

(** The sum of two numbers of [0, 1] lies in [0, 2]. *)
Lemma SFadd_unit_range (P Q : spec_float) :
  valid_binary P = true -> valid_binary Q = true ->
  SFleb (S754_zero false) P = true -> SFleb P SFone = true ->
  SFleb (S754_zero false) Q = true -> SFleb Q SFone = true ->
  SFleb (S754_zero false) (SFadd prec emax P Q) = true
  /\ SFleb (SFadd prec emax P Q) SFtwo = true.
Proof.
  intros HvP HvQ HP0 HP1 HQ0 HQ1.
  destruct (SFleb_zero_cases P HP0) as [[sp ->]|[->|(mp & ep & ->)]];
    [| discriminate |];
    (destruct (SFleb_zero_cases Q HQ0) as [[sq ->]|[->|(mq & eq & ->)]];
     [| discriminate |]).
  - destruct sp, sq; split; reflexivity.
  - cbn [SFadd]. split; [reflexivity|].
    apply SFleb_finite in HQ1. apply SFleb_finite. left. lia.
  - cbn [SFadd]. split; [reflexivity|].
    apply SFleb_finite in HP1. apply SFleb_finite. left. lia.
  - cbn [SpecFloat.valid_binary] in HvP, HvQ. unfold SFadd. cbn [cond_Zopp].
    pose proof (shl_align_spec mp ep (Z.min ep eq)) as [_ HA].
    pose proof (shl_align_spec mq eq (Z.min ep eq)) as [_ HB].
    set (ez := Z.min ep eq) in *.
    replace (Z.min ep ez) with ez in HA by (unfold ez; lia).
    replace (Z.min eq ez) with ez in HB by (unfold ez; lia).
    destruct (le_one_scaled mp ep ez HvP HP1 ltac:(unfold ez; lia)) as [Hep HAle].
    destruct (le_one_scaled mq eq ez HvQ HQ1 ltac:(unfold ez; lia)) as [Heq HBle].
    rewrite <- HA in HAle. rewrite <- HB in HBle.
    set (a := fst (shl_align mp ep ez)) in *.
    set (b := fst (shl_align mq eq ez)) in *.
    change (Z.pos a + Z.pos b) with (Z.pos (a + b)). unfold binary_normalize.
    assert (Hle : SFleb (binary_round prec emax false (a + b) ez) SFtwo = true).
    { apply binary_round_le; [reflexivity|].
      apply (val_le_at ez); [lia | unfold ez; lia |].
      rewrite Z.sub_diag, Z.pow_0_r, Z.mul_1_r.
      change (Z.pos (Z.to_pos (2 ^ 52))) with (2 ^ 52).
      replace (-51 - ez) with (1 + (-52 - ez)) by lia.
      rewrite Z.pow_add_r by (unfold ez; lia). change (2 ^ 1) with 2. lia. }
    split; [|exact Hle].
    destruct (binary_round_cases false (a + b) ez) as [->|[->|(m & e & ->)]];
      reflexivity.
Qed.

Lemma accept_iff (r : float) :
  (0 <=? r)%float = true ->
  ((r =? 0)%float || (1 <? r)%float = false <->
   (0 <? r)%float = true /\ (r <=? 1)%float = true).
Proof.
  rewrite !FloatAxioms.leb_spec, !FloatAxioms.ltb_spec, FloatAxioms.eqb_spec.
  unfold SFleb, SFltb, SFeqb.
  rewrite (SFcompare_antisym (Prim2SF 0) (Prim2SF r)).
  rewrite (SFcompare_antisym (Prim2SF 1) (Prim2SF r)).
  destruct (SFcompare (Prim2SF 0) (Prim2SF r)) as [c0|] eqn:H0; [|discriminate].
  destruct (SFcompare (Prim2SF 1) (Prim2SF r)) as [c1|] eqn:H1.
  - destruct c0, c1; cbn; intros H; try discriminate; split;
      try (intros [? ?]); try discriminate; auto.
  - apply SFcompare_None in H1 as [H1|H1]; [discriminate|].
    rewrite H1 in H0. discriminate.
Qed.

Section PolarRange.
Variable E : Host.

Lemma polar_u_range (c : nat) :
  (0 <=? Math_random E c)%float = true -> (Math_random E c <? 1)%float = true ->
  (-1 <=? polar_u E c)%float = true /\ (polar_u E c <? 1)%float = true
  /\ SFleb (S754_zero false) (Prim2SF (polar_u E c * polar_u E c)) = true
  /\ SFleb (Prim2SF (polar_u E c * polar_u E c)) SFone = true.
Proof.
  intros H0 H1.
  rewrite FloatAxioms.leb_spec, Prim2SF_zero in H0.
  rewrite FloatAxioms.ltb_spec, Prim2SF_one in H1.
  rewrite FloatAxioms.leb_spec, FloatAxioms.ltb_spec, mul_spec, Prim2SF_one.
  pose proof (Prim2SF_valid (polar_u E c)) as Hv.
  unfold polar_u in *. rewrite sub_spec, mul_spec, Prim2SF_two, Prim2SF_one in *.
  change (Prim2SF (-1)) with (S754_finite true (Z.to_pos (2 ^ 52)) (-52)).
  destruct (SFpolar_u_cases _ (Prim2SF_valid _) H0 H1)
    as [[s Hu]|[(m & e & Hu & Hle)|(m & e & Hu & Hle)]];
    unfold SF64sub, SF64mul in *; rewrite Hu in *.
  - destruct s; repeat split; reflexivity.
  - cbn [SpecFloat.valid_binary] in Hv.
    split; [reflexivity|]. split.
    + apply SFleb_finite in Hle. apply SFltb_finite. left.
      destruct Hle as [?|[-> _]]; lia.
    + apply SFsquare_range; [assumption|].
      apply le_one_minus_ulp_le_one. exact Hle.
  - cbn [SpecFloat.valid_binary] in Hv.
    split; [rewrite SFleb_finite_neg; exact Hle|]. split; [reflexivity|].
    apply SFsquare_range; assumption.
Qed.

(** X16. For two draws of [Math.random] in [0, 1), the [u] and [v] of a
    round of the polar method lie in [-1, 1) and [r = u*u + v*v] is a
    number of [0, 2], never NaN; so the round ends the loop exactly when
    [0 < r <= 1]. *)
Theorem polar_round_range (c : nat) :
  (0 <=? Math_random E c)%float = true -> (Math_random E c <? 1)%float = true ->
  (0 <=? Math_random E (S c))%float = true ->
  (Math_random E (S c) <? 1)%float = true ->
  ((-1 <=? polar_u E c)%float = true /\ (polar_u E c <? 1)%float = true)
  /\ ((-1 <=? polar_u E (S c))%float = true /\ (polar_u E (S c) <? 1)%float = true)
  /\ (0 <=? polar_r E c)%float = true /\ (polar_r E c <=? 2)%float = true
  /\ (rejected E c = false <->
      (0 <? polar_r E c)%float = true /\ (polar_r E c <=? 1)%float = true).
Proof.
  intros Hu0 Hu1 Hv0 Hv1.
  destruct (polar_u_range c Hu0 Hu1) as (Ha & Hb & Hp0 & Hp1).
  destruct (polar_u_range (S c) Hv0 Hv1) as (Ha' & Hb' & Hq0 & Hq1).
  split; [auto|]. split; [auto|].
  assert (Hr : (0 <=? polar_r E c)%float = true /\ (polar_r E c <=? 2)%float = true).
  { rewrite !FloatAxioms.leb_spec, Prim2SF_zero, Prim2SF_two.
    unfold polar_r. rewrite add_spec.
    apply SFadd_unit_range; try assumption; apply Prim2SF_valid. }
  destruct Hr as [Hr0 Hr2]. split; [exact Hr0|]. split; [exact Hr2|].
  unfold rejected. apply accept_iff. exact Hr0.
Qed.

End PolarRange.

Lemma polar_round_range_witness :
  ((-1 <=? polar_u small_host 0)%float = true
   /\ (polar_u small_host 0 <? 1)%float = true)
  /\ ((-1 <=? polar_u small_host 1)%float = true
      /\ (polar_u small_host 1 <? 1)%float = true)
  /\ (0 <=? polar_r small_host 0)%float = true
  /\ (polar_r small_host 0 <=? 2)%float = true
  /\ (rejected small_host 0 = false <->
      (0 <? polar_r small_host 0)%float = true
      /\ (polar_r small_host 0 <=? 1)%float = true).
Proof.
  apply (polar_round_range small_host 0); reflexivity.
Defined.
